(** * proclikefs: retiring a /proc-like file system while it is in use

    A shallow embedding of [linuxmodule/proclikefs.c] and the properties of
    its registration, poisoning, dentry-walk and reference-counting code.

    Build configuration.  The C file selects its code with
    [LINUX_VERSION_CODE]; the embedding follows the branches taken for
    [LINUX_VERSION_CODE >= KERNEL_VERSION(2, 6, 16)]:
    [try_module_get] guards registration and [proclikefs_read_super],
    superblocks are reached through [fs.fs_supers], open files through
    [sb->s_files], and [follow_link] is cleared rather than redirected.

    Memory.  Every kind of kernel object lives in its own finite map from
    addresses to records; a lookup that fails stands for a dereference of
    a null, dangling or wild pointer, and the operation then has no
    defined result ([None]).  The singly linked lists [pfs_pfo] and
    [pfs_pio] and the kernel's [list_head] lists are kept as Rocq lists of
    addresses in list order.  Spin locks and [lock_super] are not
    modelled: every operation runs to completion on its own.

    Observations.  Calls into the kernel that leave no mark on the
    modelled memory ([printk], [kmalloc], [kfree], [d_drop],
    [register_filesystem], ...) are appended to a trace.  One ghost event,
    [Ev_visit], marks each iteration of the dentry loop. *)

From stdpp Require Import gmap strings list fin_maps.

Local Open Scope Z_scope.

Abbreviation ptr := positive.

(** ** Errno values and entry points *)

Definition ENOENT : Z := 2.
Definition EIO : Z := 5.

(** [static int return_EIO(void) { return -EIO; }] *)
Definition return_EIO : Z := (- EIO)%Z.

(** [proclikefs_null_root_lookup] returns [ERR_PTR(-ENOENT)]; the encoded
    error number is what the model keeps. *)
Definition proclikefs_null_root_lookup : Z := (- ENOENT)%Z.

(** What a slot of a dispatch table can hold. *)
Inductive fn_ptr :=
  | fn_NULL
  | fn_return_EIO
  | fn_null_root_lookup
  | fn_read_inode
  | fn_put_super
  | fn_driver (f : nat).

Global Instance fn_ptr_eq_dec : EqDecision fn_ptr.
Proof. solve_decision. Defined.

(** The return type a slot is declared with.  The slot types belong to
    the kernel's [struct file_operations] and [struct inode_operations];
    what matters here is whether a slot returns [int], a pointer, some
    other value ([ssize_t], [loff_t], [long], [unsigned int], ...) or
    nothing. *)
Inductive ret_type := RT_int | RT_ptr | RT_other | RT_void.

Global Instance ret_type_eq_dec : EqDecision ret_type.
Proof. solve_decision. Defined.

(** Dispatch through a slot declared with return type [rt].  [impl]
    gives the value returned by each driver-supplied function; a null
    slot has nothing to call.  [return_EIO] is defined as [int (void)]
    and reaches the slots through casts to [void] pointers: called through a
    slot that returns [int] it yields [-EIO]; called through a slot of
    any other return type it is called as a function of a type it does
    not have, and the value the caller receives is not fixed by the
    source (on x86-64 a 64-bit slot reads the 32-bit result
    zero-extended, 4294967291, which is neither [-EIO] nor an error
    pointer).  [proclikefs_null_root_lookup] is defined with the type of
    the [lookup] slot, which returns a pointer.
    [proclikefs_read_inode] has an empty body and
    [proclikefs_put_super] returns void: neither yields a value. *)
Definition call_slot (impl : nat → Z) (rt : ret_type) (f : fn_ptr) : option Z :=
  match f with
  | fn_NULL => None
  | fn_return_EIO => if decide (rt = RT_int) then Some return_EIO else None
  | fn_null_root_lookup =>
      if decide (rt = RT_ptr) then Some proclikefs_null_root_lookup else None
  | fn_read_inode => None
  | fn_put_super => None
  | fn_driver k => Some (impl k)
  end.

(** ** Dispatch tables

    [struct file_operations] and [struct inode_operations] are declared
    by the kernel.  The records have one field for each slot that the
    source names, in the order in which
    [proclikefs_unregister_filesystem] assigns them, and one field,
    [fo_rest] or [io_rest], for the slots of the kernel's structs that
    the source never names ([dir_notify] and [truncate_range] in
    2.6.16), numbered in some order; a slot missing from the map is
    null. *)

Record file_operations := {
  fo_llseek : fn_ptr; fo_read : fn_ptr; fo_write : fn_ptr;
  fo_readdir : fn_ptr; fo_poll : fn_ptr; fo_ioctl : fn_ptr;
  fo_mmap : fn_ptr; fo_open : fn_ptr; fo_flush : fn_ptr;
  fo_release : fn_ptr; fo_fsync : fn_ptr; fo_fasync : fn_ptr;
  fo_lock : fn_ptr; fo_readv : fn_ptr; fo_writev : fn_ptr;
  fo_sendpage : fn_ptr; fo_get_unmapped_area : fn_ptr;
  fo_aio_read : fn_ptr; fo_aio_write : fn_ptr;
  fo_unlocked_ioctl : fn_ptr; fo_compat_ioctl : fn_ptr;
  fo_aio_fsync : fn_ptr; fo_sendfile : fn_ptr;
  fo_check_flags : fn_ptr; fo_flock : fn_ptr;
  fo_rest : gmap nat fn_ptr
}.

Record inode_operations := {
  io_create : fn_ptr; io_lookup : fn_ptr; io_link : fn_ptr;
  io_unlink : fn_ptr; io_symlink : fn_ptr; io_mkdir : fn_ptr;
  io_rmdir : fn_ptr; io_mknod : fn_ptr; io_rename : fn_ptr;
  io_readlink : fn_ptr; io_follow_link : fn_ptr; io_truncate : fn_ptr;
  io_permission : fn_ptr; io_setattr : fn_ptr; io_getattr : fn_ptr;
  io_setxattr : fn_ptr; io_getxattr : fn_ptr; io_listxattr : fn_ptr;
  io_removexattr : fn_ptr; io_put_link : fn_ptr;
  io_rest : gmap nat fn_ptr
}.

(** The two slots of [struct super_operations] that [init_module] sets. *)
Record super_operations := {
  so_read_inode : fn_ptr;
  so_put_super : fn_ptr
}.

Inductive fo_slot :=
  | FO_llseek | FO_read | FO_write | FO_readdir | FO_poll | FO_ioctl
  | FO_mmap | FO_open | FO_flush | FO_release | FO_fsync | FO_fasync
  | FO_lock | FO_readv | FO_writev | FO_sendpage | FO_get_unmapped_area
  | FO_aio_read | FO_aio_write | FO_unlocked_ioctl | FO_compat_ioctl
  | FO_aio_fsync | FO_sendfile | FO_check_flags | FO_flock
  | FO_other (n : nat).

Inductive io_slot :=
  | IO_create | IO_lookup | IO_link | IO_unlink | IO_symlink | IO_mkdir
  | IO_rmdir | IO_mknod | IO_rename | IO_readlink | IO_follow_link
  | IO_truncate | IO_permission | IO_setattr | IO_getattr | IO_setxattr
  | IO_getxattr | IO_listxattr | IO_removexattr | IO_put_link
  | IO_other (n : nat).

Global Instance fo_slot_eq_dec : EqDecision fo_slot.
Proof. solve_decision. Defined.

Global Instance io_slot_eq_dec : EqDecision io_slot.
Proof. solve_decision. Defined.

Definition fo_get (k : fo_slot) (fo : file_operations) : fn_ptr :=
  match k with
  | FO_llseek => fo_llseek fo | FO_read => fo_read fo
  | FO_write => fo_write fo | FO_readdir => fo_readdir fo
  | FO_poll => fo_poll fo | FO_ioctl => fo_ioctl fo
  | FO_mmap => fo_mmap fo | FO_open => fo_open fo
  | FO_flush => fo_flush fo | FO_release => fo_release fo
  | FO_fsync => fo_fsync fo | FO_fasync => fo_fasync fo
  | FO_lock => fo_lock fo | FO_readv => fo_readv fo
  | FO_writev => fo_writev fo | FO_sendpage => fo_sendpage fo
  | FO_get_unmapped_area => fo_get_unmapped_area fo
  | FO_aio_read => fo_aio_read fo | FO_aio_write => fo_aio_write fo
  | FO_unlocked_ioctl => fo_unlocked_ioctl fo
  | FO_compat_ioctl => fo_compat_ioctl fo
  | FO_aio_fsync => fo_aio_fsync fo | FO_sendfile => fo_sendfile fo
  | FO_check_flags => fo_check_flags fo | FO_flock => fo_flock fo
  | FO_other n => default fn_NULL (fo_rest fo !! n)
  end.

Definition io_get (k : io_slot) (io : inode_operations) : fn_ptr :=
  match k with
  | IO_create => io_create io | IO_lookup => io_lookup io
  | IO_link => io_link io | IO_unlink => io_unlink io
  | IO_symlink => io_symlink io | IO_mkdir => io_mkdir io
  | IO_rmdir => io_rmdir io | IO_mknod => io_mknod io
  | IO_rename => io_rename io | IO_readlink => io_readlink io
  | IO_follow_link => io_follow_link io | IO_truncate => io_truncate io
  | IO_permission => io_permission io | IO_setattr => io_setattr io
  | IO_getattr => io_getattr io | IO_setxattr => io_setxattr io
  | IO_getxattr => io_getxattr io | IO_listxattr => io_listxattr io
  | IO_removexattr => io_removexattr io | IO_put_link => io_put_link io
  | IO_other n => default fn_NULL (io_rest io !! n)
  end.

(** A driver fills a table it was handed by plain stores into it. *)
Definition fo_set (k : fo_slot) (v : fn_ptr) (fo : file_operations) : file_operations :=
  let g j := if decide (k = j) then v else fo_get j fo in
  {| fo_llseek := g FO_llseek; fo_read := g FO_read; fo_write := g FO_write;
     fo_readdir := g FO_readdir; fo_poll := g FO_poll; fo_ioctl := g FO_ioctl;
     fo_mmap := g FO_mmap; fo_open := g FO_open; fo_flush := g FO_flush;
     fo_release := g FO_release; fo_fsync := g FO_fsync;
     fo_fasync := g FO_fasync; fo_lock := g FO_lock; fo_readv := g FO_readv;
     fo_writev := g FO_writev; fo_sendpage := g FO_sendpage;
     fo_get_unmapped_area := g FO_get_unmapped_area;
     fo_aio_read := g FO_aio_read; fo_aio_write := g FO_aio_write;
     fo_unlocked_ioctl := g FO_unlocked_ioctl;
     fo_compat_ioctl := g FO_compat_ioctl;
     fo_aio_fsync := g FO_aio_fsync; fo_sendfile := g FO_sendfile;
     fo_check_flags := g FO_check_flags; fo_flock := g FO_flock;
     fo_rest := match k with
                | FO_other n => <[n := v]> (fo_rest fo)
                | _ => fo_rest fo
                end |}.

Definition io_set (k : io_slot) (v : fn_ptr) (io : inode_operations) : inode_operations :=
  let g j := if decide (k = j) then v else io_get j io in
  {| io_create := g IO_create; io_lookup := g IO_lookup; io_link := g IO_link;
     io_unlink := g IO_unlink; io_symlink := g IO_symlink;
     io_mkdir := g IO_mkdir; io_rmdir := g IO_rmdir; io_mknod := g IO_mknod;
     io_rename := g IO_rename; io_readlink := g IO_readlink;
     io_follow_link := g IO_follow_link; io_truncate := g IO_truncate;
     io_permission := g IO_permission; io_setattr := g IO_setattr;
     io_getattr := g IO_getattr; io_setxattr := g IO_setxattr;
     io_getxattr := g IO_getxattr; io_listxattr := g IO_listxattr;
     io_removexattr := g IO_removexattr; io_put_link := g IO_put_link;
     io_rest := match k with
                | IO_other n => <[n := v]> (io_rest io)
                | _ => io_rest io
                end |}.

(** [memset(&pfo->pfo_op, 0, sizeof(struct file_operations))] *)
Definition zero_file_operations : file_operations :=
  {| fo_llseek := fn_NULL; fo_read := fn_NULL; fo_write := fn_NULL;
     fo_readdir := fn_NULL; fo_poll := fn_NULL; fo_ioctl := fn_NULL;
     fo_mmap := fn_NULL; fo_open := fn_NULL; fo_flush := fn_NULL;
     fo_release := fn_NULL; fo_fsync := fn_NULL; fo_fasync := fn_NULL;
     fo_lock := fn_NULL; fo_readv := fn_NULL; fo_writev := fn_NULL;
     fo_sendpage := fn_NULL; fo_get_unmapped_area := fn_NULL;
     fo_aio_read := fn_NULL; fo_aio_write := fn_NULL;
     fo_unlocked_ioctl := fn_NULL; fo_compat_ioctl := fn_NULL;
     fo_aio_fsync := fn_NULL; fo_sendfile := fn_NULL;
     fo_check_flags := fn_NULL; fo_flock := fn_NULL;
     fo_rest := ∅ |}.

(** [memset(&pio->pio_op, 0, sizeof(struct inode_operations))] *)
Definition zero_inode_operations : inode_operations :=
  {| io_create := fn_NULL; io_lookup := fn_NULL; io_link := fn_NULL;
     io_unlink := fn_NULL; io_symlink := fn_NULL; io_mkdir := fn_NULL;
     io_rmdir := fn_NULL; io_mknod := fn_NULL; io_rename := fn_NULL;
     io_readlink := fn_NULL; io_follow_link := fn_NULL;
     io_truncate := fn_NULL; io_permission := fn_NULL;
     io_setattr := fn_NULL; io_getattr := fn_NULL; io_setxattr := fn_NULL;
     io_getxattr := fn_NULL; io_listxattr := fn_NULL;
     io_removexattr := fn_NULL; io_put_link := fn_NULL;
     io_rest := ∅ |}.

(** The body of the first loop of [proclikefs_unregister_filesystem]:
    one store of [return_EIO] for each of the 25 slots it names; the
    other slots of [*fo] are not written. *)
Definition clear_file_operations (fo : file_operations) : file_operations :=
  {| fo_llseek := fn_return_EIO; fo_read := fn_return_EIO;
     fo_write := fn_return_EIO; fo_readdir := fn_return_EIO;
     fo_poll := fn_return_EIO; fo_ioctl := fn_return_EIO;
     fo_mmap := fn_return_EIO; fo_open := fn_return_EIO;
     fo_flush := fn_return_EIO; fo_release := fn_return_EIO;
     fo_fsync := fn_return_EIO; fo_fasync := fn_return_EIO;
     fo_lock := fn_return_EIO; fo_readv := fn_return_EIO;
     fo_writev := fn_return_EIO; fo_sendpage := fn_return_EIO;
     fo_get_unmapped_area := fn_return_EIO;
     fo_aio_read := fn_return_EIO; fo_aio_write := fn_return_EIO;
     fo_unlocked_ioctl := fn_return_EIO; fo_compat_ioctl := fn_return_EIO;
     fo_aio_fsync := fn_return_EIO; fo_sendfile := fn_return_EIO;
     fo_check_flags := fn_return_EIO; fo_flock := fn_return_EIO;
     fo_rest := fo_rest fo |}.

(** The body of the second loop: [io->follow_link = 0], [return_EIO]
    into each of the other 19 slots it names; the other slots of [*io]
    are not written. *)
Definition clear_inode_operations (io : inode_operations) : inode_operations :=
  {| io_create := fn_return_EIO; io_lookup := fn_return_EIO;
     io_link := fn_return_EIO; io_unlink := fn_return_EIO;
     io_symlink := fn_return_EIO; io_mkdir := fn_return_EIO;
     io_rmdir := fn_return_EIO; io_mknod := fn_return_EIO;
     io_rename := fn_return_EIO; io_readlink := fn_return_EIO;
     io_follow_link := fn_NULL;
     io_truncate := fn_return_EIO; io_permission := fn_return_EIO;
     io_setattr := fn_return_EIO; io_getattr := fn_return_EIO;
     io_setxattr := fn_return_EIO; io_getxattr := fn_return_EIO;
     io_listxattr := fn_return_EIO; io_removexattr := fn_return_EIO;
     io_put_link := fn_return_EIO;
     io_rest := io_rest io |}.

(** ** Kernel objects *)

(** [struct proclikefs_file_system].  [fs.name] points at [name], so one
    field stands for both; [fs.next] and [fs.owner] are written once and
    never read here. *)
Record proclikefs_file_system := {
  name : string;
  fs_flags : Z;               (* fs.fs_flags *)
  fs_get_sb : nat;            (* fs.get_sb, a driver callback *)
  fs_supers : list ptr;       (* fs.fs_supers, superblocks of this type *)
  nsuper : Z;                 (* atomic_t *)
  live : Z;                   (* int *)
  pfs_pfo : list ptr;         (* chain through pfo_next *)
  pfs_pio : list ptr          (* chain through pio_next *)
}.

(** Targets of [sb->s_op] and [inode->i_op]. *)
Inductive s_op_ptr :=
  | sop_driver (k : nat)
  | sop_proclikefs_null.      (* &proclikefs_null_super_operations *)

Inductive i_op_ptr :=
  | iop_NULL
  | iop_table (p : ptr)       (* a table in the pio heap *)
  | iop_proclikefs_null_root. (* &proclikefs_null_root_inode_operations *)

Record super_block := {
  s_type : ptr;
  s_files : list ptr;
  s_op : s_op_ptr;
  s_root : option ptr
}.

Record dentry := {
  d_op : option nat;
  d_fsdata : option ptr;
  d_subdirs : list ptr;
  d_inode : option ptr;
  d_unhashed : bool
}.

Record inode := { i_op : i_op_ptr }.

Record file := { f_op : option ptr }.

Inductive kind := K_pfs | K_pfo | K_pio.

Inductive event :=
  | Ev_printk (msg : string)
  | Ev_kmalloc (k : kind) (p : ptr)
  | Ev_kfree (k : kind) (p : ptr)
  | Ev_register_filesystem (p : ptr)
  | Ev_unregister_filesystem (p : ptr)
  | Ev_reread_super (cb : nat) (sb : ptr)
  | Ev_d_drop (d : ptr)
  | Ev_visit (d : ptr).

Global Instance kind_eq_dec : EqDecision kind.
Proof. solve_decision. Defined.

Global Instance event_eq_dec : EqDecision event.
Proof. solve_decision. Defined.

(** The whole machine: the list [fs_list], the heaps, the two static
    tables, the module use count, the next address [kmalloc] hands out,
    and the trace. *)
Record state := {
  fs_list : list ptr;
  pfs_mem : gmap ptr proclikefs_file_system;
  pfo_mem : gmap ptr file_operations;
  pio_mem : gmap ptr inode_operations;
  sb_mem : gmap ptr super_block;
  dentry_mem : gmap ptr dentry;
  inode_mem : gmap ptr inode;
  file_mem : gmap ptr file;
  proclikefs_null_super_operations : super_operations;
  proclikefs_null_root_inode_operations : inode_operations;
  module_use_count : Z;
  brk : ptr;
  trace : list event
}.

(** *** Field updates *)

Definition set_fs_list (f : list ptr → list ptr) (s : state) : state :=
  {| fs_list := f (fs_list s); pfs_mem := pfs_mem s; pfo_mem := pfo_mem s;
     pio_mem := pio_mem s; sb_mem := sb_mem s; dentry_mem := dentry_mem s;
     inode_mem := inode_mem s; file_mem := file_mem s;
     proclikefs_null_super_operations := proclikefs_null_super_operations s;
     proclikefs_null_root_inode_operations := proclikefs_null_root_inode_operations s;
     module_use_count := module_use_count s; brk := brk s; trace := trace s |}.

Definition set_pfs_mem (f : gmap ptr proclikefs_file_system → gmap ptr proclikefs_file_system)
    (s : state) : state :=
  {| fs_list := fs_list s; pfs_mem := f (pfs_mem s); pfo_mem := pfo_mem s;
     pio_mem := pio_mem s; sb_mem := sb_mem s; dentry_mem := dentry_mem s;
     inode_mem := inode_mem s; file_mem := file_mem s;
     proclikefs_null_super_operations := proclikefs_null_super_operations s;
     proclikefs_null_root_inode_operations := proclikefs_null_root_inode_operations s;
     module_use_count := module_use_count s; brk := brk s; trace := trace s |}.

Definition set_pfo_mem (f : gmap ptr file_operations → gmap ptr file_operations)
    (s : state) : state :=
  {| fs_list := fs_list s; pfs_mem := pfs_mem s; pfo_mem := f (pfo_mem s);
     pio_mem := pio_mem s; sb_mem := sb_mem s; dentry_mem := dentry_mem s;
     inode_mem := inode_mem s; file_mem := file_mem s;
     proclikefs_null_super_operations := proclikefs_null_super_operations s;
     proclikefs_null_root_inode_operations := proclikefs_null_root_inode_operations s;
     module_use_count := module_use_count s; brk := brk s; trace := trace s |}.

Definition set_pio_mem (f : gmap ptr inode_operations → gmap ptr inode_operations)
    (s : state) : state :=
  {| fs_list := fs_list s; pfs_mem := pfs_mem s; pfo_mem := pfo_mem s;
     pio_mem := f (pio_mem s); sb_mem := sb_mem s; dentry_mem := dentry_mem s;
     inode_mem := inode_mem s; file_mem := file_mem s;
     proclikefs_null_super_operations := proclikefs_null_super_operations s;
     proclikefs_null_root_inode_operations := proclikefs_null_root_inode_operations s;
     module_use_count := module_use_count s; brk := brk s; trace := trace s |}.

Definition set_sb_mem (f : gmap ptr super_block → gmap ptr super_block)
    (s : state) : state :=
  {| fs_list := fs_list s; pfs_mem := pfs_mem s; pfo_mem := pfo_mem s;
     pio_mem := pio_mem s; sb_mem := f (sb_mem s); dentry_mem := dentry_mem s;
     inode_mem := inode_mem s; file_mem := file_mem s;
     proclikefs_null_super_operations := proclikefs_null_super_operations s;
     proclikefs_null_root_inode_operations := proclikefs_null_root_inode_operations s;
     module_use_count := module_use_count s; brk := brk s; trace := trace s |}.

Definition set_dentry_mem (f : gmap ptr dentry → gmap ptr dentry)
    (s : state) : state :=
  {| fs_list := fs_list s; pfs_mem := pfs_mem s; pfo_mem := pfo_mem s;
     pio_mem := pio_mem s; sb_mem := sb_mem s; dentry_mem := f (dentry_mem s);
     inode_mem := inode_mem s; file_mem := file_mem s;
     proclikefs_null_super_operations := proclikefs_null_super_operations s;
     proclikefs_null_root_inode_operations := proclikefs_null_root_inode_operations s;
     module_use_count := module_use_count s; brk := brk s; trace := trace s |}.

Definition set_inode_mem (f : gmap ptr inode → gmap ptr inode)
    (s : state) : state :=
  {| fs_list := fs_list s; pfs_mem := pfs_mem s; pfo_mem := pfo_mem s;
     pio_mem := pio_mem s; sb_mem := sb_mem s; dentry_mem := dentry_mem s;
     inode_mem := f (inode_mem s); file_mem := file_mem s;
     proclikefs_null_super_operations := proclikefs_null_super_operations s;
     proclikefs_null_root_inode_operations := proclikefs_null_root_inode_operations s;
     module_use_count := module_use_count s; brk := brk s; trace := trace s |}.

Definition set_file_mem (f : gmap ptr file → gmap ptr file)
    (s : state) : state :=
  {| fs_list := fs_list s; pfs_mem := pfs_mem s; pfo_mem := pfo_mem s;
     pio_mem := pio_mem s; sb_mem := sb_mem s; dentry_mem := dentry_mem s;
     inode_mem := inode_mem s; file_mem := f (file_mem s);
     proclikefs_null_super_operations := proclikefs_null_super_operations s;
     proclikefs_null_root_inode_operations := proclikefs_null_root_inode_operations s;
     module_use_count := module_use_count s; brk := brk s; trace := trace s |}.

Definition set_static_tables (so : super_operations) (io : inode_operations)
    (s : state) : state :=
  {| fs_list := fs_list s; pfs_mem := pfs_mem s; pfo_mem := pfo_mem s;
     pio_mem := pio_mem s; sb_mem := sb_mem s; dentry_mem := dentry_mem s;
     inode_mem := inode_mem s; file_mem := file_mem s;
     proclikefs_null_super_operations := so;
     proclikefs_null_root_inode_operations := io;
     module_use_count := module_use_count s; brk := brk s; trace := trace s |}.

Definition set_module_use_count (f : Z → Z) (s : state) : state :=
  {| fs_list := fs_list s; pfs_mem := pfs_mem s; pfo_mem := pfo_mem s;
     pio_mem := pio_mem s; sb_mem := sb_mem s; dentry_mem := dentry_mem s;
     inode_mem := inode_mem s; file_mem := file_mem s;
     proclikefs_null_super_operations := proclikefs_null_super_operations s;
     proclikefs_null_root_inode_operations := proclikefs_null_root_inode_operations s;
     module_use_count := f (module_use_count s); brk := brk s; trace := trace s |}.

Definition set_brk (f : ptr → ptr) (s : state) : state :=
  {| fs_list := fs_list s; pfs_mem := pfs_mem s; pfo_mem := pfo_mem s;
     pio_mem := pio_mem s; sb_mem := sb_mem s; dentry_mem := dentry_mem s;
     inode_mem := inode_mem s; file_mem := file_mem s;
     proclikefs_null_super_operations := proclikefs_null_super_operations s;
     proclikefs_null_root_inode_operations := proclikefs_null_root_inode_operations s;
     module_use_count := module_use_count s; brk := f (brk s); trace := trace s |}.

(** Append one event to the trace. *)
Definition emit (e : event) (s : state) : state :=
  {| fs_list := fs_list s; pfs_mem := pfs_mem s; pfo_mem := pfo_mem s;
     pio_mem := pio_mem s; sb_mem := sb_mem s; dentry_mem := dentry_mem s;
     inode_mem := inode_mem s; file_mem := file_mem s;
     proclikefs_null_super_operations := proclikefs_null_super_operations s;
     proclikefs_null_root_inode_operations := proclikefs_null_root_inode_operations s;
     module_use_count := module_use_count s; brk := brk s;
     trace := trace s ++ [e] |}.

Definition set_live (v : Z) (fs : proclikefs_file_system) : proclikefs_file_system :=
  {| name := name fs; fs_flags := fs_flags fs; fs_get_sb := fs_get_sb fs;
     fs_supers := fs_supers fs; nsuper := nsuper fs; live := v;
     pfs_pfo := pfs_pfo fs; pfs_pio := pfs_pio fs |}.

Definition set_nsuper (v : Z) (fs : proclikefs_file_system) : proclikefs_file_system :=
  {| name := name fs; fs_flags := fs_flags fs; fs_get_sb := fs_get_sb fs;
     fs_supers := fs_supers fs; nsuper := v; live := live fs;
     pfs_pfo := pfs_pfo fs; pfs_pio := pfs_pio fs |}.

Definition set_pfs_pfo (v : list ptr) (fs : proclikefs_file_system) : proclikefs_file_system :=
  {| name := name fs; fs_flags := fs_flags fs; fs_get_sb := fs_get_sb fs;
     fs_supers := fs_supers fs; nsuper := nsuper fs; live := live fs;
     pfs_pfo := v; pfs_pio := pfs_pio fs |}.

Definition set_pfs_pio (v : list ptr) (fs : proclikefs_file_system) : proclikefs_file_system :=
  {| name := name fs; fs_flags := fs_flags fs; fs_get_sb := fs_get_sb fs;
     fs_supers := fs_supers fs; nsuper := nsuper fs; live := live fs;
     pfs_pfo := pfs_pfo fs; pfs_pio := v |}.

Definition set_fs_supers (v : list ptr) (fs : proclikefs_file_system) : proclikefs_file_system :=
  {| name := name fs; fs_flags := fs_flags fs; fs_get_sb := fs_get_sb fs;
     fs_supers := v; nsuper := nsuper fs; live := live fs;
     pfs_pfo := pfs_pfo fs; pfs_pio := pfs_pio fs |}.

(** [newfs->fs.fs_flags = fs_flags; newfs->fs.get_sb = get_sb;
     newfs->fs.kill_sb = kill_anon_super; newfs->live = 1;]
    ([kill_sb] only ever holds [kill_anon_super] and is left out.) *)
Definition set_registered (flags : Z) (get_sb : nat) (fs : proclikefs_file_system)
    : proclikefs_file_system :=
  {| name := name fs; fs_flags := flags; fs_get_sb := get_sb;
     fs_supers := fs_supers fs; nsuper := nsuper fs; live := 1;
     pfs_pfo := pfs_pfo fs; pfs_pio := pfs_pio fs |}.

(** ** Kernel primitives *)

(** [atomic_t] holds a 32-bit [int]; increments and decrements wrap. *)
Definition wrap_int (z : Z) : Z := ((z + 2 ^ 31) `mod` 2 ^ 32 - 2 ^ 31)%Z.
Definition atomic_inc (v : Z) : Z := wrap_int (v + 1).
Definition atomic_dec (v : Z) : Z := wrap_int (v - 1).

(** [try_module_get(THIS_MODULE)] on success and [MOD_DEC_USE_COUNT]. *)
Definition module_get (s : state) : state := set_module_use_count (λ c, c + 1)%Z s.
Definition MOD_DEC_USE_COUNT (s : state) : state := set_module_use_count (λ c, c - 1)%Z s.

Definition printk (msg : string) (s : state) : state := emit (Ev_printk msg) s.

(** [kmalloc(.., GFP_ATOMIC)]: fails when [ok] is false, otherwise hands
    out the address [brk], which was never handed out before. *)
Definition kmalloc (ok : bool) (k : kind) (s : state) : option ptr * state :=
  if ok then (Some (brk s), emit (Ev_kmalloc k (brk s)) (set_brk Pos.succ s))
  else (None, s).

(** What the caller cannot control: whether [try_module_get] and
    [kmalloc] succeed, and what [register_filesystem] returns. *)
Record oracle := {
  try_module_get_ok : bool;
  kmalloc_ok : bool;
  register_filesystem_err : Z
}.

(** ** Module load *)

(** The machine before [init_module]: statics zeroed, nothing allocated. *)
Definition boot : state :=
  {| fs_list := []; pfs_mem := ∅; pfo_mem := ∅; pio_mem := ∅; sb_mem := ∅;
     dentry_mem := ∅; inode_mem := ∅; file_mem := ∅;
     proclikefs_null_super_operations :=
       {| so_read_inode := fn_NULL; so_put_super := fn_NULL |};
     proclikefs_null_root_inode_operations := zero_inode_operations;
     module_use_count := 0; brk := 1%positive; trace := [] |}.

Definition init_module (s : state) : state :=
  set_static_tables
    {| so_read_inode := fn_read_inode; so_put_super := fn_put_super |}
    (io_set IO_lookup fn_null_root_lookup (proclikefs_null_root_inode_operations s))
    s.

(** ** proclikefs_register_filesystem *)

(** Outcome of the [for] loop over [fs_list]: either the function
    returned from inside the loop, or the loop was left (by [break] or by
    running off the end) with [newfs] holding some value. *)
Inductive scan :=
  | Scan_active
  | Scan_left (newfs : option ptr).

(** [newfs] is assigned at the top of every iteration, and tested only
    after the loop. *)
Fixpoint register_scan (mem : gmap ptr proclikefs_file_system) (nm : string)
    (l : list ptr) (newfs : option ptr) : option scan :=
  match l with
  | [] => Some (Scan_left newfs)
  | next :: rest =>
      fs ← mem !! next;
      if decide (nm = name fs) then
        if (0 <? live fs)%Z then Some Scan_active
        else Some (Scan_left (Some next))
      else register_scan mem nm rest (Some next)
  end.

(** A block fresh from [kmalloc], after the stores that follow
    [if (!newfs)]; the fields assigned later hold placeholders. *)
Definition fresh_file_system (nm : string) : proclikefs_file_system :=
  {| name := nm; fs_flags := 0; fs_get_sb := 0%nat; fs_supers := [];
     nsuper := 0; live := 0; pfs_pfo := []; pfs_pio := [] |}.

(** The tail of the function, from [newfs->fs.fs_flags = fs_flags] on. *)
Definition register_finish (o : oracle) (flags : Z) (get_sb : nat)
    (newfs : ptr) (newfs_is_new : bool) (s : state) : option (option ptr * state) :=
  fs ← pfs_mem s !! newfs;
  let s := set_pfs_mem <[newfs := set_registered flags get_sb fs]> s in
  let s :=
    if newfs_is_new then
      let s := emit (Ev_register_filesystem newfs) s in
      if decide (register_filesystem_err o = 0) then s
      else printk "<1>proclikefs: error %d while initializing pfs[%p] (%s)" s
    else s in
  Some (Some newfs, s).

Definition proclikefs_register_filesystem (o : oracle) (nm : option string)
    (flags : Z) (get_sb : nat) (s : state) : option (option ptr * state) :=
  match nm with
  | None => Some (None, s)
  | Some nm =>
      if try_module_get_ok o then
        let s := module_get s in
        r ← register_scan (pfs_mem s) nm (fs_list s) None;
        match r with
        | Scan_active => Some (None, MOD_DEC_USE_COUNT s)
        | Scan_left (Some newfs) => register_finish o flags get_sb newfs false s
        | Scan_left None =>
            match kmalloc (kmalloc_ok o) K_pfs s with
            | (None, s) => Some (None, MOD_DEC_USE_COUNT s)
            | (Some newfs, s) =>
                let s := set_pfs_mem <[newfs := fresh_file_system nm]> s in
                let s := set_fs_list (cons newfs) s in
                register_finish o flags get_sb newfs true s
            end
        end
      else Some (None, printk "<1>proclikefs: error using module" s)
  end.

(** ** proclikefs_reinitialize_supers *)

Fixpoint reinitialize_loop (pfs : ptr) (reread_super : nat) (l : list ptr)
    (s : state) : option state :=
  match l with
  | [] => Some s
  | p :: rest =>
      sb ← sb_mem s !! p;
      reinitialize_loop pfs reread_super rest
        (if decide (s_type sb = pfs) then emit (Ev_reread_super reread_super p) s
         else printk "<1>proclikefs: confusion" s)
  end.

Definition proclikefs_reinitialize_supers (pfs : ptr) (reread_super : nat)
    (s : state) : option state :=
  fs ← pfs_mem s !! pfs;
  reinitialize_loop pfs reread_super (fs_supers fs) s.

(** ** proclikefs_kill_super *)

(** [filp->f_op = dummy] for every file on [sb->s_files]. *)
Fixpoint kill_files (l : list ptr) (dummy : option ptr) (s : state) : option state :=
  match l with
  | [] => Some s
  | p :: rest =>
      _ ← file_mem s !! p;
      kill_files rest dummy (set_file_mem <[p := {| f_op := dummy |}]> s)
  end.

Definition set_d_op (v : option nat) (d : dentry) : dentry :=
  {| d_op := v; d_fsdata := d_fsdata d; d_subdirs := d_subdirs d;
     d_inode := d_inode d; d_unhashed := d_unhashed d |}.

Definition set_d_fsdata (v : option ptr) (d : dentry) : dentry :=
  {| d_op := d_op d; d_fsdata := v; d_subdirs := d_subdirs d;
     d_inode := d_inode d; d_unhashed := d_unhashed d |}.

(** [d_drop] takes the dentry out of the name hash. *)
Definition set_d_unhashed (d : dentry) : dentry :=
  {| d_op := d_op d; d_fsdata := d_fsdata d; d_subdirs := d_subdirs d;
     d_inode := d_inode d; d_unhashed := true |}.

Definition d_drop (child : ptr) (s : state) : option state :=
  c ← dentry_mem s !! child;
  Some (emit (Ev_d_drop child) (set_dentry_mem <[child := set_d_unhashed c]> s)).

(** The inner [while (next != &active->d_subdirs)] loop: each child is
    dropped and pushed in front of [dentry_tree] through its [d_fsdata]. *)
Fixpoint prepend_children (kids : list ptr) (dentry_tree : option ptr)
    (s : state) : option (option ptr * state) :=
  match kids with
  | [] => Some (dentry_tree, s)
  | child :: next =>
      s ← d_drop child s;
      c ← dentry_mem s !! child;
      prepend_children next (Some child)
        (set_dentry_mem <[child := set_d_fsdata dentry_tree c]> s)
  end.

(** The outer [while (dentry_tree)] loop.  [fuel] bounds the number of
    iterations; running out of it is reported as [None]. *)
Fixpoint kill_dentries (fuel : nat) (dentry_tree : option ptr) (s : state)
    : option state :=
  match dentry_tree with
  | None => Some s
  | Some active =>
      match fuel with
      | O => None
      | S fuel =>
          a ← dentry_mem s !! active;
          let s := emit (Ev_visit active)
                     (set_dentry_mem <[active := set_d_op None a]> s) in
          '(dentry_tree, s) ← prepend_children (d_subdirs a) (d_fsdata a) s;
          kill_dentries fuel dentry_tree s
      end
  end.

Definition set_s_op (v : s_op_ptr) (sb : super_block) : super_block :=
  {| s_type := s_type sb; s_files := s_files sb; s_op := v; s_root := s_root sb |}.

Definition proclikefs_kill_super (fuel : nat) (sb : ptr) (dummy : option ptr)
    (s : state) : option state :=
  sbr ← sb_mem s !! sb;
  s ← kill_files (s_files sbr) dummy s;
  let s := set_sb_mem <[sb := set_s_op sop_proclikefs_null sbr]> s in
  s ← match s_root sbr with
      | Some root =>
          r ← dentry_mem s !! root;
          Some (set_dentry_mem <[root := set_d_fsdata None r]> s)
      | None => Some s
      end;
  s ← kill_dentries fuel (s_root sbr) s;
  (* sb->s_root->d_inode->i_op = &proclikefs_null_root_inode_operations *)
  root ← s_root sbr;
  r ← dentry_mem s !! root;
  ino ← d_inode r;
  _ ← inode_mem s !! ino;
  Some (set_inode_mem <[ino := {| i_op := iop_proclikefs_null_root |}]> s).

(** ** proclikefs_unregister_filesystem *)

Fixpoint clear_pfo (l : list ptr) (s : state) : option state :=
  match l with
  | [] => Some s
  | pfo :: pfo_next =>
      fo ← pfo_mem s !! pfo;
      clear_pfo pfo_next (set_pfo_mem <[pfo := clear_file_operations fo]> s)
  end.

Fixpoint clear_pio (l : list ptr) (s : state) : option state :=
  match l with
  | [] => Some s
  | pio :: pio_next =>
      io ← pio_mem s !! pio;
      clear_pio pio_next (set_pio_mem <[pio := clear_inode_operations io]> s)
  end.

Fixpoint kill_supers (fuel : nat) (l : list ptr) (dummy : option ptr)
    (s : state) : option state :=
  match l with
  | [] => Some s
  | sb :: rest =>
      s ← proclikefs_kill_super fuel sb dummy s;
      kill_supers fuel rest dummy s
  end.

Definition proclikefs_unregister_filesystem (fuel : nat) (pfs : option ptr)
    (s : state) : option state :=
  match pfs with
  | None => Some s
  | Some pfs =>
      fs ← pfs_mem s !! pfs;
      s ← clear_pfo (pfs_pfo fs) s;
      s ← clear_pio (pfs_pio fs) s;
      (* &pfs->pfs_pfo->pfo_op: the first table of the chain, if any *)
      s ← kill_supers fuel (fs_supers fs) (head (pfs_pfo fs)) s;
      fs ← pfs_mem s !! pfs;
      Some (MOD_DEC_USE_COUNT (set_pfs_mem <[pfs := set_live 0 fs]> s))
  end.

(** ** proclikefs_read_super and proclikefs_put_super *)

Definition proclikefs_read_super (try_ok : bool) (sb : ptr) (s : state)
    : option state :=
  sbr ← sb_mem s !! sb;
  let pfs := s_type sbr in
  fs ← pfs_mem s !! pfs;
  let s := set_pfs_mem <[pfs := set_nsuper (atomic_inc (nsuper fs)) fs]> s in
  Some (if try_ok then module_get s
        else printk "<1>proclikefs: error using module" s).

(** [kfree] of every block on a chain, front to back. *)
Fixpoint free_pfo (l : list ptr) (s : state) : option state :=
  match l with
  | [] => Some s
  | pfo :: pfo_next =>
      _ ← pfo_mem s !! pfo;
      free_pfo pfo_next (emit (Ev_kfree K_pfo pfo) (set_pfo_mem (delete pfo) s))
  end.

Fixpoint free_pio (l : list ptr) (s : state) : option state :=
  match l with
  | [] => Some s
  | pio :: pio_next =>
      _ ← pio_mem s !! pio;
      free_pio pio_next (emit (Ev_kfree K_pio pio) (set_pio_mem (delete pio) s))
  end.

(** [list_del(&pfs->fs_list)] *)
Definition list_del (p : ptr) (l : list ptr) : list ptr :=
  filter (λ q, q ≠ p) l.

Definition proclikefs_put_super (sb : ptr) (s : state) : option state :=
  sbr ← sb_mem s !! sb;
  let pfs := s_type sbr in
  fs ← pfs_mem s !! pfs;
  let fs := set_nsuper (atomic_dec (nsuper fs)) fs in
  let s := MOD_DEC_USE_COUNT (set_pfs_mem <[pfs := fs]> s) in
  if decide (live fs = 0 ∧ nsuper fs = 0) then
    let s := set_fs_list (list_del pfs) s in
    let s := emit (Ev_unregister_filesystem pfs) s in
    s ← free_pfo (pfs_pfo fs) s;
    s ← free_pio (pfs_pio fs) s;
    Some (emit (Ev_kfree K_pfs pfs) (set_pfs_mem (delete pfs) s))
  else Some s.

(** ** proclikefs_new_file_operations, proclikefs_new_inode_operations *)

Definition proclikefs_new_file_operations (ok : bool) (pfs : ptr) (s : state)
    : option (option ptr * state) :=
  match kmalloc ok K_pfo s with
  | (Some pfo, s) =>
      fs ← pfs_mem s !! pfs;
      let s := set_pfs_mem <[pfs := set_pfs_pfo (pfo :: pfs_pfo fs) fs]> s in
      Some (Some pfo, set_pfo_mem <[pfo := zero_file_operations]> s)
  | (None, s) => Some (None, s)
  end.

Definition proclikefs_new_inode_operations (ok : bool) (pfs : ptr) (s : state)
    : option (option ptr * state) :=
  match kmalloc ok K_pio s with
  | (Some pio, s) =>
      fs ← pfs_mem s !! pfs;
      let s := set_pfs_mem <[pfs := set_pfs_pio (pio :: pfs_pio fs) fs]> s in
      Some (Some pio, set_pio_mem <[pio := zero_inode_operations]> s)
  | (None, s) => Some (None, s)
  end.

(** ** The hosting kernel and the driver

    These steps belong to the surroundings of [proclikefs.c]; they are
    here so that runs of the interface have superblocks to work on. *)

(** Mounting: [sget] makes a superblock of type [pfs] and links it on
    [fs.fs_supers]; the driver's [get_sb] callback gives it a root
    dentry with an inode. *)
Definition env_mount (pfs : ptr) (s : state) : option state :=
  fs ← pfs_mem s !! pfs;
  let sb := brk s in
  let root := Pos.succ sb in
  let ino := Pos.succ root in
  let s := set_brk (λ _, Pos.succ ino) s in
  let s := set_sb_mem <[sb := {| s_type := pfs; s_files := [];
                                 s_op := sop_driver 0; s_root := Some root |}]> s in
  let s := set_dentry_mem <[root := {| d_op := Some 0%nat; d_fsdata := None;
                                       d_subdirs := []; d_inode := Some ino;
                                       d_unhashed := false |}]> s in
  let s := set_inode_mem <[ino := {| i_op := iop_NULL |}]> s in
  Some (set_pfs_mem <[pfs := set_fs_supers (fs_supers fs ++ [sb]) fs]> s).

(** [d_alloc]: a new dentry becomes the first child of [parent]. *)
Definition env_d_alloc (parent : ptr) (s : state) : option state :=
  d ← dentry_mem s !! parent;
  let child := brk s in
  let s := set_brk Pos.succ s in
  let s := set_dentry_mem <[child := {| d_op := Some 0%nat; d_fsdata := None;
                                        d_subdirs := []; d_inode := None;
                                        d_unhashed := false |}]> s in
  Some (set_dentry_mem
          <[parent := {| d_op := d_op d; d_fsdata := d_fsdata d;
                         d_subdirs := child :: d_subdirs d;
                         d_inode := d_inode d; d_unhashed := d_unhashed d |}]> s).

(** The driver stores an entry point into a table it was handed. *)
Definition drv_fo_store (pfo : ptr) (k : fo_slot) (v : fn_ptr) (s : state)
    : option state :=
  fo ← pfo_mem s !! pfo;
  Some (set_pfo_mem <[pfo := fo_set k v fo]> s).

Definition drv_io_store (pio : ptr) (k : io_slot) (v : fn_ptr) (s : state)
    : option state :=
  io ← pio_mem s !! pio;
  Some (set_pio_mem <[pio := io_set k v io]> s).

(** ** Runs of the interface *)

Inductive call :=
  | Call_register (o : oracle) (nm : option string) (flags : Z) (get_sb : nat)
  | Call_unregister (fuel : nat) (pfs : option ptr)
  | Call_reinitialize_supers (pfs : ptr) (reread_super : nat)
  | Call_new_file_operations (ok : bool) (pfs : ptr)
  | Call_new_inode_operations (ok : bool) (pfs : ptr)
  | Call_read_super (try_ok : bool) (sb : ptr)
  | Call_put_super (sb : ptr)
  | Drv_fo_store (pfo : ptr) (k : fo_slot) (v : fn_ptr)
  | Drv_io_store (pio : ptr) (k : io_slot) (v : fn_ptr)
  | Env_mount (pfs : ptr)
  | Env_d_alloc (parent : ptr).

Definition step (c : call) (s : state) : option state :=
  match c with
  | Call_register o nm flags get_sb =>
      snd <$> proclikefs_register_filesystem o nm flags get_sb s
  | Call_unregister fuel pfs => proclikefs_unregister_filesystem fuel pfs s
  | Call_reinitialize_supers pfs cb => proclikefs_reinitialize_supers pfs cb s
  | Call_new_file_operations ok pfs =>
      snd <$> proclikefs_new_file_operations ok pfs s
  | Call_new_inode_operations ok pfs =>
      snd <$> proclikefs_new_inode_operations ok pfs s
  | Call_read_super try_ok sb => proclikefs_read_super try_ok sb s
  | Call_put_super sb => proclikefs_put_super sb s
  | Drv_fo_store pfo k v => drv_fo_store pfo k v s
  | Drv_io_store pio k v => drv_io_store pio k v s
  | Env_mount pfs => env_mount pfs s
  | Env_d_alloc parent => env_d_alloc parent s
  end.

Fixpoint run (cs : list call) (s : state) : option state :=
  match cs with
  | [] => Some s
  | c :: cs => s ← step c s; run cs s
  end.

(** Everything succeeds and [register_filesystem] reports no error. *)
Definition all_ok : oracle :=
  {| try_module_get_ok := true; kmalloc_ok := true; register_filesystem_err := 0 |}.

(** ** What the trace says about memory *)

Definition tables_allocated (tr : list event) : list ptr :=
  omap (λ e, match e with
             | Ev_kmalloc K_pfo p | Ev_kmalloc K_pio p => Some p
             | _ => None
             end) tr.

Definition tables_freed (tr : list event) : list ptr :=
  omap (λ e, match e with
             | Ev_kfree K_pfo p | Ev_kfree K_pio p => Some p
             | _ => None
             end) tr.

Definition is_kfree (e : event) : bool :=
  match e with Ev_kfree _ _ => true | _ => false end.

Definition is_printk (e : event) : bool :=
  match e with Ev_printk _ => true | _ => false end.

Definition visited (tr : list event) : list ptr :=
  omap (λ e, match e with Ev_visit p => Some p | _ => None end) tr.

Definition dropped (tr : list event) : list ptr :=
  omap (λ e, match e with Ev_d_drop p => Some p | _ => None end) tr.

(** Number of times [x] occurs in [l]. *)
Definition occurrences `{EqDecision A} (x : A) (l : list A) : nat :=
  length (filter (λ y, y = x) l).

(** ** Well-formedness of the registry *)

(** Every block on [fs_list] is allocated. *)
Definition registry_allocated (s : state) : Prop :=
  Forall (λ p, is_Some (pfs_mem s !! p)) (fs_list s).

Definition names_of (mem : gmap ptr proclikefs_file_system) (l : list ptr)
    : list string :=
  omap (λ p, name <$> mem !! p) l.

(** No two blocks on [fs_list] carry the same name. *)
Definition names_unique (s : state) : Prop :=
  NoDup (names_of (pfs_mem s) (fs_list s)).

(** [nsuper] holds a value of type [int]. *)
Definition int_range (z : Z) : Prop := - 2 ^ 31 ≤ z < 2 ^ 31.

(** ** Comparing states up to some of their parts *)

Definition set_trace (f : list event → list event) (s : state) : state :=
  {| fs_list := fs_list s; pfs_mem := pfs_mem s; pfo_mem := pfo_mem s;
     pio_mem := pio_mem s; sb_mem := sb_mem s; dentry_mem := dentry_mem s;
     inode_mem := inode_mem s; file_mem := file_mem s;
     proclikefs_null_super_operations := proclikefs_null_super_operations s;
     proclikefs_null_root_inode_operations := proclikefs_null_root_inode_operations s;
     module_use_count := module_use_count s; brk := brk s;
     trace := f (trace s) |}.

Definition forget_trace (s : state) : state := set_trace (λ _, []) s.

(** The state without its table heaps and trace. *)
Definition forget_tables (s : state) : state :=
  set_pfo_mem (λ _, ∅) (set_pio_mem (λ _, ∅) (forget_trace s)).

(** The state without what [proclikefs_kill_super] may touch: files,
    superblocks, dentries, inodes and the trace. *)
Definition forget_vfs (s : state) : state :=
  set_file_mem (λ _, ∅) (set_sb_mem (λ _, ∅) (set_dentry_mem (λ _, ∅)
    (set_inode_mem (λ _, ∅) (forget_trace s)))).

(** ** Statements about an unbalanced release *)

(** The call logged one message and changed nothing else. *)
Definition release_reported_and_ignored (s s' : state) : Prop :=
  (∃ msg, trace s' = trace s ++ [Ev_printk msg]) ∧
  forget_trace s' = forget_trace s.

(** A machine with one live file system ["a"], at address 1. *)
Definition registered_a : state :=
  default boot (snd <$> proclikefs_register_filesystem all_ok (Some "a") 0 7
                           (init_module boot)).

(** A machine with one live file system ["a"] at address 1, mounted once
    (superblock 2, root dentry 3, inode 4), whose mount was never
    announced through [proclikefs_read_super]. *)
Definition mounted_unannounced : option state :=
  run [Call_register all_ok (Some "a") 0 7; Env_mount 1] (init_module boot).

(** ** Dentry trees

    The kernel keeps the dentries of a superblock as a tree: every dentry
    is on the [d_subdirs] list of one parent.  A [dtree] names the
    addresses of such a tree. *)

#[warnings="-register-all"]
Inductive dtree := DNode (a : ptr) (kids : list dtree).

Definition droot (t : dtree) : ptr := match t with DNode a _ => a end.
Definition dkids (t : dtree) : list dtree := match t with DNode _ kids => kids end.

(** Every node with the addresses of its children, in list order. *)
Fixpoint tree_edges (t : dtree) : list (ptr * list ptr) :=
  match t with
  | DNode a kids => (a, droot <$> kids) :: (kids ≫= tree_edges)
  end.

Definition forest_edges (ts : list dtree) : list (ptr * list ptr) :=
  ts ≫= tree_edges.

Definition forest_nodes (ts : list dtree) : list ptr := (forest_edges ts).*1.

(** The nodes that are not roots of the forest. *)
Definition forest_below (ts : list dtree) : list ptr :=
  ts ≫= (λ t, forest_nodes (dkids t)).

(** The memory holds the forest: each node is allocated and its
    [d_subdirs] lists exactly its children. *)
Definition forest_in (m : gmap ptr dentry) (ts : list dtree) : Prop :=
  ∀ a ks, (a, ks) ∈ forest_edges ts → d_subdirs <$> m !! a = Some ks.

(** [dentry_tree] heads a chain through [d_fsdata] that runs over
    exactly the addresses [stk]. *)
Fixpoint linked (m : gmap ptr dentry) (dentry_tree : option ptr)
    (stk : list ptr) : Prop :=
  match stk with
  | [] => dentry_tree = None
  | p :: stk => dentry_tree = Some p ∧
                ∃ d, m !! p = Some d ∧ linked m (d_fsdata d) stk
  end.

(** ** Patches

    What a run of stores does to one record, when every store writes a
    value that does not depend on what was there. *)

Class Patch (R P : Type) := {
  patch : P → R → R;
  patch_none : P;
  patch_seq : P → P → P      (* the first, then the second *)
}.

Record dentry_patch := {
  dp_op : bool;                        (* d_op = 0 *)
  dp_fsdata : option (option ptr);     (* d_fsdata = v *)
  dp_unhashed : bool                   (* d_drop *)
}.

Definition overwrite {R} (a : option R) (r : R) : R := default r a.
Definition overwrite_seq {R} (a b : option R) : option R :=
  match b with Some v => Some v | None => a end.

Definition dentry_patch_apply (a : dentry_patch) (d : dentry) : dentry :=
  {| d_op := if dp_op a then None else d_op d;
     d_fsdata := default (d_fsdata d) (dp_fsdata a);
     d_subdirs := d_subdirs d; d_inode := d_inode d;
     d_unhashed := dp_unhashed a || d_unhashed d |}.

Definition dentry_patch_seq (a b : dentry_patch) : dentry_patch :=
  {| dp_op := dp_op a || dp_op b;
     dp_fsdata := overwrite_seq (dp_fsdata a) (dp_fsdata b);
     dp_unhashed := dp_unhashed a || dp_unhashed b |}.

Global Instance dentry_Patch : Patch dentry dentry_patch :=
  {| patch := dentry_patch_apply;
     patch_none := {| dp_op := false; dp_fsdata := None; dp_unhashed := false |};
     patch_seq := dentry_patch_seq |}.

(** A record that is replaced as a whole. *)
Global Instance file_Patch : Patch file (option file) :=
  {| patch := overwrite; patch_none := None; patch_seq := overwrite_seq |}.

Global Instance inode_Patch : Patch inode (option inode) :=
  {| patch := overwrite; patch_none := None; patch_seq := overwrite_seq |}.

(** Records with one store that may or may not have happened. *)
Record once (R : Type) := Once { happened : bool }.
Arguments Once {R} _.
Arguments happened {R} _.

Definition once_apply {R} (f : R → R) (a : once R) (r : R) : R :=
  if happened a then f r else r.

Definition once_seq {R} (a b : once R) : once R :=
  Once (happened a || happened b).

Global Instance super_block_Patch : Patch super_block (once super_block) :=
  {| patch := once_apply (set_s_op sop_proclikefs_null);
     patch_none := Once false; patch_seq := once_seq |}.

Global Instance file_operations_Patch : Patch file_operations (once file_operations) :=
  {| patch := once_apply clear_file_operations;
     patch_none := Once false; patch_seq := once_seq |}.

Global Instance inode_operations_Patch : Patch inode_operations (once inode_operations) :=
  {| patch := once_apply clear_inode_operations;
     patch_none := Once false; patch_seq := once_seq |}.

(** Patches compose and are idempotent. *)
Class PatchLaws (R P : Type) `{Patch R P} := {
  patch_none_id (r : R) : patch patch_none r = r;
  patch_seq_eq (a b : P) (r : R) : patch (patch_seq a b) r = patch b (patch a r);
  patch_idem (a : P) (r : R) : patch a (patch a r) = patch a r
}.

(** [m'] is [m] with the record at each address [p] patched by [c p]. *)
Definition patched `{Patch R P} (c : ptr → P) (m m' : gmap ptr R) : Prop :=
  ∀ p, m' !! p = patch (c p) <$> m !! p.

Definition patch_at `{Patch R P} (q : ptr) (a : P) (p : ptr) : P :=
  if decide (p = q) then a else patch_none.

Definition patch_in `{Patch R P} (l : list ptr) (a : P) (p : ptr) : P :=
  if decide (p ∈ l) then a else patch_none.

Definition patch_both `{Patch R P} (c1 c2 : ptr → P) (p : ptr) : P :=
  patch_seq (c1 p) (c2 p).

(** ** The dentry walk, on the tree *)

Definition visit_patch : dentry_patch :=
  {| dp_op := true; dp_fsdata := None; dp_unhashed := false |}.

Definition push_patch (dentry_tree : option ptr) : dentry_patch :=
  {| dp_op := false; dp_fsdata := Some dentry_tree; dp_unhashed := true |}.

Definition root_patch : dentry_patch :=
  {| dp_op := false; dp_fsdata := Some None; dp_unhashed := false |}.

(** The inner loop over the children [kids], seen from address [p]. *)
Fixpoint push_patches (kids : list ptr) (dentry_tree : option ptr) (p : ptr)
    : dentry_patch :=
  match kids with
  | [] => patch_none
  | child :: next =>
      patch_seq (patch_at child (push_patch dentry_tree) p)
                (push_patches next (Some child) p)
  end.

(** The outer loop working off a stack of subtrees [ts]: the top tree
    loses its root, and its children go on top in reverse. *)
Fixpoint walk_patch (n : nat) (ts : list dtree) (p : ptr) : dentry_patch :=
  match n, ts with
  | S n, DNode a kids :: rest =>
      patch_seq (patch_at a visit_patch p)
        (patch_seq (push_patches (droot <$> kids) (head (droot <$> rest)) p)
                   (walk_patch n (reverse kids ++ rest) p))
  | _, _ => patch_none
  end.

Fixpoint walk_events (n : nat) (ts : list dtree) : list event :=
  match n, ts with
  | S n, DNode a kids :: rest =>
      Ev_visit a :: (Ev_d_drop <$> (droot <$> kids))
        ++ walk_events n (reverse kids ++ rest)
  | _, _ => []
  end.

(** The events of the walk: it calls nothing but [d_drop]. *)
Definition walk_event (e : event) : Prop :=
  match e with Ev_visit _ | Ev_d_drop _ => True | _ => False end.

(** ** Shapes

    What [proclikefs_kill_super] reads but never writes. *)

Definition sb_shape (sb : super_block) : ptr * list ptr * option ptr :=
  (s_type sb, s_files sb, s_root sb).

Definition dentry_shape (d : dentry) : list ptr * option ptr :=
  (d_subdirs d, d_inode d).

Record vfs_shape := {
  sh_sb : gmap ptr (ptr * list ptr * option ptr);
  sh_dentry : gmap ptr (list ptr * option ptr);
  sh_inode : gset ptr;
  sh_file : gset ptr
}.

Definition shape_of (s : state) : vfs_shape :=
  {| sh_sb := sb_shape <$> sb_mem s;
     sh_dentry := dentry_shape <$> dentry_mem s;
     sh_inode := dom (inode_mem s);
     sh_file := dom (file_mem s) |}.

(** Superblock [sb] has the open files [files], all allocated, and the
    dentry tree [t], whose root carries the allocated inode [ino]. *)
Definition super_at (sh : vfs_shape) (sb : ptr) (t : dtree) (files : list ptr)
    (ino : ptr) : Prop :=
  (∃ ty, sh_sb sh !! sb = Some (ty, files, Some (droot t))) ∧
  Forall (λ f, f ∈ sh_file sh) files ∧
  NoDup (forest_nodes [t]) ∧
  (∀ a ks, (a, ks) ∈ forest_edges [t] → fst <$> sh_dentry sh !! a = Some ks) ∧
  snd <$> sh_dentry sh !! droot t = Some (Some ino) ∧
  ino ∈ sh_inode sh.

(** Superblock [sb] is well formed, and [fuel] covers its tree. *)
Definition super_ok (fuel : nat) (sh : vfs_shape) (sb : ptr) : Prop :=
  ∃ t files ino, super_at sh sb t files ino ∧
                 (length (forest_nodes [t]) ≤ fuel)%nat.

(** What one call of [proclikefs_kill_super] does, address by address. *)
Record vfs_patches := {
  c_file : ptr → option file;
  c_sb : ptr → once super_block;
  c_dentry : ptr → dentry_patch;
  c_inode : ptr → option inode
}.

Definition patched_vfs (c : vfs_patches) (s s' : state) : Prop :=
  patched (c_file c) (file_mem s) (file_mem s') ∧
  patched (c_sb c) (sb_mem s) (sb_mem s') ∧
  patched (c_dentry c) (dentry_mem s) (dentry_mem s') ∧
  patched (c_inode c) (inode_mem s) (inode_mem s') ∧
  forget_vfs s' = forget_vfs s.

Definition kill_super_patches (fuel : nat) (sb : ptr) (t : dtree)
    (files : list ptr) (ino : ptr) (dummy : option ptr) : vfs_patches :=
  {| c_file := patch_in files (Some {| f_op := dummy |});
     c_sb := patch_at sb (Once true);
     c_dentry := patch_both (patch_at (droot t) root_patch) (walk_patch fuel [t]);
     c_inode := patch_at ino (Some {| i_op := iop_proclikefs_null_root |}) |}.

Definition vfs_patches_seq (c1 c2 : vfs_patches) : vfs_patches :=
  {| c_file := patch_both (c_file c1) (c_file c2);
     c_sb := patch_both (c_sb c1) (c_sb c2);
     c_dentry := patch_both (c_dentry c1) (c_dentry c2);
     c_inode := patch_both (c_inode c1) (c_inode c2) |}.

Definition vfs_patches_none : vfs_patches :=
  {| c_file := λ _, patch_none; c_sb := λ _, patch_none;
     c_dentry := λ _, patch_none; c_inode := λ _, patch_none |}.

(** The state without its dentries and trace. *)
Definition forget_dentries (s : state) : state :=
  set_dentry_mem (λ _, ∅) (forget_trace s).

(** ** When unregister is defined *)

(** The block [pfs] is allocated and holds [fs], both of its table
    chains are allocated, and every superblock on [fs.fs_supers] is well
    formed with a tree that [fuel] covers. *)
Definition unregister_ready (fuel : nat) (s : state) (pfs : ptr)
    (fs : proclikefs_file_system) : Prop :=
  pfs_mem s !! pfs = Some fs ∧
  Forall (λ t, is_Some (pfo_mem s !! t)) (pfs_pfo fs) ∧
  Forall (λ t, is_Some (pio_mem s !! t)) (pfs_pio fs) ∧
  Forall (super_ok fuel (shape_of s)) (fs_supers fs).

(** The state [proclikefs_unregister_filesystem] leaves, apart from
    what [proclikefs_kill_super] does to it. *)
Definition unregistered (pfs : ptr) (fs : proclikefs_file_system)
    (mo : gmap ptr file_operations) (mi : gmap ptr inode_operations)
    (s : state) : state :=
  MOD_DEC_USE_COUNT
    (set_pfs_mem <[pfs := set_live 0 fs]>
       (set_pio_mem (λ _, mi) (set_pfo_mem (λ _, mo) s))).

(** ** Statements about the walk *)

(** The claim in the spec's words: a dentry that has been detached from
    its parent is on no [d_subdirs] list. *)
Definition detached (m : gmap ptr dentry) (p : ptr) : Prop :=
  ∀ a d, m !! a = Some d → p ∉ d_subdirs d.

(** ** Statements about poisoned tables *)



(** What the two loops leave in a slot, given the table [fo0] or [io0]
    they started from. *)
Definition fo_poisoned (fo0 : file_operations) (k : fo_slot) : fn_ptr :=
  match k with
  | FO_other _ => fo_get k fo0
  | _ => fn_return_EIO
  end.

Definition io_poisoned (io0 : inode_operations) (k : io_slot) : fn_ptr :=
  match k with
  | IO_follow_link => fn_NULL
  | IO_other _ => io_get k io0
  | _ => fn_return_EIO
  end.


(** ** A machine in use

    File system ["a"] (address 1) is live and has one table of each kind
    (addresses 2 and 3), each with one entry set by the driver.  It is
    mounted once: superblock 4, root dentry 5 with inode 6; below the
    root are the dentries 8 and 7, and below 7 the dentry 9.  The mount
    was announced through [proclikefs_read_super]. *)
Definition busy_calls : list call :=
  [Call_register all_ok (Some "a") 0 7;
   Call_new_file_operations true 1;
   Call_new_inode_operations true 1;
   Drv_fo_store 2 FO_read (fn_driver 0);
   Drv_io_store 3 IO_lookup (fn_driver 1);
   Env_mount 1;
   Env_d_alloc 5; Env_d_alloc 5; Env_d_alloc 7;
   Call_read_super true 4].

Definition busy : state := default boot (run busy_calls (init_module boot)).

Definition busy_fs : proclikefs_file_system :=
  {| name := "a"; fs_flags := 0; fs_get_sb := 7; fs_supers := [4%positive];
     nsuper := 1; live := 1; pfs_pfo := [2%positive]; pfs_pio := [3%positive] |}.

Definition busy_tree : dtree :=
  DNode 5 [DNode 8 []; DNode 7 [DNode 9 []]].

(** The same machine after ["a"] was unregistered. *)
Definition retired : state :=
  default boot (proclikefs_unregister_filesystem 4 (Some 1%positive) busy).

(** ** Accounting for tables *)

Definition tables_of (fs : proclikefs_file_system) : list ptr :=
  pfs_pfo fs ++ pfs_pio fs.

(** The tables on the chains of the blocks of a list. *)
Definition owned_by (mem : gmap ptr proclikefs_file_system) (l : list ptr)
    : list ptr :=
  l ≫= (λ p, from_option tables_of [] (mem !! p)).

Definition owned_tables (s : state) : list ptr :=
  owned_by (pfs_mem s) (fs_list s).

(** What a run of the interface keeps true: [fs_list] lists the
    allocated blocks, each once and under its own name; every table ever
    allocated is either freed or on the chain of a listed block, and no
    address was handed out twice. *)
Record accounted (s : state) : Prop := {
  acc_list_nodup : NoDup (fs_list s);
  acc_list_dom : ∀ p, p ∈ fs_list s ↔ is_Some (pfs_mem s !! p);
  acc_names : names_unique s;
  acc_tables :
    tables_allocated (trace s) ≡ₚ tables_freed (trace s) ++ owned_tables s;
  acc_fresh : ∀ t, t ∈ tables_allocated (trace s) → (t < brk s)%positive;
  acc_nodup : NoDup (tables_allocated (trace s))
}.

(** The part of a block that the accounting reads. *)
Definition pfs_key (fs : proclikefs_file_system) : string * list ptr :=
  (name fs, tables_of fs).

Definition ledger (s : state)
    : list ptr * gmap ptr (string * list ptr) * list ptr * list ptr :=
  (fs_list s, pfs_key <$> pfs_mem s,
   tables_allocated (trace s), tables_freed (trace s)).

(** Events that neither allocate nor free a table. *)
Definition table_neutral (e : event) : Prop :=
  match e with
  | Ev_kmalloc K_pfo _ | Ev_kmalloc K_pio _
  | Ev_kfree K_pfo _ | Ev_kfree K_pio _ => False
  | _ => True
  end.

(** A step that leaves the ledger alone up to neutral events. *)
Definition quiet (s s' : state) : Prop :=
  fs_list s' = fs_list s ∧ pfs_key <$> pfs_mem s' = pfs_key <$> pfs_mem s
  ∧ (brk s ≤ brk s')%positive
  ∧ ∃ evs, trace s' = trace s ++ evs ∧ Forall table_neutral evs.

(** ** Balanced runs *)

Definition is_put_super (c : call) : bool :=
  match c with Call_put_super _ => true | _ => false end.





(** ** More of the interface *)

(** [kmalloc] fails; everything else succeeds. *)
Definition out_of_memory : oracle :=
  {| try_module_get_ok := true; kmalloc_ok := false; register_filesystem_err := 0 |}.

(** *** cleanup_module *)

(** One iteration of the loop of [cleanup_module]: a warning for a file
    system that is live or mounted, then [unregister_filesystem] and
    [kfree] of the block.  The block stays on [fs_list], and its table
    chains are not looked at. *)
Definition cleanup_block (pfs : ptr) (s : state) : option state :=
  fs ← pfs_mem s !! pfs;
  let s := if decide (live fs ≠ 0 ∨ nsuper fs ≠ 0)
           then printk "<1>proclikefs: unregistering active FS %s, prepare to die" s
           else s in
  let s := emit (Ev_unregister_filesystem pfs) s in
  Some (emit (Ev_kfree K_pfs pfs) (set_pfs_mem (delete pfs) s)).

Fixpoint cleanup_loop (l : list ptr) (s : state) : option state :=
  match l with
  | [] => Some s
  | next :: rest => s ← cleanup_block next s; cleanup_loop rest s
  end.

Definition cleanup_module (s : state) : option state :=
  cleanup_loop (fs_list s) s.

(** A block is active for [cleanup_module]. *)
Definition active (fs : proclikefs_file_system) : Prop :=
  live fs ≠ 0 ∨ nsuper fs ≠ 0.

(** *** Superblocks with their trees *)

(** The tree, the open files and the root inode that go with each
    superblock of a list. *)
Definition supers_at (fuel : nat) (sh : vfs_shape) (l : list ptr)
    (ws : list (dtree * list ptr * ptr)) : Prop :=
  Forall2 (λ sb w, super_at sh sb w.1.1 w.1.2 w.2
                   ∧ (length (forest_nodes [w.1.1]) ≤ fuel)%nat) l ws.

Fixpoint kill_supers_patches (fuel : nat) (l : list ptr)
    (ws : list (dtree * list ptr * ptr)) (dummy : option ptr) : vfs_patches :=
  match l, ws with
  | sb :: l, w :: ws =>
      vfs_patches_seq (kill_super_patches fuel sb w.1.1 w.1.2 w.2 dummy)
                      (kill_supers_patches fuel l ws dummy)
  | _, _ => vfs_patches_none
  end.

(** *** Steps by what they emit *)

(** Events other than a [kfree] and a call of the kernel's
    [unregister_filesystem]. *)
Definition harmless (e : event) : Prop :=
  match e with
  | Ev_kfree _ _ | Ev_unregister_filesystem _ => False
  | _ => True
  end.

(** [s'] has the trace of [s] followed by events that satisfy [P]. *)
Definition emits (P : event → Prop) (s s' : state) : Prop :=
  ∃ evs, trace s' = trace s ++ evs ∧ Forall P evs.

Definition unregister_calls (tr : list event) : list ptr :=
  omap (λ e, match e with Ev_unregister_filesystem p => Some p | _ => None end) tr.

(** *** A retired file system with two mounts

    File system ["a"] (address 1) has one table of each kind (addresses
    2 and 3) and is mounted twice: superblock 4 with root dentry 5 and
    inode 6, superblock 7 with root dentry 8 and inode 9.  Both mounts
    were announced through [proclikefs_read_super], and then ["a"] was
    unregistered. *)
Definition retired_twice_calls : list call :=
  [Call_register all_ok (Some "a") 0 7;
   Call_new_file_operations true 1;
   Call_new_inode_operations true 1;
   Env_mount 1; Env_mount 1;
   Call_read_super true 4; Call_read_super true 7;
   Call_unregister 1 (Some 1%positive)].

Definition retired_twice : state :=
  default boot (run retired_twice_calls (init_module boot)).

Definition retired_twice_fs : proclikefs_file_system :=
  {| name := "a"; fs_flags := 0; fs_get_sb := 7;
     fs_supers := [4%positive; 7%positive];
     nsuper := 2; live := 0; pfs_pfo := [2%positive]; pfs_pio := [3%positive] |}.

(** * Properties *)

(** ** Records and field updates *)

Lemma state_eq (s s' : state) :
  fs_list s = fs_list s' → pfs_mem s = pfs_mem s' → pfo_mem s = pfo_mem s' →
  pio_mem s = pio_mem s' → sb_mem s = sb_mem s' →
  dentry_mem s = dentry_mem s' → inode_mem s = inode_mem s' →
  file_mem s = file_mem s' →
  proclikefs_null_super_operations s = proclikefs_null_super_operations s' →
  proclikefs_null_root_inode_operations s = proclikefs_null_root_inode_operations s' →
  module_use_count s = module_use_count s' → brk s = brk s' →
  trace s = trace s' → s = s'.
Proof. destruct s, s'; simpl; intros; by subst. Qed.

Lemma module_get_put s : MOD_DEC_USE_COUNT (module_get s) = s.
Proof. apply state_eq; simpl; try done. lia. Qed.

Lemma wrap_int_id z : int_range z → wrap_int z = z.
Proof.
  unfold int_range, wrap_int. intros ?.
  rewrite Z.mod_small; lia.
Qed.

Lemma wrap_int_range z : int_range (wrap_int z).
Proof.
  unfold int_range, wrap_int.
  pose proof (Z.mod_pos_bound (z + 2 ^ 31) (2 ^ 32)). lia.
Qed.

Lemma atomic_dec_zero z : int_range z → atomic_dec z = 0 ↔ z = 1.
Proof.
  intros Hz. unfold atomic_dec. split.
  - intros H. destruct (decide (z = - 2 ^ 31)) as [->|].
    + by vm_compute in H.
    + rewrite wrap_int_id in H; unfold int_range in *; lia.
  - intros ->. done.
Qed.

Lemma atomic_dec_nonpos z : int_range z → z ≤ 0 → atomic_dec z ≠ 0.
Proof. intros Hz ? H%atomic_dec_zero; [lia|done]. Qed.

(** ** The scan of [fs_list] *)

Lemma names_of_elem mem l p fs :
  p ∈ l → mem !! p = Some fs → name fs ∈ names_of mem l.
Proof.
  intros Hp Hfs. apply list_elem_of_omap. exists p. by rewrite Hfs.
Qed.

(** A block of that name is on the list: the scan stops at it. *)
Lemma register_scan_found mem nm l newfs p fs :
  Forall (λ q, is_Some (mem !! q)) l → NoDup (names_of mem l) →
  p ∈ l → mem !! p = Some fs → name fs = nm →
  register_scan mem nm l newfs
  = Some (if 0 <? live fs then Scan_active else Scan_left (Some p)).
Proof.
  intros Hall Hnd Hp Hfs <-. revert newfs.
  induction l as [|q l IH]; intros newfs; [by apply elem_of_nil in Hp|].
  apply Forall_cons in Hall as [[fq Hq] Hall].
  unfold names_of in Hnd. simpl in Hnd. rewrite Hq in Hnd. simpl in Hnd.
  apply NoDup_cons in Hnd as [Hnotin Hnd].
  simpl. rewrite Hq. simpl.
  destruct (decide (q = p)) as [->|Hne].
  - assert (fq = fs) as -> by congruence.
    rewrite decide_True by done. by case_match.
  - apply elem_of_cons in Hp as [->|Hp]; [done|].
    rewrite decide_False.
    + by apply IH.
    + intros Heq. apply Hnotin. rewrite <- Heq. by eapply names_of_elem.
Qed.

(** No block of that name is on the list: the scan runs off the end and
    leaves [newfs] at the last block it looked at. *)
Lemma register_scan_absent mem nm l newfs :
  Forall (λ q, is_Some (mem !! q)) l → nm ∉ names_of mem l →
  register_scan mem nm l newfs
  = Some (Scan_left (from_option Some newfs (last l))).
Proof.
  revert newfs. induction l as [|q l IH]; intros newfs Hall Hnm; [done|].
  apply Forall_cons in Hall as [[fq Hq] Hall].
  unfold names_of in Hnm. simpl in Hnm. rewrite Hq in Hnm. simpl in Hnm.
  apply not_elem_of_cons in Hnm as [Hne Hnm].
  simpl. rewrite Hq. simpl. rewrite decide_False by done.
  rewrite IH by done. destruct l; [done|].
  rewrite last_cons_cons, last_cons. by destruct (last l).
Qed.

(** The scan leaves [newfs] null only when the list is empty. *)
Lemma register_scan_null mem nm l newfs :
  register_scan mem nm l newfs = Some (Scan_left None) →
  l = [] ∧ newfs = None.
Proof.
  revert newfs. induction l as [|q l IH]; intros newfs; simpl.
  - by intros [= ->].
  - destruct (mem !! q) as [fq|]; simpl; [|done].
    case_decide.
    + by case_match.
    + by intros [_ [=]]%IH.
Qed.

Global Instance Ev_kfree_inj k : Inj (=) (=) (Ev_kfree k).
Proof. by intros ?? [=]. Qed.

(** ** Registration *)

(** C10: a null name makes register return at once, and a null handle
    makes unregister return at once; neither looks at the registry,
    allocates, touches the module use count, or changes the state. *)
Theorem null_arguments_return_at_once o flags get_sb fuel s :
  proclikefs_register_filesystem o None flags get_sb s = Some (None, s) ∧
  proclikefs_unregister_filesystem fuel None s = Some s.
Proof. done. Qed.

(** C6: while a live file system of that name is registered, register
    returns the null handle and leaves [fs_list], every registration
    block and the module use count as they were. *)
Theorem register_live_name_refused o nm flags get_sb s p fs :
  registry_allocated s → names_unique s →
  p ∈ fs_list s → pfs_mem s !! p = Some fs → name fs = nm → 0 < live fs →
  ∃ s', proclikefs_register_filesystem o (Some nm) flags get_sb s = Some (None, s')
    ∧ fs_list s' = fs_list s
    ∧ pfs_mem s' = pfs_mem s
    ∧ pfo_mem s' = pfo_mem s ∧ pio_mem s' = pio_mem s
    ∧ module_use_count s' = module_use_count s
    ∧ (try_module_get_ok o = true → s' = s).
Proof.
  intros Hall Hnd Hp Hfs Hnm Hlive. simpl.
  destruct (try_module_get_ok o).
  - simpl. erewrite register_scan_found by done.
    apply Z.ltb_lt in Hlive. rewrite Hlive. simpl.
    exists s. rewrite module_get_put. done.
  - eexists. split; [done|]. simpl. done.
Qed.

Lemma register_live_name_refused_witness :
  ∃ s', proclikefs_register_filesystem all_ok (Some "a") 0 8 registered_a
        = Some (None, s')
    ∧ fs_list s' = fs_list registered_a
    ∧ pfs_mem s' = pfs_mem registered_a
    ∧ pfo_mem s' = pfo_mem registered_a ∧ pio_mem s' = pio_mem registered_a
    ∧ module_use_count s' = module_use_count registered_a
    ∧ (try_module_get_ok all_ok = true → s' = registered_a).
Proof.
  apply (register_live_name_refused all_ok "a" 0 8 registered_a 1%positive
           (set_registered 0 7 (fresh_file_system "a"))).
  - repeat constructor. by eexists.
  - vm_compute. repeat constructor. set_solver.
  - vm_compute. set_solver.
  - done.
  - done.
  - done.
Defined.

(** With an empty registry the name is new, a block is allocated, put
    on [fs_list] and made live. *)
Lemma register_on_empty_list o nm flags get_sb s :
  fs_list s = [] → try_module_get_ok o = true → kmalloc_ok o = true →
  ∃ s', proclikefs_register_filesystem o (Some nm) flags get_sb s
        = Some (Some (brk s), s')
    ∧ fs_list s' = [brk s]
    ∧ pfs_mem s' = <[brk s := set_registered flags get_sb (fresh_file_system nm)]> (pfs_mem s)
    ∧ brk s' = Pos.succ (brk s)
    ∧ module_use_count s' = module_use_count s + 1.
Proof.
  intros Hl Ho Hk. simpl. rewrite Ho, Hl. simpl.
  unfold kmalloc. rewrite Hk. simpl.
  unfold register_finish. simpl.
  rewrite lookup_insert_eq. simpl.
  eexists. split; [done|].
  case_decide; simpl; rewrite Hl, insert_insert_eq; done.
Qed.

(** With a non-empty registry and a name that is on none of its blocks,
    the block the scan looked at last is taken over: nothing is
    allocated, and the handle returned is that block, under its old
    name. *)
Lemma register_unknown_name_takes_last o nm flags get_sb s p fs :
  registry_allocated s → nm ∉ names_of (pfs_mem s) (fs_list s) →
  last (fs_list s) = Some p → pfs_mem s !! p = Some fs →
  try_module_get_ok o = true →
  proclikefs_register_filesystem o (Some nm) flags get_sb s
  = Some (Some p,
          module_get (set_pfs_mem <[p := set_registered flags get_sb fs]> s)).
Proof.
  intros Hall Hnm Hlast Hfs Ho. simpl. rewrite Ho. simpl.
  rewrite register_scan_absent by done. rewrite Hlast. simpl.
  unfold register_finish. simpl. rewrite Hfs. done.
Qed.

(** C4, evaluated where it fails: with ["a"] registered at address 1,
    registering ["b"] allocates nothing and returns address 1; the
    block keeps the name ["a"] and takes the new callback. *)
Example register_second_name_returns_first_block :
  ∃ s, proclikefs_register_filesystem all_ok (Some "b") 0 8 registered_a
       = Some (Some 1%positive, s)
    ∧ fs_list s = [1%positive]
    ∧ name <$> pfs_mem s !! 1%positive = Some "a"
    ∧ fs_get_sb <$> pfs_mem s !! 1%positive = Some 8%nat
    ∧ brk s = brk registered_a
    ∧ trace s = trace registered_a.
Proof. eexists. split; [vm_compute; reflexivity|]. vm_compute. done. Qed.

(** A retired block of that name is on the list: it is made live again
    in place, with its counter and both table chains as they were. *)
Lemma register_retired_name o nm flags get_sb s p fs :
  registry_allocated s → names_unique s →
  p ∈ fs_list s → pfs_mem s !! p = Some fs → name fs = nm → live fs ≤ 0 →
  try_module_get_ok o = true →
  proclikefs_register_filesystem o (Some nm) flags get_sb s
  = Some (Some p,
          module_get (set_pfs_mem <[p := set_registered flags get_sb fs]> s)).
Proof.
  intros Hall Hnd Hp Hfs Hnm Hlive Ho. simpl. rewrite Ho. simpl.
  erewrite register_scan_found by done.
  assert ((0 <? live fs) = false) as -> by (apply Z.ltb_ge; lia).
  unfold register_finish. simpl. rewrite Hfs. done.
Qed.

(** ** Release *)

Lemma forget_trace_emit e s : forget_trace (emit e s) = forget_trace s.
Proof. done. Qed.

Lemma free_pfo_spec l s :
  Forall (λ t, is_Some (pfo_mem s !! t)) l → NoDup l →
  ∃ s', free_pfo l s = Some s'
    ∧ trace s' = trace s ++ (Ev_kfree K_pfo <$> l)
    ∧ pfo_mem s' = foldr delete (pfo_mem s) l
    ∧ pio_mem s' = pio_mem s
    ∧ forget_tables s' = forget_tables s.
Proof.
  revert s. induction l as [|t l IH]; intros s Hall Hnd.
  - exists s. simpl. by rewrite app_nil_r.
  - apply Forall_cons in Hall as [[fo Hfo] Hall].
    apply NoDup_cons in Hnd as [Hnotin Hnd].
    simpl. rewrite Hfo. simpl.
    edestruct (IH (emit (Ev_kfree K_pfo t) (set_pfo_mem (delete t) s)))
      as (s' & -> & Htr & Hpfo & Hpio & Hfr); [|done|].
    { simpl. eapply Forall_impl; [apply Forall_forall; intros x Hx;
        exact (conj Hx (proj1 (Forall_forall _ _) Hall x Hx))|].
      simpl. intros x [Hx Hv]. rewrite lookup_delete_ne; [done|].
      intros ->. done. }
    exists s'. split; [done|]. rewrite Htr, Hpfo, Hpio, Hfr. simpl.
    rewrite <- app_assoc. repeat split; try done.
    clear. induction l as [|x l IH]; simpl; [done|].
    rewrite IH. apply delete_delete.
Qed.

Lemma free_pio_spec l s :
  Forall (λ t, is_Some (pio_mem s !! t)) l → NoDup l →
  ∃ s', free_pio l s = Some s'
    ∧ trace s' = trace s ++ (Ev_kfree K_pio <$> l)
    ∧ pio_mem s' = foldr delete (pio_mem s) l
    ∧ pfo_mem s' = pfo_mem s
    ∧ forget_tables s' = forget_tables s.
Proof.
  revert s. induction l as [|t l IH]; intros s Hall Hnd.
  - exists s. simpl. by rewrite app_nil_r.
  - apply Forall_cons in Hall as [[io Hio] Hall].
    apply NoDup_cons in Hnd as [Hnotin Hnd].
    simpl. rewrite Hio. simpl.
    edestruct (IH (emit (Ev_kfree K_pio t) (set_pio_mem (delete t) s)))
      as (s' & -> & Htr & Hpio & Hpfo & Hfr); [|done|].
    { simpl. eapply Forall_impl; [apply Forall_forall; intros x Hx;
        exact (conj Hx (proj1 (Forall_forall _ _) Hall x Hx))|].
      simpl. intros x [Hx Hv]. rewrite lookup_delete_ne; [done|].
      intros ->. done. }
    exists s'. split; [done|]. rewrite Htr, Hpio, Hpfo, Hfr. simpl.
    rewrite <- app_assoc. repeat split; try done.
    clear. induction l as [|x l IH]; simpl; [done|].
    rewrite IH. apply delete_delete.
Qed.

Lemma lookup_foldr_delete {A} (m : gmap ptr A) l t :
  foldr delete m l !! t = if decide (t ∈ l) then None else m !! t.
Proof.
  induction l as [|x l IH]; simpl; [done|].
  destruct (decide (x = t)) as [->|Hne].
  - rewrite lookup_delete_eq. rewrite decide_True; [done|]. left.
  - rewrite lookup_delete_ne by done. rewrite IH.
    destruct (decide (t ∈ l)).
    + rewrite decide_True; [done|]. by right.
    + rewrite decide_False; [done|]. set_solver.
Qed.

Lemma list_del_spec p l : p ∉ list_del p l.
Proof. unfold list_del. rewrite list_elem_of_filter. naive_solver. Qed.

(** The two outcomes of [proclikefs_put_super]. *)
Lemma put_super_quiet s sb sbr fs :
  sb_mem s !! sb = Some sbr → pfs_mem s !! s_type sbr = Some fs →
  ¬ (live fs = 0 ∧ atomic_dec (nsuper fs) = 0) →
  proclikefs_put_super sb s
  = Some (MOD_DEC_USE_COUNT
            (set_pfs_mem <[s_type sbr := set_nsuper (atomic_dec (nsuper fs)) fs]> s)).
Proof.
  intros Hsb Hfs Hno. unfold proclikefs_put_super.
  rewrite Hsb. simpl. rewrite Hfs. simpl.
  by rewrite decide_False.
Qed.

Lemma put_super_reclaim s sb sbr fs :
  sb_mem s !! sb = Some sbr → pfs_mem s !! s_type sbr = Some fs →
  Forall (λ t, is_Some (pfo_mem s !! t)) (pfs_pfo fs) → NoDup (pfs_pfo fs) →
  Forall (λ t, is_Some (pio_mem s !! t)) (pfs_pio fs) → NoDup (pfs_pio fs) →
  live fs = 0 → atomic_dec (nsuper fs) = 0 →
  ∃ s', proclikefs_put_super sb s = Some s'
    ∧ trace s' = trace s ++ Ev_unregister_filesystem (s_type sbr)
                   :: (Ev_kfree K_pfo <$> pfs_pfo fs)
                   ++ (Ev_kfree K_pio <$> pfs_pio fs)
                   ++ [Ev_kfree K_pfs (s_type sbr)]
    ∧ fs_list s' = list_del (s_type sbr) (fs_list s)
    ∧ pfs_mem s' = delete (s_type sbr) (pfs_mem s)
    ∧ pfo_mem s' = foldr delete (pfo_mem s) (pfs_pfo fs)
    ∧ pio_mem s' = foldr delete (pio_mem s) (pfs_pio fs)
    ∧ module_use_count s' = module_use_count s - 1
    ∧ brk s' = brk s
    ∧ sb_mem s' = sb_mem s ∧ dentry_mem s' = dentry_mem s
    ∧ inode_mem s' = inode_mem s ∧ file_mem s' = file_mem s.
Proof.
  intros Hsb Hfs Hpfo Hnd1 Hpio Hnd2 Hlive Hzero. unfold proclikefs_put_super.
  rewrite Hsb. simpl. rewrite Hfs. simpl.
  rewrite decide_True by done.
  set (p := s_type sbr) in *.
  set (s1 := emit _ _).
  destruct (free_pfo_spec (pfs_pfo fs) s1) as (s2 & -> & Htr2 & Hpfo2 & Hpio2 & Hfr2);
    [done..|].
  simpl.
  destruct (free_pio_spec (pfs_pio fs) s2) as (s3 & -> & Htr3 & Hpio3 & Hpfo3 & Hfr3);
    [by rewrite Hpio2|done|].
  simpl. eexists. split; [done|]. simpl.
  rewrite Htr3, Htr2, Hpfo3, Hpfo2, Hpio3, Hpio2.
  rewrite Hfr2 in Hfr3. clear Hfr2.
  destruct s3; simpl in *. injection Hfr3 as -> -> -> -> -> -> -> -> -> ->.
  simpl. rewrite delete_insert_eq.
  split; [by rewrite <- !app_assoc|]. repeat split.
Qed.

(** The events of a reclamation name every block once. *)
Lemma reclaim_events_NoDup p pfo pio :
  NoDup pfo → NoDup pio →
  NoDup (Ev_unregister_filesystem p
           :: (Ev_kfree K_pfo <$> pfo) ++ (Ev_kfree K_pio <$> pio)
           ++ [Ev_kfree K_pfs p]).
Proof.
  intros Hnd1 Hnd2. apply NoDup_cons. split.
  - rewrite !elem_of_app, !list_elem_of_fmap, list_elem_of_singleton.
    naive_solver.
  - apply NoDup_app. split; [by apply (NoDup_fmap_2 _)|]. split.
    + intros e [t [-> _]]%list_elem_of_fmap.
      rewrite elem_of_app, list_elem_of_fmap, list_elem_of_singleton.
      naive_solver.
    + apply NoDup_app. split; [by apply (NoDup_fmap_2 _)|]. split.
      * intros e [t [-> _]]%list_elem_of_fmap.
        rewrite list_elem_of_singleton. naive_solver.
      * apply NoDup_singleton.
Qed.

(** C3: a release that brings [nsuper] to 0 on a retired file system
    frees every table of both chains, each once, then the registration
    block, and takes the block off [fs_list]; a release in any other
    situation frees nothing and leaves [fs_list] as it was. *)
Theorem put_super_reclaims_exactly_at_zero s sb sbr fs :
  sb_mem s !! sb = Some sbr → pfs_mem s !! s_type sbr = Some fs →
  Forall (λ t, is_Some (pfo_mem s !! t)) (pfs_pfo fs) → NoDup (pfs_pfo fs) →
  Forall (λ t, is_Some (pio_mem s !! t)) (pfs_pio fs) → NoDup (pfs_pio fs) →
  ∃ s' evs, proclikefs_put_super sb s = Some s' ∧ trace s' = trace s ++ evs ∧
    (live fs = 0 ∧ atomic_dec (nsuper fs) = 0 →
       evs = Ev_unregister_filesystem (s_type sbr)
               :: (Ev_kfree K_pfo <$> pfs_pfo fs)
               ++ (Ev_kfree K_pio <$> pfs_pio fs)
               ++ [Ev_kfree K_pfs (s_type sbr)]
       ∧ NoDup evs
       ∧ (s_type sbr ∉ fs_list s')
       ∧ fs_list s' = list_del (s_type sbr) (fs_list s)
       ∧ pfs_mem s' !! s_type sbr = None
       ∧ (∀ t, t ∈ pfs_pfo fs → pfo_mem s' !! t = None)
       ∧ (∀ t, t ∈ pfs_pio fs → pio_mem s' !! t = None)) ∧
    (¬ (live fs = 0 ∧ atomic_dec (nsuper fs) = 0) →
       evs = []
       ∧ fs_list s' = fs_list s
       ∧ pfs_mem s' = <[s_type sbr := set_nsuper (atomic_dec (nsuper fs)) fs]> (pfs_mem s)
       ∧ pfo_mem s' = pfo_mem s ∧ pio_mem s' = pio_mem s).
Proof.
  intros Hsb Hfs Hpfo Hnd1 Hpio Hnd2.
  destruct (decide (live fs = 0 ∧ atomic_dec (nsuper fs) = 0)) as [[Hl Hz]|Hno].
  - destruct (put_super_reclaim s sb sbr fs) as
      (s' & Hrun & Htr & Hlist & Hpfs & Hpfo' & Hpio' & _); [done..|].
    exists s'. eexists. split; [done|]. split; [done|]. split; [|tauto].
    intros _. split; [done|].
    split; [by apply reclaim_events_NoDup|].
    rewrite Hlist, Hpfs, Hpfo', Hpio'.
    split; [apply list_del_spec|]. split; [done|].
    split; [apply lookup_delete_eq|].
    split; intros t Ht; rewrite lookup_foldr_delete; by rewrite decide_True.
  - exists (MOD_DEC_USE_COUNT (set_pfs_mem
              <[s_type sbr := set_nsuper (atomic_dec (nsuper fs)) fs]> s)), [].
    split; [by apply put_super_quiet|].
    simpl. rewrite app_nil_r. split; [done|]. split; [tauto|]. done.
Qed.

(** C5, as the code has it: a release beyond the acquires, on a file
    system still on [fs_list], is neither noticed nor logged; it takes
    [nsuper] below zero and the module use count down by one, frees
    nothing and leaves [fs_list] as it was. *)
Theorem unbalanced_release_goes_unnoticed s sb sbr fs :
  sb_mem s !! sb = Some sbr → pfs_mem s !! s_type sbr = Some fs →
  int_range (nsuper fs) → nsuper fs ≤ 0 →
  ∃ s', proclikefs_put_super sb s = Some s'
    ∧ trace s' = trace s
    ∧ fs_list s' = fs_list s
    ∧ pfo_mem s' = pfo_mem s ∧ pio_mem s' = pio_mem s
    ∧ pfs_mem s' = <[s_type sbr := set_nsuper (atomic_dec (nsuper fs)) fs]> (pfs_mem s)
    ∧ atomic_dec (nsuper fs) ≠ 0
    ∧ (nsuper fs ≠ (- 2 ^ 31) → atomic_dec (nsuper fs) = nsuper fs - 1)
    ∧ module_use_count s' = module_use_count s - 1.
Proof.
  intros Hsb Hfs Hr Hle.
  pose proof (atomic_dec_nonpos _ Hr Hle) as Hnz.
  eexists. split; [apply put_super_quiet; [done..|tauto]|].
  simpl. repeat split; try done.
  intros ?. unfold atomic_dec. apply wrap_int_id. unfold int_range in *. lia.
Qed.

Lemma mounted_unannounced_eq :
  ∃ s, mounted_unannounced = Some s
    ∧ sb_mem s !! 2%positive
      = Some {| s_type := 1; s_files := []; s_op := sop_driver 0;
                s_root := Some 3%positive |}
    ∧ pfs_mem s !! 1%positive
      = Some {| name := "a"; fs_flags := 0; fs_get_sb := 7;
                fs_supers := [2%positive]; nsuper := 0; live := 1;
                pfs_pfo := []; pfs_pio := [] |}.
Proof. eexists. split; [vm_compute; reflexivity|]. vm_compute. done. Qed.

Lemma unbalanced_release_goes_unnoticed_witness :
  ∃ s s', mounted_unannounced = Some s
    ∧ proclikefs_put_super 2 s = Some s'
    ∧ trace s' = trace s
    ∧ fs_list s' = fs_list s.
Proof.
  destruct mounted_unannounced_eq as (s & Hs & Hsb & Hfs).
  destruct (unbalanced_release_goes_unnoticed s 2%positive _ _ Hsb Hfs)
    as (s' & Hrun & Htr & Hl & _).
  - done.
  - done.
  - by exists s, s'.
Defined.

(** C5 as it was worded fails on that machine: the release of the
    never-announced mount logs nothing, and it does change the state: the
    counter goes to -1 and the module use count drops. *)
Lemma unbalanced_release_not_reported :
  ∃ s s', mounted_unannounced = Some s
    ∧ proclikefs_put_super 2 s = Some s'
    ∧ ¬ release_reported_and_ignored s s'
    ∧ filter is_printk (trace s') = []
    ∧ nsuper <$> pfs_mem s' !! 1%positive = Some (-1)
    ∧ module_use_count s' = module_use_count s - 1.
Proof.
  eexists _, _. split; [vm_compute; reflexivity|].
  split; [vm_compute; reflexivity|].
  split; [|vm_compute; done].
  intros [[msg Hmsg] _]. vm_compute in Hmsg. discriminate.
Qed.

(** ** Patches *)

Global Instance dentry_PatchLaws : PatchLaws dentry dentry_patch.
Proof.
  split.
  - by intros [].
  - intros [o1 f1 u1] [o2 f2 u2] [? ? ? ? ?]. unfold patch. simpl.
    unfold dentry_patch_apply. simpl. f_equal.
    + by destruct o1, o2.
    + by destruct f1, f2.
    + by destruct u1, u2.
  - intros [o1 f1 u1] [? ? ? ? ?]. unfold patch. simpl.
    unfold dentry_patch_apply. simpl. f_equal.
    + by destruct o1.
    + by destruct f1.
    + by destruct u1.
Qed.

Global Instance file_PatchLaws : PatchLaws file (option file).
Proof. split; [done|by intros [] []|by intros []]. Qed.

Global Instance inode_PatchLaws : PatchLaws inode (option inode).
Proof. split; [done|by intros [] []|by intros []]. Qed.

Global Instance super_block_PatchLaws : PatchLaws super_block (once super_block).
Proof. split; [done|by intros [[]] [[]] []|by intros [[]] []]. Qed.

Global Instance file_operations_PatchLaws :
  PatchLaws file_operations (once file_operations).
Proof. split; [done|by intros [[]] [[]]|by intros [[]]]. Qed.

Global Instance inode_operations_PatchLaws :
  PatchLaws inode_operations (once inode_operations).
Proof. split; [done|by intros [[]] [[]]|by intros [[]]]. Qed.

Section patched.
Context `{PatchLaws R P}.
Implicit Types (m : gmap ptr R) (c : ptr → P).

Lemma patched_refl m : patched (λ _, patch_none) m m.
Proof.
  intros p. destruct (m !! p); simpl; [|done]. by rewrite patch_none_id.
Qed.

Lemma patched_trans c1 c2 m1 m2 m3 :
  patched c1 m1 m2 → patched c2 m2 m3 → patched (patch_both c1 c2) m1 m3.
Proof.
  intros H12 H23 p. rewrite H23, H12. unfold patch_both.
  destruct (m1 !! p); simpl; [|done]. by rewrite patch_seq_eq.
Qed.

Lemma patched_insert m q r a :
  m !! q = Some r → patched (patch_at q a) m (<[q := patch a r]> m).
Proof.
  intros Hq p. unfold patch_at. case_decide as Hp.
  - subst. by rewrite lookup_insert_eq, Hq.
  - rewrite lookup_insert_ne by done.
    destruct (m !! p); simpl; [|done]. by rewrite patch_none_id.
Qed.

Lemma patched_ext c1 c2 m m' :
  (∀ p, c1 p = c2 p) → patched c1 m m' → patched c2 m m'.
Proof. intros Hc Hp p. by rewrite <- Hc. Qed.

(** Patching twice with the same patches changes nothing more. *)
Lemma patched_idem c m1 m2 m3 :
  patched c m1 m2 → patched c m2 m3 → m3 = m2.
Proof.
  intros H12 H23. apply map_eq. intros p. rewrite H23, H12.
  destruct (m1 !! p); simpl; [|done]. by rewrite patch_idem.
Qed.

Lemma patched_is_Some c m m' p :
  patched c m m' → is_Some (m' !! p) ↔ is_Some (m !! p).
Proof. intros Hp. rewrite Hp. apply fmap_is_Some. Qed.

Lemma patched_dom c m m' : patched c m m' → dom m' = dom m.
Proof.
  intros Hp. apply set_eq. intros p. rewrite !elem_of_dom.
  by eapply patched_is_Some.
Qed.

Lemma patched_shape {S} (f : R → S) c m m' :
  (∀ a r, f (patch a r) = f r) → patched c m m' → f <$> m' = f <$> m.
Proof.
  intros Hf Hp. apply map_eq. intros p. rewrite !lookup_fmap, Hp.
  destruct (m !! p); simpl; [|done]. by rewrite Hf.
Qed.
End patched.

Lemma patch_both_none_l `{PatchLaws R P} (c : ptr → P) (m m' : gmap ptr R) :
  patched (patch_both (λ _, patch_none) c) m m' ↔ patched c m m'.
Proof.
  split; intros Hp p; rewrite Hp; destruct (m !! p); simpl; try done;
    unfold patch_both; by rewrite patch_seq_eq, patch_none_id.
Qed.

(** ** Forests *)

Lemma forest_edges_cons a kids rest :
  forest_edges (DNode a kids :: rest)
  = (a, droot <$> kids) :: forest_edges kids ++ forest_edges rest.
Proof. done. Qed.

Lemma forest_edges_app ts1 ts2 :
  forest_edges (ts1 ++ ts2) = forest_edges ts1 ++ forest_edges ts2.
Proof. apply bind_app. Qed.

Lemma forest_edges_reverse ts : forest_edges (reverse ts) ≡ₚ forest_edges ts.
Proof. unfold forest_edges. by rewrite reverse_Permutation. Qed.

Lemma forest_edges_step a kids rest :
  forest_edges (DNode a kids :: rest)
  ≡ₚ (a, droot <$> kids) :: forest_edges (reverse kids ++ rest).
Proof.
  rewrite forest_edges_cons, forest_edges_app.
  by rewrite forest_edges_reverse.
Qed.

Lemma forest_nodes_cons a kids rest :
  forest_nodes (DNode a kids :: rest)
  = a :: forest_nodes kids ++ forest_nodes rest.
Proof. unfold forest_nodes. rewrite forest_edges_cons. simpl. by rewrite fmap_app. Qed.

Lemma forest_nodes_step a kids rest :
  forest_nodes (DNode a kids :: rest)
  ≡ₚ a :: forest_nodes (reverse kids ++ rest).
Proof. unfold forest_nodes. by rewrite forest_edges_step. Qed.

Lemma forest_nodes_length ts : length (forest_nodes ts) = length (forest_edges ts).
Proof. unfold forest_nodes. by rewrite length_fmap. Qed.

Lemma forest_roots_nodes ts p : p ∈ droot <$> ts → p ∈ forest_nodes ts.
Proof.
  intros [t [-> Ht]]%list_elem_of_fmap.
  unfold forest_nodes, forest_edges.
  apply list_elem_of_fmap. exists (droot t, droot <$> dkids t). split; [done|].
  apply list_elem_of_bind. exists t. split; [|done]. destruct t; simpl. left.
Qed.

Lemma forest_below_cons a kids rest :
  forest_below (DNode a kids :: rest) = forest_nodes kids ++ forest_below rest.
Proof. done. Qed.

Lemma forest_below_app ts1 ts2 :
  forest_below (ts1 ++ ts2) = forest_below ts1 ++ forest_below ts2.
Proof. apply bind_app. Qed.

Lemma forest_nodes_split ts :
  forest_nodes ts ≡ₚ (droot <$> ts) ++ forest_below ts.
Proof.
  induction ts as [|[a kids] ts IH]; [done|].
  rewrite forest_nodes_cons, forest_below_cons. simpl. f_equiv.
  rewrite IH. rewrite !app_assoc. f_equiv. apply Permutation_app_comm.
Qed.

Lemma forest_below_step a kids rest :
  forest_below (DNode a kids :: rest)
  ≡ₚ (droot <$> kids) ++ forest_below (reverse kids ++ rest).
Proof.
  rewrite forest_below_cons, forest_below_app.
  rewrite forest_nodes_split. rewrite <- !app_assoc. do 2 f_equiv.
  unfold forest_below. by rewrite reverse_Permutation.
Qed.

(** ** The dentry walk follows the tree *)

Lemma linked_insert_ne m k d dt stk :
  k ∉ stk → linked m dt stk → linked (<[k := d]> m) dt stk.
Proof.
  revert dt. induction stk as [|p stk IH]; intros dt Hk; simpl; [done|].
  apply not_elem_of_cons in Hk as [Hne Hk].
  intros [-> (dp & Hp & Hl)]. split; [done|].
  exists dp. rewrite lookup_insert_ne by done. split; [done|]. by apply IH.
Qed.

Lemma linked_head m dt stk : linked m dt stk → dt = head stk.
Proof. destruct stk; simpl; [done|]. by intros [-> _]. Qed.

Lemma last_cons_default {A} (x : A) l prev :
  from_option Some (Some x) (last l) = from_option Some prev (last (x :: l)).
Proof. rewrite last_cons. by destruct (last l). Qed.

Lemma prepend_children_spec kids prev s :
  Forall (λ k, is_Some (dentry_mem s !! k)) kids →
  ∃ s', prepend_children kids prev s
        = Some (from_option Some prev (last kids), s')
    ∧ trace s' = trace s ++ (Ev_d_drop <$> kids)
    ∧ patched (push_patches kids prev) (dentry_mem s) (dentry_mem s')
    ∧ forget_dentries s' = forget_dentries s
    ∧ (∀ stk, NoDup (kids ++ stk) → linked (dentry_mem s) prev stk →
         linked (dentry_mem s') (from_option Some prev (last kids))
                (reverse kids ++ stk)).
Proof.
  revert prev s. induction kids as [|k kids IH]; intros prev s Hall.
  - exists s. simpl. rewrite app_nil_r.
    split; [done|]. split; [done|]. split; [exact (patched_refl (dentry_mem s))|]. done.
  - apply Forall_cons in Hall as [[c Hc] Hall].
    simpl. unfold d_drop. rewrite Hc. simpl. rewrite lookup_insert_eq. simpl.
    set (s1 := set_dentry_mem _ (emit _ _)).
    assert (dentry_mem s1 = <[k := patch (push_patch prev) c]> (dentry_mem s))
      as Hm1 by (simpl; by rewrite insert_insert_eq).
    destruct (IH (Some k) s1) as (s' & -> & Htr & Hpat & Hfr & Hlink).
    { rewrite Hm1. eapply Forall_impl; [exact Hall|]. simpl.
      intros x Hx. rewrite lookup_insert. case_decide; [by eexists|done]. }
    exists s'. split; [by rewrite last_cons_default with (prev := prev)|].
    split; [rewrite Htr; simpl; by rewrite <- app_assoc|].
    split.
    { intros p.
      pose proof (patched_trans _ _ _ _ _
                    (patched_insert (dentry_mem s) k c (push_patch prev) Hc)
                    (eq_rect _ (λ m, patched _ m _) Hpat _ Hm1) p) as Hp.
      exact Hp. }
    split; [by rewrite Hfr|].
    intros stk Hnd Hl. simpl in Hnd. apply NoDup_cons in Hnd as [Hk Hnd].
    rewrite reverse_cons, <- app_assoc. simpl.
    rewrite <- last_cons_default with (prev := prev).
    apply Hlink.
    + apply NoDup_app in Hnd as (Hnd1 & Hdisj & Hnd2).
      apply NoDup_app. split; [done|]. split.
      * intros x Hx [->|Hx']%elem_of_cons; [|by eapply Hdisj].
        apply Hk. apply elem_of_app. by left.
      * apply NoDup_cons. split; [|done]. intros Hx. apply Hk.
        apply elem_of_app. by right.
    + cbn [linked]. split; [done|]. rewrite Hm1.
      exists (patch (push_patch prev) c). rewrite lookup_insert_eq.
      split; [done|]. cbn [patch dentry_Patch dentry_patch_apply d_fsdata
                           push_patch dp_fsdata default].
      apply linked_insert_ne; [|done].
      intros Hx. apply Hk. apply elem_of_app. by right.
Qed.

Lemma forest_in_patched (c : ptr → dentry_patch) m m' ts :
  patched c m m' → forest_in m ts → forest_in m' ts.
Proof.
  intros Hp Hin a ks Ha. rewrite Hp. specialize (Hin a ks Ha).
  destruct (m !! a); simpl in *; [|done]. done.
Qed.

Lemma forest_in_perm m ts ts' :
  (∀ e, e ∈ forest_edges ts' → e ∈ forest_edges ts) →
  forest_in m ts → forest_in m ts'.
Proof. intros Hsub Hin a ks Ha. apply Hin. by apply Hsub. Qed.

Lemma forest_in_valid m ts p :
  forest_in m ts → p ∈ forest_nodes ts → is_Some (m !! p).
Proof.
  intros Hin [[a ks] [-> Ha]]%list_elem_of_fmap.
  specialize (Hin a ks Ha). simpl. destruct (m !! a); [by eexists|done].
Qed.

Lemma forest_roots_sublist ts : (droot <$> ts) `sublist_of` forest_nodes ts.
Proof.
  induction ts as [|[b bk] ts IH]; [constructor|].
  rewrite forest_nodes_cons. simpl. constructor.
  etrans; [exact IH|]. by apply sublist_inserts_l.
Qed.

(** The loop of [proclikefs_kill_super], started on a stack of disjoint
    subtrees chained through [d_fsdata], ends within as many iterations
    as there are nodes; it logs [walk_events] and patches the dentries
    by [walk_patch]. *)
Lemma kill_dentries_spec n ts s dt :
  (length (forest_nodes ts) ≤ n)%nat →
  NoDup (forest_nodes ts) →
  forest_in (dentry_mem s) ts →
  linked (dentry_mem s) dt (droot <$> ts) →
  ∃ s', kill_dentries n dt s = Some s'
    ∧ trace s' = trace s ++ walk_events n ts
    ∧ patched (walk_patch n ts) (dentry_mem s) (dentry_mem s')
    ∧ forget_dentries s' = forget_dentries s.
Proof.
  revert ts s dt. induction n as [|n IH]; intros ts s dt Hsize Hnd Hin Hl.
  { destruct ts as [|[a kids] rest]; [|simpl in Hsize; lia].
    simpl in Hl. subst dt. exists s. simpl. rewrite app_nil_r.
    split; [done|]. split; [done|]. split; [exact (patched_refl (dentry_mem s))|]. done. }
  destruct ts as [|[a kids] rest].
  { simpl in Hl. subst dt. exists s. simpl. rewrite app_nil_r.
    split; [done|]. split; [done|]. split; [exact (patched_refl (dentry_mem s))|]. done. }
  simpl in Hl. destruct Hl as [-> (da & Ha & Hl)].
  assert (d_subdirs da = droot <$> kids) as Hkids.
  { pose proof (Hin a (droot <$> kids)) as Hsub. rewrite Ha in Hsub.
    assert (Some (d_subdirs da) = Some (droot <$> kids)) as [=]; [|done].
    apply Hsub. rewrite forest_edges_cons. left. }
  rewrite forest_nodes_cons in Hnd, Hsize.
  apply NoDup_cons in Hnd as [Ha_notin Hnd]. simpl in Hsize.
  simpl. rewrite Ha. simpl. rewrite Hkids.
  set (s1 := emit (Ev_visit a) (set_dentry_mem <[a := set_d_op None da]> s)).
  assert (patched (patch_at a visit_patch) (dentry_mem s) (dentry_mem s1)) as Hp1.
  { change (dentry_mem s1) with (<[a := patch visit_patch da]> (dentry_mem s)).
    by apply patched_insert. }
  destruct (prepend_children_spec (droot <$> kids) (d_fsdata da) s1)
    as (s2 & -> & Htr2 & Hp2 & Hfr2 & Hlink2).
  { apply Forall_forall. intros k Hk.
    apply (patched_is_Some _ _ _ _ Hp1).
    eapply forest_in_valid; [exact Hin|].
    rewrite forest_nodes_cons. right. apply elem_of_app. left.
    by apply forest_roots_nodes. }
  simpl.
  assert (NoDup (forest_nodes (reverse kids ++ rest))) as Hnd'.
  { eapply NoDup_Permutation_proper; [|exact Hnd].
    unfold forest_nodes. rewrite forest_edges_app, forest_edges_reverse.
    by rewrite fmap_app. }
  destruct (IH (reverse kids ++ rest) s2
              (from_option Some (d_fsdata da) (last (droot <$> kids))))
    as (s' & Hrun & Htr' & Hp' & Hfr').
  - rewrite forest_nodes_length, forest_edges_app, forest_edges_reverse.
    rewrite <- forest_edges_app, <- forest_nodes_length.
    unfold forest_nodes. rewrite forest_edges_app, fmap_app.
    unfold forest_nodes in Hsize. lia.
  - done.
  - eapply forest_in_patched; [exact Hp2|].
    eapply forest_in_patched; [exact Hp1|].
    eapply forest_in_perm; [|exact Hin].
    intros e He. rewrite forest_edges_cons. right.
    rewrite forest_edges_app, elem_of_app in He.
    rewrite elem_of_app. destruct He as [He|He]; [left|by right].
    by rewrite forest_edges_reverse in He.
  - rewrite fmap_app, fmap_reverse. apply Hlink2.
    + apply NoDup_app. split; [|split].
      * eapply sublist_NoDup; [exact Hnd|].
        apply sublist_inserts_r, forest_roots_sublist.
      * intros x Hx Hx'. apply NoDup_app in Hnd as (_ & Hdisj & _).
        eapply Hdisj; by apply forest_roots_nodes.
      * eapply sublist_NoDup; [exact Hnd|].
        apply sublist_inserts_l, forest_roots_sublist.
    + apply linked_insert_ne; [|done].
      intros Hx. apply Ha_notin. apply elem_of_app. right.
      by apply forest_roots_nodes.
  - exists s'. split; [done|].
    split; [rewrite Htr', Htr2; simpl; by rewrite <- !app_assoc|].
    split; [|by rewrite Hfr', Hfr2].
    pose proof (linked_head _ _ _ Hl) as Hhd.
    intros p.
    pose proof (patched_trans _ _ _ _ _ Hp1
                  (patched_trans _ _ _ _ _ Hp2 Hp') p) as Hp.
    rewrite Hp. unfold patch_both. simpl. by rewrite Hhd.
Qed.

(** ** What the walk logs *)

Lemma visited_app tr1 tr2 : visited (tr1 ++ tr2) = visited tr1 ++ visited tr2.
Proof. apply omap_app. Qed.

Lemma dropped_app tr1 tr2 : dropped (tr1 ++ tr2) = dropped tr1 ++ dropped tr2.
Proof. apply omap_app. Qed.

Lemma visited_drops l : visited (Ev_d_drop <$> l) = [].
Proof. induction l; simpl; done. Qed.

Lemma dropped_drops l : dropped (Ev_d_drop <$> l) = l.
Proof. induction l as [|x l IH]; [done|]. simpl. f_equal. exact IH. Qed.

Lemma forest_step_length a kids rest :
  length (forest_nodes (DNode a kids :: rest))
  = S (length (forest_nodes (reverse kids ++ rest))).
Proof. by rewrite forest_nodes_step. Qed.

Lemma visited_walk_events n ts :
  (length (forest_nodes ts) ≤ n)%nat →
  visited (walk_events n ts) ≡ₚ forest_nodes ts.
Proof.
  revert ts. induction n as [|n IH]; intros [|[a kids] rest] Hsize;
    try done; try (rewrite forest_step_length in Hsize; lia).
  rewrite forest_nodes_step. rewrite forest_step_length in Hsize.
  cbn [walk_events]. change (Ev_visit a :: ?l) with ([Ev_visit a] ++ l).
  rewrite !visited_app, visited_drops. simpl. f_equiv. apply IH. lia.
Qed.

Lemma dropped_walk_events n ts :
  (length (forest_nodes ts) ≤ n)%nat →
  dropped (walk_events n ts) ≡ₚ forest_below ts.
Proof.
  revert ts. induction n as [|n IH]; intros [|[a kids] rest] Hsize;
    try done; try (rewrite forest_step_length in Hsize; lia).
  rewrite forest_below_step. rewrite forest_step_length in Hsize.
  cbn [walk_events]. change (Ev_visit a :: ?l) with ([Ev_visit a] ++ l).
  rewrite !dropped_app, dropped_drops. simpl. f_equiv. apply IH. lia.
Qed.

Lemma walk_events_kind n ts : Forall walk_event (walk_events n ts).
Proof.
  revert ts. induction n as [|n IH]; intros [|[a kids] rest]; try constructor.
  - done.
  - apply Forall_app. split; [|apply IH].
    apply Forall_fmap, Forall_true. done.
Qed.

Lemma walk_event_tables evs :
  Forall walk_event evs →
  tables_allocated evs = [] ∧ tables_freed evs = []
  ∧ filter is_kfree evs = [] ∧ filter is_printk evs = [].
Proof.
  induction 1 as [|e evs He _ (IH1 & IH2 & IH3 & IH4)]; [done|].
  unfold tables_allocated, tables_freed in *.
  destruct e; try done; simpl in *; rewrite ?IH1, ?IH2; split_and!; try done.
Qed.

(** ** What the walk stores *)

Lemma push_patches_outside kids prev p :
  p ∉ kids → push_patches kids prev p = patch_none.
Proof.
  revert prev. induction kids as [|k kids IH]; intros prev Hp; [done|].
  apply not_elem_of_cons in Hp as [Hne Hp]. simpl.
  rewrite IH by done. unfold patch_at. by rewrite decide_False.
Qed.

Lemma push_patches_op kids prev p : dp_op (push_patches kids prev p) = false.
Proof.
  revert prev. induction kids as [|k kids IH]; intros prev; [done|].
  simpl. rewrite IH. unfold patch_at. by case_decide.
Qed.

Lemma push_patches_inside kids prev p :
  p ∈ kids → dp_unhashed (push_patches kids prev p) = true.
Proof.
  revert prev. induction kids as [|k kids IH]; intros prev Hp.
  - by apply elem_of_nil in Hp.
  - simpl. unfold patch_at. case_decide as Hk; [done|].
    apply elem_of_cons in Hp as [?|Hp]; [done|]. simpl. by apply IH.
Qed.

Lemma walk_patch_outside n ts p :
  p ∉ forest_nodes ts → walk_patch n ts p = patch_none.
Proof.
  revert ts. induction n as [|n IH]; intros [|[a kids] rest] Hp; try done.
  rewrite forest_nodes_step in Hp.
  apply not_elem_of_cons in Hp as [Hne Hp].
  cbn [walk_patch]. rewrite IH by done.
  rewrite push_patches_outside.
  - unfold patch_at. by rewrite decide_False.
  - intros Hk. apply Hp. apply forest_roots_nodes.
    rewrite fmap_app, fmap_reverse, elem_of_app, elem_of_reverse. by left.
Qed.

Lemma walk_patch_op n ts p :
  (length (forest_nodes ts) ≤ n)%nat → p ∈ forest_nodes ts →
  dp_op (walk_patch n ts p) = true.
Proof.
  revert ts. induction n as [|n IH]; intros [|[a kids] rest] Hsize Hp;
    try (by apply elem_of_nil in Hp);
    try (rewrite forest_step_length in Hsize; lia).
  rewrite forest_nodes_step in Hp. rewrite forest_step_length in Hsize.
  cbn [walk_patch]. simpl. unfold patch_at. case_decide as Ha; [done|].
  apply elem_of_cons in Hp as [?|Hp]; [done|].
  rewrite IH by (done || lia). simpl. apply orb_true_r.
Qed.

Lemma walk_patch_unhashed n ts p :
  (length (forest_nodes ts) ≤ n)%nat → p ∈ forest_below ts →
  dp_unhashed (walk_patch n ts p) = true.
Proof.
  revert ts. induction n as [|n IH]; intros [|[a kids] rest] Hsize Hp;
    try (by apply elem_of_nil in Hp);
    try (rewrite forest_step_length in Hsize; lia).
  rewrite forest_below_step in Hp. rewrite forest_step_length in Hsize.
  cbn [walk_patch]. simpl.
  apply elem_of_app in Hp as [Hp|Hp].
  - rewrite push_patches_inside by done. simpl. apply orb_true_r.
  - rewrite IH by (done || lia). rewrite !orb_true_r. done.
Qed.

(** An address that is not below a root is neither dropped nor
    rechained. *)
Lemma walk_patch_root n ts p :
  p ∉ forest_below ts →
  dp_unhashed (walk_patch n ts p) = false ∧ dp_fsdata (walk_patch n ts p) = None.
Proof.
  revert ts. induction n as [|n IH]; intros [|[a kids] rest] Hp; try done.
  rewrite forest_below_step in Hp.
  apply not_elem_of_app in Hp as [Hk Hp].
  cbn [walk_patch]. destruct (IH _ Hp) as [IH1 IH2].
  rewrite push_patches_outside by done.
  simpl. rewrite IH1, IH2. unfold patch_at. by case_decide.
Qed.

(** ** Loops that store the same value at every address of a list *)

Section patch_in.
Context `{PatchLaws R P}.
Implicit Types (m : gmap ptr R).

Lemma patched_sem (c1 c2 : ptr → P) m m' :
  (∀ p r, patch (c1 p) r = patch (c2 p) r) → patched c1 m m' → patched c2 m m'.
Proof.
  intros Hc Hp p. rewrite Hp. destruct (m !! p); simpl; [|done].
  by rewrite Hc.
Qed.

Lemma patched_in_nil m (a : P) : patched (patch_in [] a) m m.
Proof.
  eapply patched_sem; [|apply patched_refl]. intros p r.
  unfold patch_in. rewrite decide_False; [done|]. apply not_elem_of_nil.
Qed.

Lemma patched_in_cons m1 m2 m3 q (a : P) l :
  patched (patch_at q a) m1 m2 → patched (patch_in l a) m2 m3 →
  patched (patch_in (q :: l) a) m1 m3.
Proof.
  intros H12 H23. eapply patched_sem; [|by eapply patched_trans].
  intros p r. unfold patch_both, patch_at, patch_in.
  rewrite patch_seq_eq.
  destruct (decide (p = q)) as [->|Hne].
  - rewrite (decide_True (P := q ∈ q :: l)) by left.
    case_decide; [apply patch_idem|apply patch_none_id].
  - rewrite patch_none_id.
    destruct (decide (p ∈ l)) as [Hin|Hout].
    + rewrite decide_True; [done|]. by right.
    + rewrite decide_False; [done|]. by apply not_elem_of_cons.
Qed.

Lemma patched_in_lookup m m' l (a : P) p :
  patched (patch_in l a) m m' → p ∈ l → m' !! p = patch a <$> m !! p.
Proof. intros Hp Hl. rewrite Hp. unfold patch_in. by rewrite decide_True. Qed.

End patch_in.

Lemma kill_files_spec files dummy s :
  Forall (λ f, is_Some (file_mem s !! f)) files →
  ∃ m', kill_files files dummy s = Some (set_file_mem (λ _, m') s)
    ∧ patched (patch_in files (Some {| f_op := dummy |})) (file_mem s) m'.
Proof.
  revert s. induction files as [|f files IH]; intros s Hall.
  - exists (file_mem s). split; [by destruct s|]. apply patched_in_nil.
  - apply Forall_cons in Hall as [[f0 Hf] Hall].
    simpl. rewrite Hf. simpl.
    destruct (IH (set_file_mem <[f := {| f_op := dummy |}]> s)) as (m' & -> & Hp).
    { simpl. eapply Forall_impl; [exact Hall|]. simpl. intros x Hx.
      rewrite lookup_insert. case_decide; [by eexists|done]. }
    exists m'. split; [done|].
    eapply patched_in_cons; [|exact Hp].
    exact (patched_insert (file_mem s) f f0 (Some {| f_op := dummy |}) Hf).
Qed.

Lemma clear_pfo_spec l s :
  Forall (λ t, is_Some (pfo_mem s !! t)) l →
  ∃ m', clear_pfo l s = Some (set_pfo_mem (λ _, m') s)
    ∧ patched (patch_in l (Once true)) (pfo_mem s) m'.
Proof.
  revert s. induction l as [|t l IH]; intros s Hall.
  - exists (pfo_mem s). split; [by destruct s|]. exact (patched_in_nil (pfo_mem s) (Once true)).
  - apply Forall_cons in Hall as [[fo Hfo] Hall].
    simpl. rewrite Hfo. simpl.
    destruct (IH (set_pfo_mem <[t := clear_file_operations fo]> s)) as (m' & -> & Hp).
    { simpl. eapply Forall_impl; [exact Hall|]. simpl. intros x Hx.
      rewrite lookup_insert. case_decide; [by eexists|done]. }
    exists m'. split; [done|].
    eapply patched_in_cons; [|exact Hp].
    exact (patched_insert (pfo_mem s) t fo (Once true) Hfo).
Qed.

Lemma clear_pio_spec l s :
  Forall (λ t, is_Some (pio_mem s !! t)) l →
  ∃ m', clear_pio l s = Some (set_pio_mem (λ _, m') s)
    ∧ patched (patch_in l (Once true)) (pio_mem s) m'.
Proof.
  revert s. induction l as [|t l IH]; intros s Hall.
  - exists (pio_mem s). split; [by destruct s|]. exact (patched_in_nil (pio_mem s) (Once true)).
  - apply Forall_cons in Hall as [[io Hio] Hall].
    simpl. rewrite Hio. simpl.
    destruct (IH (set_pio_mem <[t := clear_inode_operations io]> s)) as (m' & -> & Hp).
    { simpl. eapply Forall_impl; [exact Hall|]. simpl. intros x Hx.
      rewrite lookup_insert. case_decide; [by eexists|done]. }
    exists m'. split; [done|].
    eapply patched_in_cons; [|exact Hp].
    exact (patched_insert (pio_mem s) t io (Once true) Hio).
Qed.

(** ** Shapes *)

Lemma shape_sb_lookup s sb ty files root :
  sh_sb (shape_of s) !! sb = Some (ty, files, root) →
  ∃ sbr, sb_mem s !! sb = Some sbr ∧ s_type sbr = ty
         ∧ s_files sbr = files ∧ s_root sbr = root.
Proof.
  simpl. rewrite lookup_fmap. destruct (sb_mem s !! sb) as [sbr|]; [|done].
  intros [= <- <- <-]. by exists sbr.
Qed.

Lemma shape_dentry_subdirs s a ks :
  fst <$> sh_dentry (shape_of s) !! a = Some ks →
  d_subdirs <$> dentry_mem s !! a = Some ks.
Proof.
  simpl. rewrite lookup_fmap. by destruct (dentry_mem s !! a).
Qed.

Lemma shape_dentry_inode s a ino :
  snd <$> sh_dentry (shape_of s) !! a = Some ino →
  d_inode <$> dentry_mem s !! a = Some ino.
Proof.
  simpl. rewrite lookup_fmap. by destruct (dentry_mem s !! a).
Qed.

Lemma patched_vfs_shape c s s' : patched_vfs c s s' → shape_of s' = shape_of s.
Proof.
  intros (Hf & Hs & Hd & Hi & _). unfold shape_of. f_equal.
  - eapply patched_shape; [|exact Hs]. by intros [[]] [].
  - eapply patched_shape; [|exact Hd]. by intros [] [].
  - by eapply patched_dom.
  - by eapply patched_dom.
Qed.

Lemma patched_vfs_refl s : patched_vfs vfs_patches_none s s.
Proof. split_and!; try done; apply patched_refl. Qed.

Lemma patched_vfs_trans c1 c2 s1 s2 s3 :
  patched_vfs c1 s1 s2 → patched_vfs c2 s2 s3 →
  patched_vfs (vfs_patches_seq c1 c2) s1 s3.
Proof.
  intros (Hf & Hs & Hd & Hi & Hfr) (Hf' & Hs' & Hd' & Hi' & Hfr').
  split_and!; try (by eapply patched_trans). by rewrite Hfr'.
Qed.

(** Running the same patches twice leaves the second result equal to
    the first in every heap they touch. *)
Lemma patched_vfs_idem c s1 s2 s3 :
  patched_vfs c s1 s2 → patched_vfs c s2 s3 →
  file_mem s3 = file_mem s2 ∧ sb_mem s3 = sb_mem s2
  ∧ dentry_mem s3 = dentry_mem s2 ∧ inode_mem s3 = inode_mem s2.
Proof.
  intros (Hf & Hs & Hd & Hi & _) (Hf' & Hs' & Hd' & Hi' & _).
  split_and!; by eapply patched_idem.
Qed.

(** ** proclikefs_kill_super on a well-formed superblock *)

Lemma tree_root_edge t : (droot t, droot <$> dkids t) ∈ forest_edges [t].
Proof. destruct t as [a kids]. rewrite forest_edges_cons. left. Qed.

Lemma kill_super_spec fuel sb dummy s t files ino :
  super_at (shape_of s) sb t files ino →
  (length (forest_nodes [t]) ≤ fuel)%nat →
  ∃ s', proclikefs_kill_super fuel sb dummy s = Some s'
    ∧ trace s' = trace s ++ walk_events fuel [t]
    ∧ patched_vfs (kill_super_patches fuel sb t files ino dummy) s s'.
Proof.
  intros ([ty Hsb] & Hfiles & Hnd & Hedges & Hino & Hidom) Hsize.
  destruct (shape_sb_lookup _ _ _ _ _ Hsb) as (sbr & Hsbr & _ & Hsf & Hsr).
  assert (forest_in (dentry_mem s) [t]) as Hin.
  { intros a ks Ha. apply shape_dentry_subdirs. by apply Hedges. }
  destruct (forest_in_valid _ _ (droot t) Hin) as [r Hr].
  { apply forest_roots_nodes. simpl. left. }
  apply shape_dentry_inode in Hino. rewrite Hr in Hino. simpl in Hino.
  injection Hino as Hino.
  simpl in Hidom. apply elem_of_dom in Hidom as [i0 Hi0].
  unfold proclikefs_kill_super. rewrite Hsbr. simpl. rewrite Hsf, Hsr.
  destruct (kill_files_spec files dummy s) as (mf & -> & Hpf).
  { eapply Forall_impl; [exact Hfiles|]. simpl. intros f Hf.
    by apply elem_of_dom. }
  simpl. rewrite Hr. simpl.
  match goal with
  | |- context [kill_dentries ?f ?d ?st] =>
      set (s3 := st);
      assert (patched (patch_at (droot t) root_patch) (dentry_mem s) (dentry_mem s3))
        as Hp3 by exact (patched_insert (dentry_mem s) (droot t) r root_patch Hr);
      destruct (kill_dentries_spec f [t] s3 d) as (s4 & Hrun & Htr4 & Hp4 & Hfr4)
  end.
  - done.
  - done.
  - by eapply forest_in_patched.
  - simpl. split; [done|]. eexists. rewrite lookup_insert_eq. done.
  - rewrite Hrun. simpl.
    pose proof (patched_trans _ _ _ _ _ Hp3 Hp4) as Hpd.
    assert (dentry_mem s4 !! droot t = patch (patch_both (patch_at (droot t) root_patch)
              (walk_patch fuel [t]) (droot t)) <$> Some r) as Hr4
      by (by rewrite <- Hr, <- Hpd).
    rewrite Hr4. simpl. rewrite Hino. simpl.
    assert (inode_mem s4 = inode_mem s) as Hi4
      by exact (f_equal inode_mem Hfr4).
    rewrite Hi4, Hi0. simpl.
    eexists. split; [done|]. simpl. split; [by rewrite Htr4|].
    pose proof (f_equal file_mem Hfr4) as E1.
    pose proof (f_equal sb_mem Hfr4) as E2. simpl in E1, E2.
    split_and!; simpl.
    + by rewrite E1.
    + rewrite E2.
      exact (patched_insert (sb_mem s) sb sbr (Once true) Hsbr).
    + done.
    + rewrite Hi4.
      exact (patched_insert (inode_mem s) ino i0
               (Some {| i_op := iop_proclikefs_null_root |}) Hi0).
    + destruct s4; simpl in *.
      by injection Hfr4 as -> -> -> -> -> -> -> -> -> -> ->.
Qed.

(** The same with the patches chosen before the state: any state of
    that shape is taken to a state of that shape, by patches that the
    shape alone determines. *)
Lemma kill_super_patched fuel sb dummy sh :
  super_ok fuel sh sb →
  ∃ c, ∀ s, shape_of s = sh →
    ∃ s' evs, proclikefs_kill_super fuel sb dummy s = Some s'
      ∧ trace s' = trace s ++ evs ∧ Forall walk_event evs
      ∧ patched_vfs c s s'.
Proof.
  intros (t & files & ino & Hat & Hsize).
  exists (kill_super_patches fuel sb t files ino dummy). intros s <-.
  destruct (kill_super_spec fuel sb dummy s t files ino) as (s' & Hrun & Htr & Hp);
    [done..|].
  exists s', (walk_events fuel [t]). split_and!; try done.
  apply walk_events_kind.
Qed.

Lemma kill_supers_patched fuel l dummy sh :
  Forall (super_ok fuel sh) l →
  ∃ c, ∀ s, shape_of s = sh →
    ∃ s' evs, kill_supers fuel l dummy s = Some s'
      ∧ trace s' = trace s ++ evs ∧ Forall walk_event evs
      ∧ patched_vfs c s s'.
Proof.
  induction 1 as [|sb l Hsb _ [c2 IH]].
  - exists vfs_patches_none. intros s _. exists s, []. simpl.
    rewrite app_nil_r. split_and!; try done. apply patched_vfs_refl.
  - destruct (kill_super_patched fuel sb dummy sh Hsb) as [c1 H1].
    exists (vfs_patches_seq c1 c2). intros s Hs.
    destruct (H1 s Hs) as (s1 & evs1 & Hrun1 & Htr1 & Hk1 & Hp1).
    destruct (IH s1) as (s2 & evs2 & Hrun2 & Htr2 & Hk2 & Hp2).
    { rewrite <- Hs. by eapply patched_vfs_shape. }
    exists s2, (evs1 ++ evs2). simpl. rewrite Hrun1. simpl.
    split; [done|]. split; [by rewrite Htr2, Htr1, app_assoc|].
    split; [by apply Forall_app|]. by eapply patched_vfs_trans.
Qed.

(** ** proclikefs_unregister_filesystem *)

Lemma Forall_is_Some_patched `{PatchLaws R P} (c : ptr → P) (m m' : gmap ptr R) l :
  patched c m m' →
  Forall (λ t, is_Some (m !! t)) l → Forall (λ t, is_Some (m' !! t)) l.
Proof.
  intros Hp Hall. eapply Forall_impl; [exact Hall|].
  intros t Ht. by apply (patched_is_Some c m m').
Qed.

(** The patches of the superblock walk are fixed by the shape; any state
    of that shape holding a block with these three lists is taken by
    unregister to [unregistered], patched. *)
Lemma unregister_patched fuel pfs supers pfo pio sh :
  Forall (super_ok fuel sh) supers →
  ∃ c, ∀ s fs,
    shape_of s = sh → pfs_mem s !! pfs = Some fs →
    fs_supers fs = supers → pfs_pfo fs = pfo → pfs_pio fs = pio →
    Forall (λ t, is_Some (pfo_mem s !! t)) pfo →
    Forall (λ t, is_Some (pio_mem s !! t)) pio →
    ∃ mo mi s' evs,
      proclikefs_unregister_filesystem fuel (Some pfs) s = Some s'
      ∧ trace s' = trace s ++ evs ∧ Forall walk_event evs
      ∧ patched (patch_in pfo (Once true)) (pfo_mem s) mo
      ∧ patched (patch_in pio (Once true)) (pio_mem s) mi
      ∧ patched_vfs c (unregistered pfs fs mo mi s) s'.
Proof.
  intros Hsup.
  destruct (kill_supers_patched fuel supers (head pfo) sh Hsup) as [c Hc].
  exists c. intros s fs Hsh Hfs <- <- <- Hvo Hvi.
  unfold proclikefs_unregister_filesystem. rewrite Hfs. simpl.
  destruct (clear_pfo_spec (pfs_pfo fs) s Hvo) as (mo & -> & Hmo). simpl.
  destruct (clear_pio_spec (pfs_pio fs) (set_pfo_mem (λ _, mo) s) Hvi)
    as (mi & -> & Hmi). simpl.
  destruct (Hc (set_pio_mem (λ _, mi) (set_pfo_mem (λ _, mo) s)) Hsh)
    as (s' & evs & -> & Htr & Hev & Hpv).
  simpl.
  destruct Hpv as (Hf & Hs & Hd & Hi & Hfr).
  assert (pfs_mem s' = pfs_mem s) as Hpm by exact (f_equal pfs_mem Hfr).
  exists mo, mi, (MOD_DEC_USE_COUNT (set_pfs_mem <[pfs := set_live 0 fs]> s')), evs.
  split; [by rewrite Hpm, Hfs|].
  split; [done|]. split; [done|]. split; [done|]. split; [done|].
  split_and!; try done.
  unfold unregistered. clear Hpm.
  destruct s'; simpl in *.
  by injection Hfr as -> -> -> -> -> -> -> ->.
Qed.

Lemma unregister_ready_patched fuel s pfs fs :
  unregister_ready fuel s pfs fs →
  ∃ c mo mi s' evs,
    proclikefs_unregister_filesystem fuel (Some pfs) s = Some s'
    ∧ trace s' = trace s ++ evs ∧ Forall walk_event evs
    ∧ patched (patch_in (pfs_pfo fs) (Once true)) (pfo_mem s) mo
    ∧ patched (patch_in (pfs_pio fs) (Once true)) (pio_mem s) mi
    ∧ patched_vfs c (unregistered pfs fs mo mi s) s'.
Proof.
  intros (Hfs & Hvo & Hvi & Hsup).
  destruct (unregister_patched fuel pfs _ (pfs_pfo fs) (pfs_pio fs) _ Hsup)
    as [c Hc].
  exists c. by apply Hc.
Qed.

(** What is left of the state after [patched_vfs]. *)
Lemma patched_vfs_frame c s s' :
  patched_vfs c s s' →
  fs_list s' = fs_list s ∧ pfs_mem s' = pfs_mem s ∧ pfo_mem s' = pfo_mem s
  ∧ pio_mem s' = pio_mem s ∧ module_use_count s' = module_use_count s
  ∧ brk s' = brk s
  ∧ proclikefs_null_super_operations s' = proclikefs_null_super_operations s
  ∧ proclikefs_null_root_inode_operations s' = proclikefs_null_root_inode_operations s.
Proof.
  intros (_ & _ & _ & _ & Hfr).
  split_and!.
  - exact (f_equal fs_list Hfr).
  - exact (f_equal pfs_mem Hfr).
  - exact (f_equal pfo_mem Hfr).
  - exact (f_equal pio_mem Hfr).
  - exact (f_equal module_use_count Hfr).
  - exact (f_equal brk Hfr).
  - exact (f_equal proclikefs_null_super_operations Hfr).
  - exact (f_equal proclikefs_null_root_inode_operations Hfr).
Qed.

Lemma clear_file_operations_slots fo k :
  fo_get k (clear_file_operations fo) = fo_poisoned fo k.
Proof. by destruct k. Qed.

Lemma clear_inode_operations_slots io k :
  io_get k (clear_inode_operations io) = io_poisoned io k.
Proof. by destruct k. Qed.


(** ** Counting *)

Lemma occurrences_perm `{EqDecision A} (x : A) l k :
  l ≡ₚ k → occurrences x l = occurrences x k.
Proof. intros Hp. unfold occurrences. by rewrite Hp. Qed.

Lemma occurrences_notin `{EqDecision A} (x : A) l :
  x ∉ l → occurrences x l = 0%nat.
Proof.
  intros Hx. unfold occurrences. induction l as [|y l IH]; [done|].
  apply not_elem_of_cons in Hx as [Hne Hx].
  rewrite filter_cons_False by done. by apply IH.
Qed.

Lemma occurrences_NoDup `{EqDecision A} (x : A) l :
  NoDup l → x ∈ l → occurrences x l = 1%nat.
Proof.
  intros Hnd Hx. induction Hnd as [|y l Hy Hnd IH]; [by apply elem_of_nil in Hx|].
  unfold occurrences in *. destruct (decide (y = x)) as [->|Hne].
  - rewrite filter_cons_True by done. simpl. f_equal.
    by apply occurrences_notin.
  - rewrite filter_cons_False by done.
    apply elem_of_cons in Hx as [?|Hx]; [done|]. by apply IH.
Qed.

(** ** The dentry walk of one superblock *)

Lemma init_module_null_root s impl :
  proclikefs_null_root_inode_operations s
  = proclikefs_null_root_inode_operations (init_module boot) →
  ∀ k, call_slot impl RT_ptr (io_get k (proclikefs_null_root_inode_operations s))
       = if decide (k = IO_lookup) then Some (- ENOENT) else None.
Proof. intros -> k. by destruct k. Qed.

Lemma dtree_forall_ind (P : dtree → Prop) :
  (∀ a kids, Forall P kids → P (DNode a kids)) → ∀ t, P t.
Proof.
  intros H. fix IH 1. intros [a kids]. apply H.
  induction kids as [|k kids IHk]; constructor; [apply IH|exact IHk].
Qed.

(** Every node below the root of a tree is a child in one of its edges. *)
Lemma tree_below_parent t p :
  p ∈ forest_nodes (dkids t) → ∃ a ks, (a, ks) ∈ tree_edges t ∧ p ∈ ks.
Proof.
  revert p. induction t as [a kids IH] using dtree_forall_ind. intros p Hp.
  simpl in Hp. unfold forest_nodes, forest_edges in Hp.
  apply list_elem_of_fmap in Hp as [[b ks] [-> Hin]]. simpl.
  apply list_elem_of_bind in Hin as (k & Hin & Hk).
  destruct k as [c kk]. simpl in Hin.
  apply elem_of_cons in Hin as [[= -> ->]|Hin].
  - exists a, (droot <$> kids). split; [left|].
    apply list_elem_of_fmap. by exists (DNode c kk).
  - destruct (proj1 (Forall_forall _ _) IH _ Hk b) as (a' & ks' & He & Hb).
    { simpl. unfold forest_nodes, forest_edges.
      apply list_elem_of_fmap. by exists (b, ks). }
    exists a', ks'. split; [|done]. right.
    apply list_elem_of_bind. by exists (DNode c kk).
Qed.

(** C2, as the code has it: on a superblock whose dentries form a tree,
    the walk of [proclikefs_kill_super] ends, goes through every node of
    the tree exactly once and through nothing else; every node but the
    root is unhashed by one [d_drop] and has [d_op] cleared; no node is
    taken off its parent's [d_subdirs] list, so every node but the root
    is still a child of its parent; the root is never dropped, nothing
    is freed, the root keeps its place in memory, its hash state, its
    children and its inode, and that inode is given the null-root
    operations, whose only entry point, [lookup], fails with
    [-ENOENT]. *)
Theorem kill_super_walks_tree_once fuel sb dummy s t files ino :
  super_at (shape_of s) sb t files ino →
  (length (forest_nodes [t]) ≤ fuel)%nat →
  proclikefs_null_root_inode_operations s
  = proclikefs_null_root_inode_operations (init_module boot) →
  ∃ s' evs, proclikefs_kill_super fuel sb dummy s = Some s'
    ∧ trace s' = trace s ++ evs
    ∧ (∀ p, p ∈ forest_nodes [t] → occurrences p (visited evs) = 1%nat)
    ∧ (∀ p, p ∉ forest_nodes [t] → occurrences p (visited evs) = 0%nat)
    ∧ (∀ p, p ∈ forest_nodes [t] → p ≠ droot t →
         occurrences p (dropped evs) = 1%nat
         ∧ ∃ d, dentry_mem s' !! p = Some d
                ∧ d_op d = None ∧ d_unhashed d = true)
    ∧ occurrences (droot t) (dropped evs) = 0%nat
    ∧ filter is_kfree evs = []
    ∧ forest_in (dentry_mem s') [t]
    ∧ (∀ p, p ∈ forest_nodes [t] → p ≠ droot t → ¬ detached (dentry_mem s') p)
    ∧ (∃ r r', dentry_mem s !! droot t = Some r
               ∧ dentry_mem s' !! droot t = Some r'
               ∧ d_op r' = None
               ∧ d_unhashed r' = d_unhashed r
               ∧ d_subdirs r' = d_subdirs r
               ∧ d_inode r' = Some ino)
    ∧ inode_mem s' !! ino = Some {| i_op := iop_proclikefs_null_root |}
    ∧ (∀ impl k,
         call_slot impl RT_ptr
           (io_get k (proclikefs_null_root_inode_operations s'))
         = if decide (k = IO_lookup) then Some (- ENOENT) else None).
Proof.
  intros Hat Hsize Hinit.
  destruct (kill_super_spec fuel sb dummy s t files ino Hat Hsize)
    as (s' & Hrun & Htr & Hpv).
  pose proof (patched_vfs_shape _ _ _ Hpv) as Hshape.
  pose proof (patched_vfs_frame _ _ _ Hpv) as (_ & _ & _ & _ & _ & _ & _ & Hstat).
  destruct Hpv as (_ & _ & Hpd & Hpi & _).
  destruct Hat as (_ & _ & Hnd & Hedges & Hino & Hidom).
  pose proof (visited_walk_events fuel [t] Hsize) as Hvis.
  pose proof (dropped_walk_events fuel [t] Hsize) as Hdrop.
  pose proof (forest_nodes_split [t]) as Hsplit. simpl in Hsplit.
  assert (droot t ∉ forest_below [t]) as Hroot.
  { rewrite Hsplit in Hnd. by apply NoDup_cons in Hnd as [? _]. }
  assert (NoDup (forest_below [t])) as Hndb.
  { rewrite Hsplit in Hnd. by apply NoDup_cons in Hnd as [_ ?]. }
  assert (forest_in (dentry_mem s) [t]) as Hin.
  { intros a ks Ha. apply shape_dentry_subdirs. by apply Hedges. }
  exists s', (walk_events fuel [t]). split; [done|]. split; [done|].
  split.
  { intros p Hp. rewrite (occurrences_perm _ _ _ Hvis).
    by apply occurrences_NoDup. }
  split.
  { intros p Hp. rewrite (occurrences_perm _ _ _ Hvis).
    by apply occurrences_notin. }
  split.
  { intros p Hp Hne.
    assert (p ∈ forest_below [t]) as Hb.
    { rewrite Hsplit in Hp. by apply elem_of_cons in Hp as [?|?]. }
    split.
    { rewrite (occurrences_perm _ _ _ Hdrop). by apply occurrences_NoDup. }
    destruct (forest_in_valid _ _ p Hin Hp) as [d Hd].
    eexists. split; [by rewrite Hpd, Hd|].
    simpl. unfold patch_both, patch_at. rewrite decide_False by done. simpl.
    rewrite walk_patch_op, walk_patch_unhashed by done. done. }
  split.
  { rewrite (occurrences_perm _ _ _ Hdrop). by apply occurrences_notin. }
  split.
  { apply walk_event_tables, walk_events_kind. }
  assert (forest_in (dentry_mem s') [t]) as Hin'.
  { intros a ks Ha. apply shape_dentry_subdirs. rewrite Hshape. by apply Hedges. }
  split; [exact Hin'|].
  split.
  { intros p Hp Hne Hdet.
    assert (p ∈ forest_nodes (dkids t)) as Hb.
    { rewrite Hsplit in Hp. apply elem_of_cons in Hp as [?|Hp]; [done|].
      unfold forest_below in Hp. simpl in Hp. by rewrite app_nil_r in Hp. }
    destruct (tree_below_parent t p Hb) as (a & ks & He & Hk).
    specialize (Hin' a ks). unfold forest_edges in Hin'. simpl in Hin'.
    rewrite app_nil_r in Hin'. specialize (Hin' He).
    destruct (dentry_mem s' !! a) as [d|] eqn:Hd; [|done].
    injection Hin' as <-. exact (Hdet a d Hd Hk). }
  split.
  { destruct (forest_in_valid _ _ (droot t) Hin) as [r Hr].
    { apply forest_roots_nodes. simpl. left. }
    exists r. eexists. split; [done|]. split; [by rewrite Hpd, Hr|].
    apply shape_dentry_inode in Hino. rewrite Hr in Hino.
    injection Hino as Hino.
    simpl. unfold patch_both, patch_at. rewrite decide_True by done. simpl.
    destruct (walk_patch_root fuel [t] (droot t) Hroot) as [-> _].
    rewrite walk_patch_op; [done|done|].
    apply forest_roots_nodes. simpl. left. }
  split.
  { simpl in Hidom. apply elem_of_dom in Hidom as [i0 Hi0].
    rewrite Hpi, Hi0. simpl. unfold patch_at. by rewrite decide_True. }
  intros impl k. apply init_module_null_root. by rewrite Hstat.
Qed.

(** ** Unregistering twice *)

(** C8: a second unregister of a file system that is already retired
    runs the poisoning and the superblock walks again and ends with the
    tables, files, superblocks, dentries and inodes exactly as the first
    left them; the file system stays retired and on [fs_list].  (The
    module use count is dropped once more.) *)
Theorem unregister_twice_same_state fuel s pfs fs :
  unregister_ready fuel s pfs fs →
  ∃ s1 s2,
    proclikefs_unregister_filesystem fuel (Some pfs) s = Some s1
    ∧ proclikefs_unregister_filesystem fuel (Some pfs) s1 = Some s2
    ∧ pfo_mem s2 = pfo_mem s1 ∧ pio_mem s2 = pio_mem s1
    ∧ file_mem s2 = file_mem s1 ∧ sb_mem s2 = sb_mem s1
    ∧ dentry_mem s2 = dentry_mem s1 ∧ inode_mem s2 = inode_mem s1
    ∧ pfs_mem s1 !! pfs = Some (set_live 0 fs)
    ∧ pfs_mem s2 = pfs_mem s1
    ∧ fs_list s2 = fs_list s1 ∧ fs_list s1 = fs_list s
    ∧ module_use_count s1 = module_use_count s - 1
    ∧ module_use_count s2 = module_use_count s1 - 1.
Proof.
  intros (Hfs & Hvo & Hvi & Hsup).
  destruct (unregister_patched fuel pfs _ (pfs_pfo fs) (pfs_pio fs) _ Hsup)
    as [c Hc].
  destruct (Hc s fs) as (mo & mi & s1 & evs & Hrun1 & _ & _ & Hmo & Hmi & Hpv1);
    [done..|].
  pose proof (patched_vfs_frame _ _ _ Hpv1)
    as (Hl1 & Hpfs1 & Hpfo1 & Hpio1 & Hmc1 & _).
  simpl in Hl1, Hpfs1, Hpfo1, Hpio1, Hmc1.
  destruct (Hc s1 (set_live 0 fs))
    as (mo' & mi' & s2 & evs' & Hrun2 & _ & _ & Hmo' & Hmi' & Hpv2); try done.
  { rewrite (patched_vfs_shape _ _ _ Hpv1). done. }
  { rewrite Hpfs1. apply lookup_insert_eq. }
  { rewrite Hpfo1. by eapply Forall_is_Some_patched. }
  { rewrite Hpio1. by eapply Forall_is_Some_patched. }
  pose proof (patched_vfs_frame _ _ _ Hpv2)
    as (Hl2 & Hpfs2 & Hpfo2 & Hpio2 & Hmc2 & _).
  simpl in Hl2, Hpfs2, Hpfo2, Hpio2, Hmc2, Hmo', Hmi'.
  destruct Hpv1 as (Hf1 & Hs1 & Hd1 & Hi1 & _).
  destruct Hpv2 as (Hf2 & Hs2 & Hd2 & Hi2 & _).
  simpl in Hf1, Hs1, Hd1, Hi1, Hf2, Hs2, Hd2, Hi2.
  exists s1, s2. split; [done|]. split; [done|].
  rewrite Hpfo1 in Hmo'. rewrite Hpio1 in Hmi'.
  split_and!.
  - rewrite Hpfo2, Hpfo1. by eapply patched_idem.
  - rewrite Hpio2, Hpio1. by eapply patched_idem.
  - by eapply patched_idem.
  - by eapply patched_idem.
  - by eapply patched_idem.
  - by eapply patched_idem.
  - rewrite Hpfs1. apply lookup_insert_eq.
  - by rewrite Hpfs2, Hpfs1, insert_insert_eq.
  - done.
  - done.
  - done.
  - done.
Qed.

(** ** The machine in use is well formed *)

Lemma shape_of_unregistered pfs fs mo mi s :
  shape_of (unregistered pfs fs mo mi s) = shape_of s.
Proof. done. Qed.

Lemma busy_super : super_at (shape_of busy) 4 busy_tree [] 6.
Proof.
  split_and!.
  - exists 1%positive. vm_compute. reflexivity.
  - constructor.
  - apply (bool_decide_unpack _). vm_compute. exact I.
  - intros a ks Ha.
    assert (Forall (λ e, fst <$> sh_dentry (shape_of busy) !! e.1 = Some e.2)
              (forest_edges [busy_tree])) as Hall
      by (repeat constructor).
    exact (proj1 (Forall_forall _ _) Hall (a, ks) Ha).
  - vm_compute. reflexivity.
  - apply elem_of_dom. vm_compute. by eexists.
Qed.

Lemma busy_ready : unregister_ready 4 busy 1 busy_fs.
Proof.
  split_and!.
  - vm_compute. reflexivity.
  - repeat constructor. vm_compute. by eexists.
  - repeat constructor. vm_compute. by eexists.
  - repeat constructor. exists busy_tree, [], 6%positive.
    split; [apply busy_super|]. vm_compute. lia.
Qed.

Lemma retired_fs :
  pfs_mem retired !! 1%positive = Some (set_live 0 busy_fs)
  ∧ fs_list retired = [1%positive].
Proof. split; vm_compute; reflexivity. Qed.

Lemma retired_ready : unregister_ready 4 retired 1 (set_live 0 busy_fs).
Proof.
  split_and!.
  - vm_compute. reflexivity.
  - repeat constructor. vm_compute. by eexists.
  - repeat constructor. vm_compute. by eexists.
  - repeat constructor. exists busy_tree, [], 6%positive.
    split; [|vm_compute; lia].
    assert (shape_of retired = shape_of busy) as ->; [|apply busy_super].
    destruct (unregister_ready_patched _ _ _ _ busy_ready)
      as (c & mo & mi & s' & evs & Hrun & _ & _ & _ & _ & Hpv).
    unfold retired. rewrite Hrun.
    etrans; [exact (patched_vfs_shape _ _ _ Hpv)|].
    apply shape_of_unregistered.
Qed.

(** ** The claims on the machine in use *)



Lemma kill_super_walks_tree_once_witness :
  ∃ s' evs, proclikefs_kill_super 4 4 (Some 2%positive) busy = Some s'
    ∧ trace s' = trace busy ++ evs
    ∧ (∀ p, p ∈ forest_nodes [busy_tree] → occurrences p (visited evs) = 1%nat)
    ∧ (∀ p, p ∈ forest_nodes [busy_tree] → p ≠ droot busy_tree →
         occurrences p (dropped evs) = 1%nat)
    ∧ occurrences (droot busy_tree) (dropped evs) = 0%nat.
Proof.
  destruct (kill_super_walks_tree_once 4 4 (Some 2%positive) busy busy_tree [] 6)
    as (s' & evs & Hrun & Htr & Hvis & _ & Hdrop & Hroot & _).
  - apply busy_super.
  - vm_compute. lia.
  - vm_compute. reflexivity.
  - exists s', evs.
    split; [exact Hrun|]. split; [exact Htr|]. split; [exact Hvis|].
    split; [|exact Hroot].
    intros p Hp Hne. exact (proj1 (Hdrop p Hp Hne)).
Defined.

(** C2 as it was worded fails on the machine in use: after the walk the
    dropped dentries 8, 7 and 9 are still on the [d_subdirs] lists of
    their parents, and a second walk goes through them and drops them
    again. *)
Lemma dropped_children_stay_attached :
  ∃ s1 s2, proclikefs_kill_super 4 4 (Some 2%positive) busy = Some s1
    ∧ dropped (trace s1) = [8%positive; 7%positive; 9%positive]
    ∧ d_subdirs <$> dentry_mem s1 !! 5%positive = Some [8%positive; 7%positive]
    ∧ d_subdirs <$> dentry_mem s1 !! 7%positive = Some [9%positive]
    ∧ ¬ detached (dentry_mem s1) 8
    ∧ ¬ detached (dentry_mem s1) 7
    ∧ ¬ detached (dentry_mem s1) 9
    ∧ proclikefs_kill_super 4 4 (Some 2%positive) s1 = Some s2
    ∧ dropped (trace s2)
      = [8%positive; 7%positive; 9%positive; 8%positive; 7%positive; 9%positive].
Proof.
  eexists _, _. split; [vm_compute; reflexivity|].
  split; [vm_compute; reflexivity|]. split; [vm_compute; reflexivity|].
  split; [vm_compute; reflexivity|]. split_and!.
  - intros Hdet. eapply (Hdet 5%positive); [vm_compute; reflexivity|].
    apply (bool_decide_unpack _). vm_compute. exact I.
  - intros Hdet. eapply (Hdet 5%positive); [vm_compute; reflexivity|].
    apply (bool_decide_unpack _). vm_compute. exact I.
  - intros Hdet. eapply (Hdet 7%positive); [vm_compute; reflexivity|].
    apply (bool_decide_unpack _). vm_compute. exact I.
  - vm_compute. reflexivity.
  - vm_compute. reflexivity.
Qed.

Lemma unregister_twice_same_state_witness :
  ∃ s1 s2,
    proclikefs_unregister_filesystem 4 (Some 1%positive) busy = Some s1
    ∧ proclikefs_unregister_filesystem 4 (Some 1%positive) s1 = Some s2
    ∧ pfo_mem s2 = pfo_mem s1 ∧ pio_mem s2 = pio_mem s1
    ∧ dentry_mem s2 = dentry_mem s1.
Proof.
  destruct (unregister_twice_same_state 4 busy 1 busy_fs busy_ready)
    as (s1 & s2 & H1 & H2 & H3 & H4 & _ & _ & H5 & _).
  exists s1, s2. exact (conj H1 (conj H2 (conj H3 (conj H4 H5)))).
Defined.

Lemma retired_super :
  sb_mem retired !! 4%positive
  = Some {| s_type := 1; s_files := []; s_op := sop_proclikefs_null;
            s_root := Some 5%positive |}.
Proof. vm_compute. reflexivity. Qed.

Lemma put_super_reclaims_exactly_at_zero_witness :
  ∃ s' evs, proclikefs_put_super 4 retired = Some s'
    ∧ trace s' = trace retired ++ evs
    ∧ evs = [Ev_unregister_filesystem 1; Ev_kfree K_pfo 2; Ev_kfree K_pio 3;
             Ev_kfree K_pfs 1]
    ∧ fs_list s' = [].
Proof.
  destruct (put_super_reclaims_exactly_at_zero retired 4 _ (set_live 0 busy_fs)
              retired_super (proj1 retired_fs))
    as (s' & evs & Hrun & Htr & Hyes & _).
  - repeat constructor. vm_compute. by eexists.
  - repeat constructor. apply not_elem_of_nil.
  - repeat constructor. vm_compute. by eexists.
  - repeat constructor. apply not_elem_of_nil.
  - destruct Hyes as (Hevs & _ & _ & Hl & _); [split; vm_compute; reflexivity|].
    exists s', evs.
    split; [exact Hrun|]. split; [exact Htr|]. split; [exact Hevs|].
    rewrite Hl, (proj2 retired_fs). vm_compute. reflexivity.
Defined.

(** ** Registering a retired name again *)

(** C9: registering the name of a retired file system that is still on
    [fs_list] makes its block live again in place; [nsuper] and both
    table chains are kept, nothing is allocated or freed.  A release
    while it is live again frees nothing.  With one mount outstanding
    from the earlier lifetime, the release that follows the next
    unregister frees each of the old tables once, and the block. *)
Theorem reregister_keeps_count_and_tables fuel o nm flags get_sb s p fs sb sbr :
  registry_allocated s → names_unique s → p ∈ fs_list s →
  name fs = nm → live fs ≤ 0 → try_module_get_ok o = true →
  unregister_ready fuel s p fs → NoDup (pfs_pfo fs) → NoDup (pfs_pio fs) →
  sb_mem s !! sb = Some sbr → s_type sbr = p →
  ∃ s1, proclikefs_register_filesystem o (Some nm) flags get_sb s
        = Some (Some p, s1)
    ∧ (∃ fs1, pfs_mem s1 !! p = Some fs1 ∧ live fs1 = 1
              ∧ nsuper fs1 = nsuper fs ∧ pfs_pfo fs1 = pfs_pfo fs
              ∧ pfs_pio fs1 = pfs_pio fs ∧ name fs1 = name fs)
    ∧ fs_list s1 = fs_list s ∧ pfo_mem s1 = pfo_mem s ∧ pio_mem s1 = pio_mem s
    ∧ brk s1 = brk s ∧ trace s1 = trace s
    ∧ (∃ s1', proclikefs_put_super sb s1 = Some s1'
              ∧ trace s1' = trace s1 ∧ fs_list s1' = fs_list s1
              ∧ pfo_mem s1' = pfo_mem s1 ∧ pio_mem s1' = pio_mem s1)
    ∧ (nsuper fs = 1 →
       ∃ s2 s3 evs,
         proclikefs_unregister_filesystem fuel (Some p) s1 = Some s2
         ∧ proclikefs_put_super sb s2 = Some s3
         ∧ trace s3 = trace s2 ++ evs
         ∧ evs = Ev_unregister_filesystem p
                   :: (Ev_kfree K_pfo <$> pfs_pfo fs)
                   ++ (Ev_kfree K_pio <$> pfs_pio fs)
                   ++ [Ev_kfree K_pfs p]
         ∧ NoDup evs
         ∧ p ∉ fs_list s3).
Proof.
  intros Hall Huniq Hp Hnm Hlive Ho Hready Hnd1 Hnd2 Hsb Hty.
  pose proof Hready as (Hfs & Hvo & Hvi & Hsup).
  set (fs1 := set_registered flags get_sb fs).
  set (s1 := module_get (set_pfs_mem <[p := fs1]> s)).
  exists s1. split; [by apply register_retired_name|].
  assert (pfs_mem s1 !! p = Some fs1) as Hfs1 by apply lookup_insert_eq.
  split; [by exists fs1|].
  split; [done|]. split; [done|]. split; [done|]. split; [done|]. split; [done|].
  split.
  { eexists. split.
    - apply (put_super_quiet s1 sb sbr fs1); [done|by rewrite Hty|].
      by intros [? _].
    - done. }
  intros Hone.
  assert (unregister_ready fuel s1 p fs1) as Hready1 by (by split_and!).
  destruct (unregister_ready_patched _ _ _ _ Hready1)
    as (c & mo & mi & s2 & evs & Hrun & _ & _ & Hmo & Hmi & Hpv).
  pose proof (patched_vfs_frame _ _ _ Hpv) as (Hl2 & Hpfs2 & Hpfo2 & Hpio2 & _).
  simpl in Hl2, Hpfs2, Hpfo2, Hpio2, Hmo, Hmi.
  destruct Hpv as (_ & Hs2 & _).
  assert (∃ sbr2, sb_mem s2 !! sb = Some sbr2 ∧ s_type sbr2 = p)
    as (sbr2 & Hsb2 & Hty2).
  { exists (patch (c_sb c sb) sbr). split.
    - rewrite Hs2. simpl. by rewrite Hsb.
    - rewrite <- Hty. by destruct (c_sb c sb) as [[]]. }
  destruct (put_super_reclaim s2 sb sbr2 (set_live 0 fs1))
    as (s3 & Hrun3 & Htr3 & Hl3 & _).
  - done.
  - rewrite Hty2, Hpfs2, insert_insert_eq. apply lookup_insert_eq.
  - rewrite Hpfo2. by eapply Forall_is_Some_patched.
  - done.
  - rewrite Hpio2. by eapply Forall_is_Some_patched.
  - done.
  - done.
  - simpl. by rewrite Hone.
  - rewrite Hty2 in Htr3, Hl3.
    exists s2, s3. eexists. split; [done|]. split; [done|].
    split; [exact Htr3|]. split; [done|].
    split; [by apply reclaim_events_NoDup|].
    rewrite Hl3. apply list_del_spec.
Qed.

Lemma reregister_keeps_count_and_tables_witness :
  ∃ s1, proclikefs_register_filesystem all_ok (Some "a") 3 9 retired
        = Some (Some 1%positive, s1)
    ∧ (∃ fs1, pfs_mem s1 !! 1%positive = Some fs1 ∧ live fs1 = 1
              ∧ nsuper fs1 = 1 ∧ pfs_pfo fs1 = [2%positive]
              ∧ pfs_pio fs1 = [3%positive] ∧ name fs1 = "a").
Proof.
  destruct (reregister_keeps_count_and_tables 4 all_ok "a" 3 9 retired 1
              (set_live 0 busy_fs) 4
              {| s_type := 1; s_files := []; s_op := sop_proclikefs_null;
                 s_root := Some 5%positive |})
    as (s1 & Hrun & Hfs1 & _).
  - unfold registry_allocated. rewrite (proj2 retired_fs). repeat constructor.
    rewrite (proj1 retired_fs). by eexists.
  - unfold names_unique, names_of. rewrite (proj2 retired_fs). simpl.
    rewrite (proj1 retired_fs). simpl. repeat constructor. apply not_elem_of_nil.
  - rewrite (proj2 retired_fs). left.
  - reflexivity.
  - vm_compute. discriminate.
  - reflexivity.
  - apply retired_ready.
  - repeat constructor. apply not_elem_of_nil.
  - repeat constructor. apply not_elem_of_nil.
  - apply retired_super.
  - reflexivity.
  - exists s1. exact (conj Hrun Hfs1).
Defined.

(** ** Accounting: what the trace and the chains say *)

Lemma tables_allocated_app tr1 tr2 :
  tables_allocated (tr1 ++ tr2) = tables_allocated tr1 ++ tables_allocated tr2.
Proof. apply omap_app. Qed.

Lemma tables_freed_app tr1 tr2 :
  tables_freed (tr1 ++ tr2) = tables_freed tr1 ++ tables_freed tr2.
Proof. apply omap_app. Qed.

Lemma table_neutral_events evs :
  Forall table_neutral evs → tables_allocated evs = [] ∧ tables_freed evs = [].
Proof.
  induction 1 as [|e evs He _ [IH1 IH2]]; [done|].
  unfold tables_allocated, tables_freed in *.
  destruct e as [| [] | [] | | | | |]; simpl in *; try done.
Qed.

Lemma walk_event_neutral e : walk_event e → table_neutral e.
Proof. by destruct e. Qed.

Lemma tables_freed_pfo l : tables_freed (Ev_kfree K_pfo <$> l) = l.
Proof. induction l as [|x l IH]; [done|]. simpl. f_equal. exact IH. Qed.

Lemma tables_freed_pio l : tables_freed (Ev_kfree K_pio <$> l) = l.
Proof. induction l as [|x l IH]; [done|]. simpl. f_equal. exact IH. Qed.

Lemma tables_allocated_kfree k l : tables_allocated (Ev_kfree k <$> l) = [].
Proof. induction l as [|x l IH]; [done|]. simpl. exact IH. Qed.

Lemma quiet_refl s : quiet s s.
Proof.
  split_and!; try done. exists []. by rewrite app_nil_r.
Qed.

Lemma quiet_trans s1 s2 s3 : quiet s1 s2 → quiet s2 s3 → quiet s1 s3.
Proof.
  intros (Hl & Hk & Hb & evs & Htr & Hn) (Hl' & Hk' & Hb' & evs' & Htr' & Hn').
  split_and!.
  - by rewrite Hl'.
  - by rewrite Hk'.
  - lia.
  - exists (evs ++ evs'). split; [by rewrite Htr', Htr, app_assoc|].
    by apply Forall_app.
Qed.

Lemma quiet_emit e s : table_neutral e → quiet s (emit e s).
Proof.
  intros He. split_and!; try done. exists [e]. split; [done|]. by constructor.
Qed.

Lemma quiet_ledger s s' : quiet s s' → ledger s' = ledger s.
Proof.
  intros (Hl & Hk & _ & evs & Htr & Hn). unfold ledger.
  destruct (table_neutral_events evs Hn) as [Ha Hf].
  rewrite Hl, Hk, Htr, tables_allocated_app, tables_freed_app, Ha, Hf.
  by rewrite !app_nil_r.
Qed.

Lemma key_insert_same (m : gmap ptr proclikefs_file_system) p fs fs' :
  m !! p = Some fs → pfs_key fs' = pfs_key fs →
  pfs_key <$> <[p := fs']> m = pfs_key <$> m.
Proof.
  intros Hp Hk. rewrite fmap_insert, Hk. apply insert_id.
  by rewrite lookup_fmap, Hp.
Qed.

(** *** The accounting reads only the ledger *)

Lemma owned_by_key mem l :
  owned_by mem l = l ≫= (λ p, from_option snd [] ((pfs_key <$> mem) !! p)).
Proof.
  unfold owned_by. induction l as [|p l IH]; [done|].
  rewrite !bind_cons. f_equal; [|exact IH].
  rewrite lookup_fmap. by destruct (mem !! p).
Qed.

Lemma names_of_key mem l :
  names_of mem l = omap (λ p, fst <$> (pfs_key <$> mem) !! p) l.
Proof.
  unfold names_of. induction l as [|p l IH]; [done|].
  simpl. rewrite lookup_fmap. destruct (mem !! p); simpl; [f_equal|]; exact IH.
Qed.

Lemma is_Some_key (mem : gmap ptr proclikefs_file_system) p :
  is_Some (mem !! p) ↔ is_Some ((pfs_key <$> mem) !! p).
Proof. rewrite lookup_fmap. symmetry. apply fmap_is_Some. Qed.

Lemma accounted_ledger s s' :
  ledger s' = ledger s → (brk s ≤ brk s')%positive →
  accounted s → accounted s'.
Proof.
  unfold ledger. intros [= Hl Hk Ha Hf] Hb [A1 A2 A3 A4 A5 A6].
  split.
  - by rewrite Hl.
  - intros p. rewrite Hl, is_Some_key, Hk, <- is_Some_key. apply A2.
  - unfold names_unique in *. by rewrite names_of_key, Hl, Hk, <- names_of_key.
  - unfold owned_tables in *.
    by rewrite Ha, Hf, owned_by_key, Hl, Hk, <- owned_by_key.
  - intros t Ht. rewrite Ha in Ht. specialize (A5 t Ht). lia.
  - by rewrite Ha.
Qed.

Lemma accounted_quiet s s' : quiet s s' → accounted s → accounted s'.
Proof.
  intros Hq. apply accounted_ledger; [by apply quiet_ledger|].
  by destruct Hq as (_ & _ & ? & _).
Qed.

(** *** Chains under a change of one block *)

Lemma owned_by_ext mem1 mem2 l :
  (∀ q, q ∈ l → mem1 !! q = mem2 !! q) → owned_by mem1 l = owned_by mem2 l.
Proof.
  unfold owned_by. induction l as [|p l IH]; intros Heq; [done|].
  rewrite !bind_cons. rewrite Heq by left. f_equal.
  apply IH. intros q Hq. apply Heq. by right.
Qed.

Lemma list_del_notin p l : p ∉ l → list_del p l = l.
Proof.
  intros Hp. unfold list_del. induction l as [|q l IH]; [done|].
  apply not_elem_of_cons in Hp as [Hne Hp].
  rewrite filter_cons_True by done. f_equal. by apply IH.
Qed.

Lemma owned_by_split mem l p :
  NoDup l → p ∈ l →
  owned_by mem l ≡ₚ from_option tables_of [] (mem !! p) ++ owned_by mem (list_del p l).
Proof.
  unfold owned_by, list_del. intros Hnd Hp.
  induction Hnd as [|q l Hq Hnd IH]; [by apply elem_of_nil in Hp|].
  rewrite bind_cons. destruct (decide (q = p)) as [->|Hne].
  - rewrite filter_cons_False by (intros H; by apply H).
    fold (list_del p l). by rewrite list_del_notin.
  - rewrite filter_cons_True by done. rewrite bind_cons.
    apply elem_of_cons in Hp as [?|Hp]; [done|].
    rewrite (IH Hp). rewrite !app_assoc. f_equiv. apply Permutation_app_comm.
Qed.

Lemma names_of_ext mem1 mem2 l :
  (∀ q, q ∈ l → name <$> mem1 !! q = name <$> mem2 !! q) →
  names_of mem1 l = names_of mem2 l.
Proof.
  unfold names_of. induction l as [|p l IH]; intros Heq; [done|].
  simpl. rewrite Heq by left.
  assert (omap (λ p, name <$> mem1 !! p) l = omap (λ p, name <$> mem2 !! p) l)
    as Hrest by (apply IH; intros q Hq; apply Heq; by right).
  destruct (name <$> mem2 !! p); [f_equal|]; exact Hrest.
Qed.

Lemma names_of_del mem l p :
  names_of mem (list_del p l) `sublist_of` names_of mem l.
Proof.
  unfold names_of, list_del. induction l as [|q l IH]; [done|].
  destruct (decide (q = p)) as [->|Hne].
  - rewrite filter_cons_False by (intros H; by apply H).
    simpl. destruct (mem !! p); simpl; [by constructor|done].
  - rewrite filter_cons_True by done. simpl.
    destruct (mem !! q); simpl; [by constructor|done].
Qed.

(** ** Steps that leave the ledger alone *)

Lemma quiet_same s s' :
  fs_list s' = fs_list s → pfs_mem s' = pfs_mem s → brk s' = brk s →
  trace s' = trace s → quiet s s'.
Proof.
  intros Hl Hm Hb Ht. split_and!; [done|by rewrite Hm|lia|].
  exists []. by rewrite app_nil_r.
Qed.

Lemma quiet_block s p fs fs' :
  pfs_mem s !! p = Some fs → pfs_key fs' = pfs_key fs →
  quiet s (set_pfs_mem <[p := fs']> s).
Proof.
  intros Hp Hk. split_and!; [done|by eapply key_insert_same|done|].
  exists []. by rewrite app_nil_r.
Qed.

Lemma kill_files_quiet l dummy s s' : kill_files l dummy s = Some s' → quiet s s'.
Proof.
  revert s. induction l as [|f l IH]; intros s Hrun; simpl in Hrun.
  - injection Hrun as <-. apply quiet_refl.
  - destruct (file_mem s !! f); simpl in Hrun; [|done].
    eapply quiet_trans; [|by apply IH]. by apply quiet_same.
Qed.

Lemma prepend_children_quiet kids dt s dt' s' :
  prepend_children kids dt s = Some (dt', s') → quiet s s'.
Proof.
  revert dt s. induction kids as [|k kids IH]; intros dt s Hrun; simpl in Hrun.
  - injection Hrun as <- <-. apply quiet_refl.
  - unfold d_drop in Hrun.
    destruct (dentry_mem s !! k) as [c|]; simpl in Hrun; [|done].
    rewrite lookup_insert_eq in Hrun. simpl in Hrun.
    eapply quiet_trans; [|by eapply IH].
    eapply quiet_trans; [apply (quiet_emit (Ev_d_drop k)); done|].
    by apply quiet_same.
Qed.

Lemma kill_dentries_quiet fuel dt s s' :
  kill_dentries fuel dt s = Some s' → quiet s s'.
Proof.
  revert dt s. induction fuel as [|fuel IH]; intros [a|] s Hrun; simpl in Hrun;
    try done; try (injection Hrun as <-; apply quiet_refl).
  destruct (dentry_mem s !! a) as [da|]; simpl in Hrun; [|done].
  destruct (prepend_children _ _ _) as [[dt' s1]|] eqn:Hpre; simpl in Hrun; [|done].
  eapply quiet_trans; [|by eapply IH].
  eapply quiet_trans; [|by eapply prepend_children_quiet].
  eapply quiet_trans; [apply (quiet_emit (Ev_visit a)); done|].
  by apply quiet_same.
Qed.

Lemma reset_root_quiet (root : option ptr) s s' :
  match root with
  | Some root =>
      r ← dentry_mem s !! root;
      Some (set_dentry_mem <[root := set_d_fsdata None r]> s)
  | None => Some s
  end = Some s' →
  quiet s s'.
Proof.
  destruct root as [root|]; [|intros [= <-]; apply quiet_refl].
  destruct (dentry_mem s !! root); simpl; [|done].
  intros [= <-]. by apply quiet_same.
Qed.

Lemma kill_super_quiet fuel sb dummy s s' :
  proclikefs_kill_super fuel sb dummy s = Some s' → quiet s s'.
Proof.
  unfold proclikefs_kill_super. intros Hrun.
  destruct (sb_mem s !! sb) as [sbr|]; simpl in Hrun; [|done].
  destruct (kill_files _ _ _) as [s1|] eqn:H1; simpl in Hrun; [|done].
  apply kill_files_quiet in H1.
  match type of Hrun with
  | context [set_sb_mem ?f s1] => set (s2 := set_sb_mem f s1) in *
  end.
  assert (quiet s1 s2) as H2 by (apply quiet_same; reflexivity).
  destruct (match s_root sbr with Some _ => _ | None => _ end) as [s3|] eqn:H3;
    simpl in Hrun; [|done].
  assert (quiet s2 s3) as H3' by (by eapply reset_root_quiet).
  destruct (kill_dentries _ _ _) as [s4|] eqn:H4; simpl in Hrun; [|done].
  apply kill_dentries_quiet in H4.
  destruct (s_root sbr) as [root|]; simpl in Hrun; [|done].
  destruct (dentry_mem s4 !! root) as [r|]; simpl in Hrun; [|done].
  destruct (d_inode r) as [ino|]; simpl in Hrun; [|done].
  destruct (inode_mem s4 !! ino); simpl in Hrun; [|done].
  injection Hrun as <-.
  eapply quiet_trans; [exact H1|]. eapply quiet_trans; [exact H2|].
  eapply quiet_trans; [exact H3'|]. eapply quiet_trans; [exact H4|].
  by apply quiet_same.
Qed.

Lemma kill_supers_quiet fuel l dummy s s' :
  kill_supers fuel l dummy s = Some s' → quiet s s'.
Proof.
  revert s. induction l as [|sb l IH]; intros s Hrun; simpl in Hrun.
  - injection Hrun as <-. apply quiet_refl.
  - destruct (proclikefs_kill_super _ _ _ _) as [s1|] eqn:H1; simpl in Hrun; [|done].
    eapply quiet_trans; [by eapply kill_super_quiet|by apply IH].
Qed.

Lemma clear_pfo_quiet l s s' : clear_pfo l s = Some s' → quiet s s'.
Proof.
  revert s. induction l as [|t l IH]; intros s Hrun; simpl in Hrun.
  - injection Hrun as <-. apply quiet_refl.
  - destruct (pfo_mem s !! t); simpl in Hrun; [|done].
    eapply quiet_trans; [|by apply IH]. by apply quiet_same.
Qed.

Lemma clear_pio_quiet l s s' : clear_pio l s = Some s' → quiet s s'.
Proof.
  revert s. induction l as [|t l IH]; intros s Hrun; simpl in Hrun.
  - injection Hrun as <-. apply quiet_refl.
  - destruct (pio_mem s !! t); simpl in Hrun; [|done].
    eapply quiet_trans; [|by apply IH]. by apply quiet_same.
Qed.

(** Unregister allocates nothing, frees nothing, and leaves [fs_list],
    every name and every table chain as they were. *)
Lemma unregister_quiet fuel pfs s s' :
  proclikefs_unregister_filesystem fuel pfs s = Some s' → quiet s s'.
Proof.
  destruct pfs as [pfs|]; simpl; [|intros [= <-]; apply quiet_refl].
  intros Hrun.
  destruct (pfs_mem s !! pfs) as [fs|]; simpl in Hrun; [|done].
  destruct (clear_pfo _ _) as [s1|] eqn:H1; simpl in Hrun; [|done].
  destruct (clear_pio _ _) as [s2|] eqn:H2; simpl in Hrun; [|done].
  destruct (kill_supers _ _ _ _) as [s3|] eqn:H3; simpl in Hrun; [|done].
  destruct (pfs_mem s3 !! pfs) as [fs3|] eqn:Hfs3; simpl in Hrun; [|done].
  injection Hrun as <-.
  eapply quiet_trans; [by eapply clear_pfo_quiet|].
  eapply quiet_trans; [by eapply clear_pio_quiet|].
  eapply quiet_trans; [by eapply kill_supers_quiet|].
  eapply quiet_trans; [by eapply (quiet_block s3 pfs fs3 (set_live 0 fs3))|].
  by apply quiet_same.
Qed.

Lemma reinitialize_loop_quiet pfs cb l s s' :
  reinitialize_loop pfs cb l s = Some s' → quiet s s'.
Proof.
  revert s. induction l as [|p l IH]; intros s Hrun; simpl in Hrun.
  - injection Hrun as <-. apply quiet_refl.
  - destruct (sb_mem s !! p) as [sb|]; simpl in Hrun; [|done].
    eapply quiet_trans; [|by apply IH].
    case_decide; by apply quiet_emit.
Qed.

Lemma read_super_quiet ok sb s s' :
  proclikefs_read_super ok sb s = Some s' → quiet s s'.
Proof.
  unfold proclikefs_read_super. intros Hrun.
  destruct (sb_mem s !! sb) as [sbr|]; simpl in Hrun; [|done].
  destruct (pfs_mem s !! s_type sbr) as [fs|] eqn:Hfs; simpl in Hrun; [|done].
  injection Hrun as <-.
  eapply quiet_trans;
    [by eapply (quiet_block s _ fs (set_nsuper (atomic_inc (nsuper fs)) fs))|].
  destruct ok; [by apply quiet_same|by apply quiet_emit].
Qed.

Lemma env_mount_quiet pfs s s' : env_mount pfs s = Some s' → quiet s s'.
Proof.
  unfold env_mount. intros Hrun.
  destruct (pfs_mem s !! pfs) as [fs|] eqn:Hfs; simpl in Hrun; [|done].
  injection Hrun as <-.
  split_and!; [done| |simpl; lia|exists []; by rewrite app_nil_r].
  simpl. by eapply key_insert_same.
Qed.

Lemma env_d_alloc_quiet parent s s' : env_d_alloc parent s = Some s' → quiet s s'.
Proof.
  unfold env_d_alloc. intros Hrun.
  destruct (dentry_mem s !! parent); simpl in Hrun; [|done].
  injection Hrun as <-.
  split_and!; [done|done|simpl; lia|exists []; by rewrite app_nil_r].
Qed.

(** ** Steps that move the ledger *)

Lemma register_finish_quiet o flags get_sb p is_new s r s' :
  register_finish o flags get_sb p is_new s = Some (r, s') → quiet s s'.
Proof.
  unfold register_finish. intros Hrun.
  destruct (pfs_mem s !! p) as [fs|] eqn:Hfs; simpl in Hrun; [|done].
  injection Hrun as _ <-.
  eapply quiet_trans;
    [by eapply (quiet_block s p fs (set_registered flags get_sb fs))|].
  destruct is_new; [|apply quiet_refl].
  eapply quiet_trans; [apply (quiet_emit (Ev_register_filesystem p)); done|].
  case_decide; [apply quiet_refl|by apply quiet_emit].
Qed.

Lemma accounted_first_block s nm :
  accounted s → fs_list s = [] →
  accounted (set_fs_list (cons (brk s))
               (set_pfs_mem <[brk s := fresh_file_system nm]>
                  (emit (Ev_kmalloc K_pfs (brk s))
                     (set_brk Pos.succ (module_get s))))).
Proof.
  intros [A1 A2 A3 A4 A5 A6] Hl.
  assert (∀ q, pfs_mem s !! q = None) as Hnone.
  { intros q. apply eq_None_not_Some. rewrite <- A2, Hl. apply not_elem_of_nil. }
  split; simpl.
  - rewrite Hl. apply NoDup_singleton.
  - intros q. rewrite Hl, list_elem_of_singleton, lookup_insert.
    case_decide as Hq; [subst; split; [by eexists|done]|].
    rewrite Hnone. split; [by intros ->|by intros [? ?]].
  - unfold names_unique, names_of. simpl. rewrite Hl. simpl.
    rewrite lookup_insert_eq. simpl. apply NoDup_singleton.
  - unfold owned_tables, owned_by in *. simpl. rewrite Hl in *. simpl.
    rewrite lookup_insert_eq. simpl.
    rewrite tables_allocated_app, tables_freed_app. simpl.
    rewrite !app_nil_r. simpl in A4. by rewrite app_nil_r in A4.
  - intros t. rewrite tables_allocated_app. simpl. rewrite app_nil_r.
    intros Ht. specialize (A5 t Ht). lia.
  - rewrite tables_allocated_app. simpl. by rewrite app_nil_r.
Qed.

Lemma register_accounted o nm flags get_sb s r s' :
  accounted s →
  proclikefs_register_filesystem o nm flags get_sb s = Some (r, s') →
  accounted s'.
Proof.
  intros Hacc. unfold proclikefs_register_filesystem.
  destruct nm as [nm|]; [|by intros [= _ <-]].
  destruct (try_module_get_ok o);
    [|intros [= _ <-]; eapply accounted_quiet; [by apply quiet_emit|done]].
  simpl. destruct (register_scan _ _ _ _) as [[|[newfs|]]|] eqn:Hscan;
    simpl; [| | |done].
  - intros [= _ <-]. by rewrite module_get_put.
  - intros Hrun. eapply accounted_quiet; [by eapply register_finish_quiet|].
    eapply accounted_quiet; [|done]. by apply quiet_same.
  - apply register_scan_null in Hscan as [Hl _].
    unfold kmalloc. destruct (kmalloc_ok o); simpl.
    + intros Hrun. eapply accounted_quiet; [by eapply register_finish_quiet|].
      by apply accounted_first_block.
    + intros [= _ <-]. by rewrite module_get_put.
Qed.

(** A block takes one freshly allocated table on one of its chains. *)
Lemma accounted_grow s s' pfs fs fs' :
  accounted s → pfs_mem s !! pfs = Some fs →
  name fs' = name fs → tables_of fs' ≡ₚ brk s :: tables_of fs →
  fs_list s' = fs_list s → pfs_mem s' = <[pfs := fs']> (pfs_mem s) →
  tables_allocated (trace s') = tables_allocated (trace s) ++ [brk s] →
  tables_freed (trace s') = tables_freed (trace s) →
  brk s' = Pos.succ (brk s) →
  accounted s'.
Proof.
  intros [A1 A2 A3 A4 A5 A6] Hfs Hnm Htab Hl Hm Ha Hf Hb.
  assert (pfs ∈ fs_list s) as Hin by (apply A2; by eexists).
  split.
  - by rewrite Hl.
  - intros q. rewrite Hl, Hm, lookup_insert. case_decide as Hq; [|apply A2].
    subst. split; [by eexists|done].
  - unfold names_unique in *. rewrite Hl, Hm.
    erewrite names_of_ext; [exact A3|].
    intros q _. rewrite lookup_insert. case_decide; [|done].
    subst. rewrite Hfs. simpl. by rewrite Hnm.
  - unfold owned_tables in *. rewrite Ha, Hf, Hl, Hm.
    rewrite (owned_by_split _ _ pfs A1 Hin), lookup_insert_eq. simpl.
    rewrite (owned_by_ext _ (pfs_mem s) (list_del pfs (fs_list s))).
    + rewrite Htab. rewrite A4, (owned_by_split _ _ pfs A1 Hin), Hfs. simpl.
      rewrite <- Permutation_cons_append.
      by rewrite Permutation_middle.
    + intros q Hq. rewrite lookup_insert_ne; [done|].
      intros <-. by apply list_del_spec in Hq.
  - intros t. rewrite Ha, Hb, elem_of_app, list_elem_of_singleton.
    intros [Ht| ->]; [specialize (A5 t Ht)|]; lia.
  - rewrite Ha. apply NoDup_app. split; [done|]. split; [|apply NoDup_singleton].
    intros t Ht ->%list_elem_of_singleton. specialize (A5 _ Ht). lia.
Qed.

Lemma new_file_operations_accounted ok pfs s r s' :
  accounted s → proclikefs_new_file_operations ok pfs s = Some (r, s') →
  accounted s'.
Proof.
  intros Hacc. unfold proclikefs_new_file_operations, kmalloc.
  destruct ok; [|by intros [= _ <-]]. simpl.
  destruct (pfs_mem s !! pfs) as [fs|] eqn:Hfs; simpl; [|done].
  intros [= _ <-].
  eapply (accounted_grow s _ pfs fs (set_pfs_pfo (brk s :: pfs_pfo fs) fs));
    simpl; try done.
  - by rewrite tables_allocated_app.
  - rewrite tables_freed_app. apply app_nil_r.
Qed.

Lemma new_inode_operations_accounted ok pfs s r s' :
  accounted s → proclikefs_new_inode_operations ok pfs s = Some (r, s') →
  accounted s'.
Proof.
  intros Hacc. unfold proclikefs_new_inode_operations, kmalloc.
  destruct ok; [|by intros [= _ <-]]. simpl.
  destruct (pfs_mem s !! pfs) as [fs|] eqn:Hfs; simpl; [|done].
  intros [= _ <-].
  eapply (accounted_grow s _ pfs fs (set_pfs_pio (brk s :: pfs_pio fs) fs));
    simpl; try done.
  - unfold tables_of. simpl. by rewrite Permutation_middle.
  - by rewrite tables_allocated_app.
  - rewrite tables_freed_app. apply app_nil_r.
Qed.

Lemma free_pfo_frame l s s' :
  free_pfo l s = Some s' →
  trace s' = trace s ++ (Ev_kfree K_pfo <$> l) ∧ fs_list s' = fs_list s
  ∧ pfs_mem s' = pfs_mem s ∧ brk s' = brk s.
Proof.
  revert s. induction l as [|t l IH]; intros s Hrun; simpl in Hrun.
  - injection Hrun as <-. by rewrite app_nil_r.
  - destruct (pfo_mem s !! t); simpl in Hrun; [|done].
    destruct (IH _ Hrun) as (-> & -> & -> & ->). simpl.
    by rewrite <- app_assoc.
Qed.

Lemma free_pio_frame l s s' :
  free_pio l s = Some s' →
  trace s' = trace s ++ (Ev_kfree K_pio <$> l) ∧ fs_list s' = fs_list s
  ∧ pfs_mem s' = pfs_mem s ∧ brk s' = brk s.
Proof.
  revert s. induction l as [|t l IH]; intros s Hrun; simpl in Hrun.
  - injection Hrun as <-. by rewrite app_nil_r.
  - destruct (pio_mem s !! t); simpl in Hrun; [|done].
    destruct (IH _ Hrun) as (-> & -> & -> & ->). simpl.
    by rewrite <- app_assoc.
Qed.

(** A block leaves the list and every table on its chains is freed. *)
Lemma accounted_reclaim s s' p fs :
  accounted s → pfs_mem s !! p = Some fs →
  fs_list s' = list_del p (fs_list s) → pfs_mem s' = delete p (pfs_mem s) →
  tables_allocated (trace s') = tables_allocated (trace s) →
  tables_freed (trace s') = tables_freed (trace s) ++ tables_of fs →
  brk s' = brk s →
  accounted s'.
Proof.
  intros [A1 A2 A3 A4 A5 A6] Hfs Hl Hm Ha Hf Hb.
  assert (p ∈ fs_list s) as Hin by (apply A2; by eexists).
  assert (∀ q, q ∈ list_del p (fs_list s) → delete p (pfs_mem s) !! q = pfs_mem s !! q)
    as Hsame.
  { intros q Hq. rewrite lookup_delete_ne; [done|].
    intros <-. by apply list_del_spec in Hq. }
  split.
  - rewrite Hl. apply NoDup_filter, A1.
  - intros q. rewrite Hl, Hm. unfold list_del. rewrite list_elem_of_filter.
    rewrite lookup_delete. case_decide as Hq.
    + subst. split; [by intros [? _]|by intros [? ?]].
    + rewrite A2. split; [by intros [_ ?]|]. intros ?. split; [congruence|done].
  - unfold names_unique in *. rewrite Hl, Hm.
    erewrite names_of_ext; [|intros q Hq; by rewrite Hsame].
    eapply sublist_NoDup; [exact A3|]. apply names_of_del.
  - unfold owned_tables in *. rewrite Ha, Hf, Hl, Hm.
    rewrite (owned_by_ext _ (pfs_mem s)) by done.
    rewrite A4, (owned_by_split _ _ p A1 Hin), Hfs. simpl.
    by rewrite app_assoc.
  - intros t. rewrite Ha, Hb. apply A5.
  - by rewrite Ha.
Qed.

Lemma put_super_accounted sb s s' :
  accounted s → proclikefs_put_super sb s = Some s' → accounted s'.
Proof.
  intros Hacc. unfold proclikefs_put_super.
  destruct (sb_mem s !! sb) as [sbr|]; simpl; [|done].
  destruct (pfs_mem s !! s_type sbr) as [fs|] eqn:Hfs; simpl; [|done].
  set (p := s_type sbr) in *.
  set (fs' := set_nsuper (atomic_dec (nsuper fs)) fs).
  assert (quiet s (MOD_DEC_USE_COUNT (set_pfs_mem <[p := fs']> s))) as Hq.
  { eapply quiet_trans; [by eapply (quiet_block s p fs fs')|].
    by apply quiet_same. }
  case_decide as Hz; [|intros [= <-]; by eapply accounted_quiet].
  destruct (free_pfo _ _) as [s2|] eqn:H2; simpl; [|done].
  destruct (free_pio _ _) as [s3|] eqn:H3; simpl; [|done].
  intros [= <-].
  apply free_pfo_frame in H2 as (Ht2 & Hl2 & Hm2 & Hb2).
  apply free_pio_frame in H3 as (Ht3 & Hl3 & Hm3 & Hb3).
  simpl in Ht2, Hl2, Hm2, Hb2.
  eapply (accounted_reclaim _ _ p fs');
    [by eapply accounted_quiet|apply lookup_insert_eq|..]; simpl.
  - by rewrite Hl3, Hl2.
  - by rewrite Hm3, Hm2.
  - rewrite Ht3, Ht2. rewrite !tables_allocated_app, !tables_allocated_kfree.
    simpl. by rewrite !app_nil_r.
  - rewrite Ht3, Ht2.
    rewrite !tables_freed_app, tables_freed_pfo, tables_freed_pio.
    simpl. by rewrite !app_nil_r, <- app_assoc.
  - by rewrite Hb3, Hb2.
Qed.

Lemma step_accounted c s s' : accounted s → step c s = Some s' → accounted s'.
Proof.
  intros Hacc. destruct c; simpl.
  - destruct (proclikefs_register_filesystem _ _ _ _ _) as [[r s1]|] eqn:Hrun;
      simpl; [|done]. intros [= <-]. by eapply register_accounted.
  - intros Hrun. eapply accounted_quiet; [by eapply unregister_quiet|done].
  - unfold proclikefs_reinitialize_supers.
    destruct (pfs_mem s !! pfs); simpl; [|done].
    intros Hrun. eapply accounted_quiet; [by eapply reinitialize_loop_quiet|done].
  - destruct (proclikefs_new_file_operations _ _ _) as [[r s1]|] eqn:Hrun;
      simpl; [|done]. intros [= <-]. by eapply new_file_operations_accounted.
  - destruct (proclikefs_new_inode_operations _ _ _) as [[r s1]|] eqn:Hrun;
      simpl; [|done]. intros [= <-]. by eapply new_inode_operations_accounted.
  - intros Hrun. eapply accounted_quiet; [by eapply read_super_quiet|done].
  - by apply put_super_accounted.
  - unfold drv_fo_store. destruct (pfo_mem s !! pfo); simpl; [|done].
    intros [= <-]. eapply accounted_quiet; [|done]. by apply quiet_same.
  - unfold drv_io_store. destruct (pio_mem s !! pio); simpl; [|done].
    intros [= <-]. eapply accounted_quiet; [|done]. by apply quiet_same.
  - intros Hrun. eapply accounted_quiet; [by eapply env_mount_quiet|done].
  - intros Hrun. eapply accounted_quiet; [by eapply env_d_alloc_quiet|done].
Qed.

Lemma run_accounted cs s s' : accounted s → run cs s = Some s' → accounted s'.
Proof.
  revert s. induction cs as [|c cs IH]; intros s Hacc; simpl.
  - by intros [= <-].
  - destruct (step c s) as [s1|] eqn:Hstep; simpl; [|done].
    apply IH. by eapply step_accounted.
Qed.

Lemma boot_accounted : accounted (init_module boot).
Proof.
  split; simpl; try done.
  - apply NoDup_nil_2.
  - intros p. rewrite lookup_empty. split; [by intros ?%elem_of_nil|by intros [? ?]].
  - apply NoDup_nil_2.
  - intros t ?%elem_of_nil. done.
  - apply NoDup_nil_2.
Qed.




(** * Further properties of the code *)

(** ** Registration: failure and reuse *)

(** A register that returns the null handle has changed nothing, except
    that a failed [try_module_get] leaves one line in the log. *)
Theorem register_failure_changes_nothing o nm flags get_sb s s' :
  proclikefs_register_filesystem o nm flags get_sb s = Some (None, s') →
  s' = s ∨
  (try_module_get_ok o = false ∧
   s' = printk "<1>proclikefs: error using module" s).
Proof.
  unfold proclikefs_register_filesystem.
  destruct nm as [nm|]; [|intros [= <-]; by left].
  destruct (try_module_get_ok o); [|intros [= <-]; by right].
  simpl. destruct (register_scan _ _ _ _) as [[|[newfs|]]|]; simpl; [| | |done].
  - intros [= <-]. left. apply module_get_put.
  - unfold register_finish. destruct (pfs_mem _ !! newfs); simpl; [|done]. done.
  - unfold kmalloc. destruct (kmalloc_ok o); simpl.
    + unfold register_finish. simpl. rewrite lookup_insert_eq. simpl. done.
    + intros [= <-]. left. apply module_get_put.
Qed.

Lemma register_failure_changes_nothing_witness :
  proclikefs_register_filesystem out_of_memory (Some "a") 0 7 (init_module boot)
  = Some (None, init_module boot)
  ∧ (init_module boot = init_module boot ∨
     (try_module_get_ok out_of_memory = false ∧
      init_module boot = printk "<1>proclikefs: error using module" (init_module boot))).
Proof.
  assert (proclikefs_register_filesystem out_of_memory (Some "a") 0 7
            (init_module boot) = Some (None, init_module boot)) as Hrun
    by (vm_compute; reflexivity).
  split; [exact Hrun|].
  exact (register_failure_changes_nothing out_of_memory (Some "a") 0 7 _ _ Hrun).
Defined.

Lemma register_scan_in mem nm l newfs p :
  register_scan mem nm l newfs = Some (Scan_left (Some p)) →
  p ∈ l ∨ newfs = Some p.
Proof.
  revert newfs. induction l as [|q l IH]; intros newfs; simpl.
  - intros [= ->]. by right.
  - destruct (mem !! q) as [fq|]; simpl; [|done].
    case_decide.
    + case_match; [done|]. intros [= ->]. left. left.
    + intros [Hin|[= ->]]%IH; left; [by right|left].
Qed.

(** While [fs_list] is not empty, register allocates nothing and puts
    nothing on the list: a handle it returns is a block that was on the
    list already, whatever name was asked for. *)
Theorem register_on_nonempty_list_reuses o nm flags get_sb s r s' :
  fs_list s ≠ [] →
  proclikefs_register_filesystem o nm flags get_sb s = Some (r, s') →
  brk s' = brk s ∧ fs_list s' = fs_list s
  ∧ dom (pfs_mem s') = dom (pfs_mem s)
  ∧ pfo_mem s' = pfo_mem s ∧ pio_mem s' = pio_mem s
  ∧ (∀ h, r = Some h → h ∈ fs_list s
          ∧ name <$> pfs_mem s' !! h = name <$> pfs_mem s !! h).
Proof.
  intros Hne. unfold proclikefs_register_filesystem.
  destruct nm as [nm|]; [|intros [= <- <-]; by split_and!].
  destruct (try_module_get_ok o); [|intros [= <- <-]; by split_and!].
  simpl. destruct (register_scan _ _ _ _) as [[|[newfs|]]|] eqn:Hscan;
    simpl; [| | |done].
  - intros [= <- <-]. by split_and!.
  - unfold register_finish.
    destruct (pfs_mem _ !! newfs) as [fs|] eqn:Hfs; simpl; [|done].
    intros [= <- <-]. simpl in Hfs. split_and!; simpl; try done.
    + rewrite dom_insert_L. apply elem_of_dom_2 in Hfs. set_solver.
    + intros h [= <-]. split.
      * by apply register_scan_in in Hscan as [?|?].
      * by rewrite lookup_insert_eq, Hfs.
  - by apply register_scan_null in Hscan as [? _].
Qed.

Lemma register_on_nonempty_list_reuses_witness :
  ∃ s', proclikefs_register_filesystem all_ok (Some "b") 0 8 registered_a
        = Some (Some 1%positive, s')
    ∧ brk s' = brk registered_a ∧ fs_list s' = fs_list registered_a.
Proof.
  eexists.
  assert (proclikefs_register_filesystem all_ok (Some "b") 0 8 registered_a
          = Some (Some 1%positive, _)) as Hrun by (vm_compute; reflexivity).
  split; [exact Hrun|].
  destruct (register_on_nonempty_list_reuses all_ok (Some "b") 0 8 registered_a
              _ _ ltac:(vm_compute; discriminate) Hrun) as (Hb & Hl & _).
  exact (conj Hb Hl).
Defined.

(** ** The registry in every run *)

Lemma list_del_length p l : (length (list_del p l) ≤ length l)%nat.
Proof. apply length_filter. Qed.

Lemma register_short o nm flags get_sb s r s' :
  (length (fs_list s) ≤ 1)%nat →
  proclikefs_register_filesystem o nm flags get_sb s = Some (r, s') →
  (length (fs_list s') ≤ 1)%nat.
Proof.
  intros Hlen Hrun. destruct (fs_list s) as [|p l] eqn:Hl.
  - revert Hrun. unfold proclikefs_register_filesystem.
    destruct nm as [nm|]; [|intros [= _ <-]; rewrite Hl; simpl; lia].
    destruct (try_module_get_ok o); [|intros [= _ <-]; simpl; rewrite Hl; simpl; lia].
    simpl. rewrite Hl. simpl. unfold kmalloc.
    destruct (kmalloc_ok o); simpl.
    + unfold register_finish. simpl. rewrite lookup_insert_eq. simpl.
      intros [= _ <-]. case_decide; simpl; rewrite Hl; simpl; lia.
    + intros [= _ <-]. simpl. rewrite Hl. simpl. lia.
  - revert Hrun. unfold proclikefs_register_filesystem.
    destruct nm as [nm|]; [|intros [= _ <-]; by rewrite Hl].
    destruct (try_module_get_ok o); [|intros [= _ <-]; simpl; by rewrite Hl].
    simpl. destruct (register_scan _ _ _ _) as [[|[newfs|]]|] eqn:Hscan;
      simpl; [| | |done].
    + intros [= _ <-]. simpl. by rewrite Hl.
    + unfold register_finish.
      destruct (pfs_mem _ !! newfs); simpl; [|done].
      intros [= _ <-]. simpl. by rewrite Hl.
    + apply register_scan_null in Hscan as [Hnil _]. by rewrite Hl in Hnil.
Qed.

Lemma step_short c s s' :
  (length (fs_list s) ≤ 1)%nat → step c s = Some s' →
  (length (fs_list s') ≤ 1)%nat.
Proof.
  intros Hlen. destruct c; simpl.
  - destruct (proclikefs_register_filesystem _ _ _ _ _) as [[r s1]|] eqn:Hrun;
      simpl; [|done]. intros [= <-]. by eapply register_short.
  - intros (-> & _)%unregister_quiet. done.
  - unfold proclikefs_reinitialize_supers.
    destruct (pfs_mem s !! pfs); simpl; [|done].
    intros (-> & _)%reinitialize_loop_quiet. done.
  - unfold proclikefs_new_file_operations, kmalloc.
    destruct ok; simpl; [|by intros [= <-]].
    destruct (pfs_mem s !! pfs); simpl; [|done]. by intros [= <-].
  - unfold proclikefs_new_inode_operations, kmalloc.
    destruct ok; simpl; [|by intros [= <-]].
    destruct (pfs_mem s !! pfs); simpl; [|done]. by intros [= <-].
  - intros (-> & _)%read_super_quiet. done.
  - unfold proclikefs_put_super.
    destruct (sb_mem s !! sb) as [sbr|]; simpl; [|done].
    destruct (pfs_mem s !! s_type sbr) as [fs|]; simpl; [|done].
    case_decide; [|by intros [= <-]].
    destruct (free_pfo _ _) as [s2|] eqn:H2; simpl; [|done].
    destruct (free_pio _ _) as [s3|] eqn:H3; simpl; [|done].
    intros [= <-].
    apply free_pfo_frame in H2 as (_ & Hl2 & _).
    apply free_pio_frame in H3 as (_ & Hl3 & _).
    simpl in *. rewrite Hl3, Hl2.
    pose proof (list_del_length (s_type sbr) (fs_list s)). lia.
  - unfold drv_fo_store. destruct (pfo_mem s !! pfo); simpl; [|done].
    by intros [= <-].
  - unfold drv_io_store. destruct (pio_mem s !! pio); simpl; [|done].
    by intros [= <-].
  - intros (-> & _)%env_mount_quiet. done.
  - intros (-> & _)%env_d_alloc_quiet. done.
Qed.

Lemma run_short cs s s' :
  (length (fs_list s) ≤ 1)%nat → run cs s = Some s' →
  (length (fs_list s') ≤ 1)%nat.
Proof.
  revert s. induction cs as [|c cs IH]; intros s Hlen; simpl.
  - by intros [= <-].
  - destruct (step c s) as [s1|] eqn:Hstep; simpl; [|done].
    apply IH. by eapply step_short.
Qed.

(** In every run from module load, [fs_list] holds at most one block;
    the blocks on it are exactly the allocated ones, so no entry dangles
    and no block is lost; and their names are pairwise distinct. *)
Theorem run_keeps_registry_small_and_exact cs s :
  run cs (init_module boot) = Some s →
  (length (fs_list s) ≤ 1)%nat
  ∧ (∀ p, p ∈ fs_list s ↔ is_Some (pfs_mem s !! p))
  ∧ registry_allocated s
  ∧ names_unique s.
Proof.
  intros Hrun.
  destruct (run_accounted _ _ _ boot_accounted Hrun) as [_ A2 A3 _ _ _].
  split; [by eapply (run_short cs (init_module boot)); [simpl; lia|]|].
  split; [done|]. split; [|done].
  apply Forall_forall. intros p Hp. by apply A2.
Qed.

Lemma run_keeps_registry_small_and_exact_witness :
  (length (fs_list busy) ≤ 1)%nat ∧ names_unique busy.
Proof.
  assert (run busy_calls (init_module boot) = Some busy) as Hrun
    by (vm_compute; reflexivity).
  destruct (run_keeps_registry_small_and_exact busy_calls busy Hrun)
    as (H1 & _ & _ & H4).
  exact (conj H1 H4).
Defined.

(** ** Acquire and release *)

Lemma atomic_dec_inc z : int_range z → atomic_dec (atomic_inc z) = z.
Proof.
  intros Hz. unfold atomic_dec, atomic_inc.
  destruct (decide (z = 2 ^ 31 - 1)) as [->|Hne]; [by vm_compute|].
  rewrite (wrap_int_id (z + 1)) by (unfold int_range in *; lia).
  replace (z + 1 - 1) with z by lia. by apply wrap_int_id.
Qed.

Lemma set_nsuper_twice a b fs : set_nsuper a (set_nsuper b fs) = set_nsuper a fs.
Proof. done. Qed.

Lemma set_nsuper_same fs : set_nsuper (nsuper fs) fs = fs.
Proof. by destruct fs. Qed.

(** An acquire followed by the release of the same superblock gives the
    state back, counter and module use count included, unless the file
    system is retired and idle.  When [try_module_get] fails in the
    acquire, no module reference is taken but the release drops one all
    the same. *)
Theorem read_then_put_super_round_trip try_ok sb sbr fs s :
  sb_mem s !! sb = Some sbr → pfs_mem s !! s_type sbr = Some fs →
  int_range (nsuper fs) → ¬ (live fs = 0 ∧ nsuper fs = 0) →
  proclikefs_read_super try_ok sb s ≫= proclikefs_put_super sb
  = Some (if try_ok then s
          else MOD_DEC_USE_COUNT (printk "<1>proclikefs: error using module" s)).
Proof.
  intros Hsb Hfs Hr Hno. unfold proclikefs_read_super.
  rewrite Hsb. simpl. rewrite Hfs. simpl.
  set (p := s_type sbr) in *.
  set (s1 := set_pfs_mem <[p := set_nsuper (atomic_inc (nsuper fs)) fs]> s).
  assert (∀ s2, sb_mem s2 = sb_mem s → pfs_mem s2 = pfs_mem s1 →
            proclikefs_put_super sb s2
            = Some (MOD_DEC_USE_COUNT (set_pfs_mem (λ _, pfs_mem s) s2))) as Hput.
  { intros s2 Hsb2 Hm2. unfold proclikefs_put_super.
    rewrite Hsb2, Hsb. simpl. fold p. rewrite Hm2. unfold s1 at 1. simpl.
    rewrite lookup_insert_eq. simpl.
    rewrite atomic_dec_inc by done.
    rewrite decide_False by done.
    do 2 f_equal. apply state_eq; simpl; try done.
    rewrite Hm2. simpl. rewrite set_nsuper_twice, set_nsuper_same.
    rewrite insert_insert_eq. by apply insert_id. }
  destruct try_ok; cbn [mbind option_bind].
  - rewrite Hput by reflexivity. f_equal. apply state_eq; simpl; try done. lia.
  - rewrite Hput by reflexivity. f_equal.
Qed.

Lemma read_then_put_super_round_trip_witness :
  proclikefs_read_super true 4 busy ≫= proclikefs_put_super 4 = Some busy.
Proof.
  refine (read_then_put_super_round_trip true 4
            {| s_type := 1; s_files := []; s_op := sop_driver 0;
               s_root := Some 5%positive |} busy_fs busy _ _ _ _).
  - vm_compute. reflexivity.
  - vm_compute. reflexivity.
  - unfold int_range. simpl. lia.
  - simpl. lia.
Defined.

(** *** Counting down to reclamation *)

Lemma put_super_count_down sbs pfs fs s :
  pfs_mem s !! pfs = Some fs →
  Forall (λ b, s_type <$> sb_mem s !! b = Some pfs) sbs →
  nsuper fs = Z.of_nat (length sbs) + 1 → Z.of_nat (length sbs) + 1 < 2 ^ 31 →
  run (Call_put_super <$> sbs) s
  = Some (set_module_use_count (λ c, c - Z.of_nat (length sbs))
            (set_pfs_mem <[pfs := set_nsuper 1 fs]> s)).
Proof.
  revert s fs. induction sbs as [|b sbs IH]; intros s fs Hfs Hall Hn Hlt.
  - simpl in *. f_equal. apply state_eq; simpl; try done; [|lia].
    rewrite insert_id; [done|]. rewrite Hfs. f_equal.
    destruct fs; simpl in *. by subst.
  - apply Forall_cons in Hall as [Hb Hall].
    destruct (sb_mem s !! b) as [sbr|] eqn:Hsb; [|done].
    injection Hb as Hty. rewrite <- Hty in Hfs.
    cbn [fmap list_fmap run step]. cbn [length] in Hn, Hlt.
    rewrite (put_super_quiet s b sbr fs Hsb Hfs).
    2:{ intros [_ Hz]. apply atomic_dec_zero in Hz; unfold int_range; lia. }
    cbn [mbind option_bind].
    assert (atomic_dec (nsuper fs) = Z.of_nat (length sbs) + 1) as Hdec.
    { unfold atomic_dec. rewrite wrap_int_id; unfold int_range; lia. }
    rewrite Hdec, Hty.
    rewrite (IH _ (set_nsuper (Z.of_nat (length sbs) + 1) fs)); simpl; try done.
    + f_equal. apply state_eq; simpl; try done; [|cbn [length]; lia].
      by rewrite insert_insert_eq.
    + apply lookup_insert_eq.
    + lia.
Qed.

(** With [n + 1] mounts outstanding on a retired file system, the
    releases of the first [n] superblocks free nothing and leave
    [fs_list] and both table heaps alone; the release of the last one
    frees every table once, then the block, and unlinks it.  The
    superblocks are any [n + 1] superblocks of the file system, released
    in any order. *)
Theorem last_release_reclaims sbs sb pfs fs s :
  pfs_mem s !! pfs = Some fs →
  Forall (λ b, s_type <$> sb_mem s !! b = Some pfs) (sbs ++ [sb]) →
  live fs = 0 → nsuper fs = Z.of_nat (length sbs) + 1 →
  Z.of_nat (length sbs) + 1 < 2 ^ 31 →
  Forall (λ t, is_Some (pfo_mem s !! t)) (pfs_pfo fs) → NoDup (pfs_pfo fs) →
  Forall (λ t, is_Some (pio_mem s !! t)) (pfs_pio fs) → NoDup (pfs_pio fs) →
  ∃ s1 s2,
    run (Call_put_super <$> sbs) s = Some s1
    ∧ trace s1 = trace s ∧ fs_list s1 = fs_list s
    ∧ pfo_mem s1 = pfo_mem s ∧ pio_mem s1 = pio_mem s
    ∧ nsuper <$> pfs_mem s1 !! pfs = Some 1
    ∧ proclikefs_put_super sb s1 = Some s2
    ∧ trace s2 = trace s ++ Ev_unregister_filesystem pfs
                   :: (Ev_kfree K_pfo <$> pfs_pfo fs)
                   ++ (Ev_kfree K_pio <$> pfs_pio fs)
                   ++ [Ev_kfree K_pfs pfs]
    ∧ (pfs ∉ fs_list s2)
    ∧ pfs_mem s2 !! pfs = None.
Proof.
  intros Hfs Hall Hlive Hn Hlt Hvo Hnd1 Hvi Hnd2.
  apply Forall_app in Hall as [Hall Hsb].
  apply Forall_cons in Hsb as [Hsb _]. simpl in Hsb.
  destruct (sb_mem s !! sb) as [sbr|] eqn:Hsbr; [|done].
  injection Hsb as Hty. subst pfs.
  eexists.
  destruct (put_super_reclaim
              (set_module_use_count (λ c, c - Z.of_nat (length sbs))
                 (set_pfs_mem <[s_type sbr := set_nsuper 1 fs]> s))
              sb sbr (set_nsuper 1 fs))
    as (s2 & Hrun2 & Htr2 & Hl2 & Hm2 & _); simpl; try done.
  { apply lookup_insert_eq. }
  exists s2. split; [by apply put_super_count_down|].
  simpl. split_and!; try done.
  - by rewrite lookup_insert_eq.
  - rewrite Hl2. apply list_del_spec.
  - rewrite Hm2. apply lookup_delete_eq.
Qed.

Lemma retired_twice_fs_eq : pfs_mem retired_twice !! 1%positive = Some retired_twice_fs.
Proof. vm_compute. reflexivity. Qed.

Lemma last_release_reclaims_witness :
  ∃ s1 s2,
    run (Call_put_super <$> [4%positive]) retired_twice = Some s1
    ∧ trace s1 = trace retired_twice
    ∧ proclikefs_put_super 7 s1 = Some s2
    ∧ (1%positive ∉ fs_list s2).
Proof.
  destruct (last_release_reclaims [4%positive] 7 1 retired_twice_fs retired_twice
              retired_twice_fs_eq)
    as (s1 & s2 & H1 & H0 & _ & _ & _ & _ & H2 & _ & H3 & _).
  - repeat constructor; vm_compute; reflexivity.
  - reflexivity.
  - reflexivity.
  - reflexivity.
  - repeat constructor. vm_compute. by eexists.
  - repeat constructor. apply not_elem_of_nil.
  - repeat constructor. vm_compute. by eexists.
  - repeat constructor. apply not_elem_of_nil.
  - exists s1, s2. exact (conj H1 (conj H0 (conj H2 H3))).
Defined.

(** *** After reclamation *)

(** Once the reclaiming release has run, the handle and the
    superblock's [s_type] point at freed memory: a further release or
    acquire, an unregister, a reinitialize, or an allocation of a table
    that gets its memory dereferences the freed block and has no defined
    result.  Only a table allocation that fails leaves it alone. *)
Theorem after_reclaim_handle_dangles fuel try_ok cb sb sbr fs s :
  sb_mem s !! sb = Some sbr → pfs_mem s !! s_type sbr = Some fs →
  Forall (λ t, is_Some (pfo_mem s !! t)) (pfs_pfo fs) → NoDup (pfs_pfo fs) →
  Forall (λ t, is_Some (pio_mem s !! t)) (pfs_pio fs) → NoDup (pfs_pio fs) →
  live fs = 0 → atomic_dec (nsuper fs) = 0 →
  ∃ s', proclikefs_put_super sb s = Some s'
    ∧ proclikefs_put_super sb s' = None
    ∧ proclikefs_read_super try_ok sb s' = None
    ∧ proclikefs_unregister_filesystem fuel (Some (s_type sbr)) s' = None
    ∧ proclikefs_reinitialize_supers (s_type sbr) cb s' = None
    ∧ proclikefs_new_file_operations true (s_type sbr) s' = None
    ∧ proclikefs_new_inode_operations true (s_type sbr) s' = None
    ∧ proclikefs_new_file_operations false (s_type sbr) s' = Some (None, s').
Proof.
  intros Hsb Hfs Hvo Hnd1 Hvi Hnd2 Hlive Hz.
  destruct (put_super_reclaim s sb sbr fs)
    as (s' & Hrun & _ & _ & Hm & _ & _ & _ & _ & Hsb' & _); [done..|].
  assert (pfs_mem s' !! s_type sbr = None) as Hnone
    by (rewrite Hm; apply lookup_delete_eq).
  exists s'. split; [done|].
  unfold proclikefs_put_super, proclikefs_read_super,
    proclikefs_unregister_filesystem, proclikefs_reinitialize_supers,
    proclikefs_new_file_operations, proclikefs_new_inode_operations, kmalloc.
  rewrite Hsb', Hsb. simpl. rewrite Hnone. done.
Qed.

Lemma after_reclaim_handle_dangles_witness :
  ∃ s', proclikefs_put_super 4 retired = Some s'
    ∧ proclikefs_put_super 4 s' = None
    ∧ proclikefs_unregister_filesystem 4 (Some 1%positive) s' = None.
Proof.
  destruct (after_reclaim_handle_dangles 4 true 0 4 _ (set_live 0 busy_fs) retired
              retired_super (proj1 retired_fs))
    as (s' & H1 & H2 & _ & H3 & _).
  - repeat constructor. vm_compute. by eexists.
  - repeat constructor. apply not_elem_of_nil.
  - repeat constructor. vm_compute. by eexists.
  - repeat constructor. apply not_elem_of_nil.
  - reflexivity.
  - reflexivity.
  - exists s'. exact (conj H1 (conj H2 H3)).
Defined.

(** ** Unregister: what it leaves alone *)




(** ** Unregister: every superblock is quiesced *)

Lemma supers_at_shape fuel sh l ws : supers_at fuel sh l ws → Forall (super_ok fuel sh) l.
Proof.
  induction 1 as [|sb [[t files] ino] l ws [Hat Hsz] _ IH]; constructor; [|done].
  by exists t, files, ino.
Qed.

Lemma kill_supers_spec fuel l ws dummy s :
  supers_at fuel (shape_of s) l ws →
  ∃ s' evs, kill_supers fuel l dummy s = Some s'
    ∧ trace s' = trace s ++ evs ∧ Forall walk_event evs
    ∧ patched_vfs (kill_supers_patches fuel l ws dummy) s s'.
Proof.
  intros Hat. remember (shape_of s) as sh eqn:Hsh. revert s Hsh.
  induction Hat as [|sb [[t files] ino] l ws [Hat Hsz] _ IH]; intros s Hsh.
  - exists s, []. simpl. rewrite app_nil_r.
    split_and!; try done. apply patched_vfs_refl.
  - subst sh. simpl in Hat, Hsz.
    destruct (kill_super_spec fuel sb dummy s t files ino Hat Hsz)
      as (s1 & Hrun1 & Htr1 & Hp1).
    destruct (IH s1) as (s2 & evs2 & Hrun2 & Htr2 & Hev2 & Hp2).
    { symmetry. by eapply patched_vfs_shape. }
    exists s2, (walk_events fuel [t] ++ evs2).
    cbn [kill_supers]. rewrite Hrun1. cbn [mbind option_bind].
    split; [done|]. split; [by rewrite Htr2, Htr1, app_assoc|].
    split; [apply Forall_app; split; [apply walk_events_kind|done]|].
    by eapply patched_vfs_trans.
Qed.

(** What the patches of a whole list do at the places of one of its
    superblocks. *)
Lemma kill_supers_patches_range fuel l ws dummy :
  (∀ f, c_file (kill_supers_patches fuel l ws dummy) f = None
        ∨ c_file (kill_supers_patches fuel l ws dummy) f
          = Some {| f_op := dummy |})
  ∧ (∀ i, c_inode (kill_supers_patches fuel l ws dummy) i = None
          ∨ c_inode (kill_supers_patches fuel l ws dummy) i
            = Some {| i_op := iop_proclikefs_null_root |}).
Proof.
  revert ws. induction l as [|sb l IH]; intros [|w ws]; try (split; by left).
  destruct (IH ws) as [IHf IHi]. split.
  - intros f. cbn [kill_supers_patches]. simpl. unfold patch_both.
    destruct (IHf f) as [->| ->]; simpl; [|by right].
    unfold patch_in. case_decide; [by right|by left].
  - intros i. cbn [kill_supers_patches]. simpl. unfold patch_both.
    destruct (IHi i) as [->| ->]; simpl; [|by right].
    unfold patch_at. case_decide; [by right|by left].
Qed.

Lemma kill_supers_patches_at fuel l ws dummy i sb t files ino :
  l !! i = Some sb → ws !! i = Some (t, files, ino) →
  (length (forest_nodes [t]) ≤ fuel)%nat →
  happened (c_sb (kill_supers_patches fuel l ws dummy) sb) = true
  ∧ (∀ f, f ∈ files →
       c_file (kill_supers_patches fuel l ws dummy) f = Some {| f_op := dummy |})
  ∧ (∀ q, q ∈ forest_nodes [t] →
       dp_op (c_dentry (kill_supers_patches fuel l ws dummy) q) = true)
  ∧ c_inode (kill_supers_patches fuel l ws dummy) ino
    = Some {| i_op := iop_proclikefs_null_root |}.
Proof.
  revert ws i. induction l as [|sb0 l IH]; intros [|w ws] i Hl Hw Hsz; try done.
  destruct (kill_supers_patches_range fuel l ws dummy) as [Hrf Hri].
  destruct i as [|i]; simpl in Hl, Hw.
  - injection Hl as ->. injection Hw as ->.
    cbn [kill_supers_patches]. simpl. unfold patch_both. split_and!.
    + unfold patch_at. by rewrite decide_True.
    + intros f Hf. destruct (Hrf f) as [->| ->]; simpl; [|done].
      unfold patch_in. by rewrite decide_True.
    + intros q Hq. simpl. rewrite walk_patch_op by done.
      by rewrite orb_true_r.
    + destruct (Hri ino) as [->| ->]; simpl; [|done].
      unfold patch_at. by rewrite decide_True.
  - destruct (IH ws i Hl Hw Hsz) as (H1 & H2 & H3 & H4).
    cbn [kill_supers_patches]. simpl. unfold patch_both. split_and!.
    + simpl. rewrite H1. apply orb_true_r.
    + intros f Hf. by rewrite H2.
    + intros q Hq. simpl. rewrite H3 by done. apply orb_true_r.
    + by rewrite H4.
Qed.

(** Unregister leaves every superblock of the file system quiesced:
    [s_op] is the null super operations, every open file dispatches
    through the first file-operations table of the chain (or through
    null when there is none), every dentry of the tree has [d_op]
    cleared, and the root inode has the null-root operations.  The
    table the files are pointed at has been through the first loop: it
    holds [return_EIO] in each slot the loop names, and what it held
    before in the others. *)
Theorem unregister_quiesces_every_superblock fuel s pfs fs ws :
  pfs_mem s !! pfs = Some fs →
  Forall (λ t, is_Some (pfo_mem s !! t)) (pfs_pfo fs) →
  Forall (λ t, is_Some (pio_mem s !! t)) (pfs_pio fs) →
  supers_at fuel (shape_of s) (fs_supers fs) ws →
  ∃ s', proclikefs_unregister_filesystem fuel (Some pfs) s = Some s'
    ∧ (∀ i sb t files ino,
         fs_supers fs !! i = Some sb → ws !! i = Some (t, files, ino) →
         s_op <$> sb_mem s' !! sb = Some sop_proclikefs_null
         ∧ (∀ f, f ∈ files →
              file_mem s' !! f = Some {| f_op := head (pfs_pfo fs) |})
         ∧ (∀ q, q ∈ forest_nodes [t] →
              ∃ d, dentry_mem s' !! q = Some d ∧ d_op d = None)
         ∧ inode_mem s' !! ino = Some {| i_op := iop_proclikefs_null_root |})
    ∧ (∀ t0, head (pfs_pfo fs) = Some t0 →
         ∃ fo0 fo, pfo_mem s !! t0 = Some fo0 ∧ pfo_mem s' !! t0 = Some fo
               ∧ ∀ k, fo_get k fo = match k with
                                    | FO_other _ => fo_get k fo0
                                    | _ => fn_return_EIO
                                    end).
Proof.
  intros Hfs Hvo Hvi Hat.
  unfold proclikefs_unregister_filesystem. rewrite Hfs. simpl.
  destruct (clear_pfo_spec (pfs_pfo fs) s Hvo) as (mo & -> & Hmo). simpl.
  destruct (clear_pio_spec (pfs_pio fs) (set_pfo_mem (λ _, mo) s) Hvi)
    as (mi & -> & Hmi). simpl.
  destruct (kill_supers_spec fuel (fs_supers fs) ws (head (pfs_pfo fs))
              (set_pio_mem (λ _, mi) (set_pfo_mem (λ _, mo) s)) Hat)
    as (s3 & evs & -> & _ & _ & Hpv).
  simpl.
  pose proof (patched_vfs_frame _ _ _ Hpv) as (_ & Hm3 & Hpfo3 & _).
  simpl in Hm3, Hpfo3.
  destruct Hpv as (Hf & Hs & Hd & Hi & _). simpl in Hf, Hs, Hd, Hi.
  rewrite Hm3, Hfs. simpl. eexists. split; [done|]. simpl. split.
  - intros i sb t files ino Hsb Hw.
    pose proof (Forall2_lookup_lr _ _ _ _ _ _ Hat Hsb Hw) as [Hsat Hsz].
    simpl in Hsat, Hsz.
    destruct (kill_supers_patches_at fuel (fs_supers fs) ws (head (pfs_pfo fs))
                i sb t files ino Hsb Hw Hsz) as (H1 & H2 & H3 & H4).
    destruct Hsat as ([ty Hshsb] & Hfiles & _ & Hedges & _ & Hino).
    split_and!.
    + apply shape_sb_lookup in Hshsb as (sbr & Hsbr & _).
      simpl in Hsbr. rewrite Hs, Hsbr. simpl.
      destruct (c_sb _ sb) as [[]]; [done|discriminate].
    + intros f Hin.
      assert (is_Some (file_mem s !! f)) as [f0 Hf0].
      { apply elem_of_dom. exact (proj1 (Forall_forall _ _) Hfiles f Hin). }
      rewrite Hf, Hf0, (H2 f Hin). done.
    + intros q Hq.
      assert (is_Some (dentry_mem s !! q)) as [d Hdq].
      { apply list_elem_of_fmap in Hq as [[a ks] [-> Ha]].
        specialize (Hedges a ks Ha). apply shape_dentry_subdirs in Hedges.
        simpl in *. destruct (dentry_mem s !! a); [by eexists|done]. }
      eexists. rewrite Hd, Hdq. split; [done|].
      simpl. by rewrite (H3 q Hq).
    + simpl in Hino. apply elem_of_dom in Hino as [i0 Hi0].
      rewrite Hi, Hi0, H4. done.
  - intros t0 Hhd. rewrite Hpfo3.
    assert (t0 ∈ pfs_pfo fs) as Hin.
    { destruct (pfs_pfo fs); [done|]. injection Hhd as ->. left. }
    destruct (proj1 (Forall_forall _ _) Hvo t0 Hin) as [fo Hfo].
    exists fo, (clear_file_operations fo). split; [done|]. split.
    + rewrite (patched_in_lookup _ _ _ _ _ Hmo Hin), Hfo. done.
    + intros k. apply clear_file_operations_slots.
Qed.

Lemma busy_supers :
  supers_at 4 (shape_of busy) (fs_supers busy_fs) [(busy_tree, [], 6%positive)].
Proof.
  constructor; [|constructor].
  split; [exact busy_super|vm_compute; lia].
Qed.

Lemma unregister_quiesces_every_superblock_witness :
  ∃ s', proclikefs_unregister_filesystem 4 (Some 1%positive) busy = Some s'
    ∧ s_op <$> sb_mem s' !! 4%positive = Some sop_proclikefs_null
    ∧ inode_mem s' !! 6%positive = Some {| i_op := iop_proclikefs_null_root |}.
Proof.
  destruct (unregister_quiesces_every_superblock 4 busy 1 busy_fs
              [(busy_tree, [], 6%positive)])
    as (s' & Hrun & Hall & _).
  - vm_compute. reflexivity.
  - repeat constructor. vm_compute. by eexists.
  - repeat constructor. vm_compute. by eexists.
  - apply busy_supers.
  - destruct (Hall 0%nat 4%positive busy_tree [] 6%positive eq_refl eq_refl)
      as (H1 & _ & _ & H4).
    exists s'. exact (conj Hrun (conj H1 H4)).
Defined.

(** ** A superblock without a root *)

Lemma clear_pfo_sb l s s' : clear_pfo l s = Some s' → sb_mem s' = sb_mem s.
Proof.
  revert s. induction l as [|t l IH]; intros s Hrun; simpl in Hrun.
  - by injection Hrun as <-.
  - destruct (pfo_mem s !! t); simpl in Hrun; [|done].
    by rewrite (IH _ Hrun).
Qed.

Lemma clear_pio_sb l s s' : clear_pio l s = Some s' → sb_mem s' = sb_mem s.
Proof.
  revert s. induction l as [|t l IH]; intros s Hrun; simpl in Hrun.
  - by injection Hrun as <-.
  - destruct (pio_mem s !! t); simpl in Hrun; [|done].
    by rewrite (IH _ Hrun).
Qed.

(** [proclikefs_kill_super] skips its walk when [sb->s_root] is null but
    then stores through [sb->s_root->d_inode] all the same: on such a
    superblock it has no defined result, whatever the fuel, and so has
    an unregister of its file system. *)
Theorem kill_super_needs_root fuel sb dummy s sbr :
  sb_mem s !! sb = Some sbr → s_root sbr = None →
  proclikefs_kill_super fuel sb dummy s = None
  ∧ (∀ pfs fs rest, pfs_mem s !! pfs = Some fs → fs_supers fs = sb :: rest →
       proclikefs_unregister_filesystem fuel (Some pfs) s = None).
Proof.
  intros Hsb Hroot.
  assert (∀ s0 d, sb_mem s0 !! sb = Some sbr →
            proclikefs_kill_super fuel sb d s0 = None) as Hkill.
  { intros s0 d Hsb0. unfold proclikefs_kill_super. rewrite Hsb0. simpl.
    destruct (kill_files _ _ _); simpl; [|done].
    rewrite Hroot. by destruct fuel. }
  split; [by apply Hkill|].
  intros pfs fs rest Hfs Hsup.
  unfold proclikefs_unregister_filesystem. rewrite Hfs. simpl.
  destruct (clear_pfo _ _) as [s1|] eqn:H1; simpl; [|done].
  destruct (clear_pio _ _) as [s2|] eqn:H2; simpl; [|done].
  rewrite Hsup. cbn [kill_supers]. rewrite Hkill; [done|].
  apply clear_pfo_sb in H1. apply clear_pio_sb in H2.
  by rewrite H2, H1.
Qed.

Lemma kill_super_needs_root_witness :
  proclikefs_kill_super 4 4 None
    (set_sb_mem <[4%positive := {| s_type := 1; s_files := [];
                                   s_op := sop_driver 0; s_root := None |}]> busy)
  = None.
Proof.
  refine (proj1 (kill_super_needs_root 4 4 None _ _ _ _)).
  - vm_compute. reflexivity.
  - reflexivity.
Defined.

(** ** Reinitialize *)

Lemma set_trace_emit evs e s :
  set_trace (λ t, t ++ evs) (emit e s) = set_trace (λ t, t ++ e :: evs) s.
Proof. apply state_eq; simpl; try done. by rewrite <- app_assoc. Qed.

Lemma set_trace_nil s : set_trace (λ t, t ++ []) s = s.
Proof. apply state_eq; simpl; try done. by rewrite app_nil_r. Qed.

Lemma reinitialize_loop_spec pfs cb l s :
  Forall (λ p, is_Some (sb_mem s !! p)) l →
  ∃ evs, reinitialize_loop pfs cb l s = Some (set_trace (λ t, t ++ evs) s)
    ∧ Forall2 (λ p e, ∃ sbr, sb_mem s !! p = Some sbr
                 ∧ e = if decide (s_type sbr = pfs) then Ev_reread_super cb p
                       else Ev_printk "<1>proclikefs: confusion") l evs.
Proof.
  revert s. induction l as [|p l IH]; intros s Hall.
  - exists []. by rewrite set_trace_nil.
  - apply Forall_cons in Hall as [[sbr Hp] Hall].
    set (e := if decide (s_type sbr = pfs) then Ev_reread_super cb p
              else Ev_printk "<1>proclikefs: confusion").
    destruct (IH (emit e s)) as (evs & Hrun & Hevs); [done|].
    exists (e :: evs). split.
    + simpl. rewrite Hp. simpl.
      replace (if decide (s_type sbr = pfs) then emit (Ev_reread_super cb p) s
               else printk "<1>proclikefs: confusion" s) with (emit e s)
        by (unfold e; by case_decide).
      by rewrite Hrun, set_trace_emit.
    + constructor; [by exists sbr|done].
Qed.

(** [proclikefs_reinitialize_supers] changes nothing but the trace: for
    each superblock on [fs_supers], in list order, it either calls the
    callback on it (when its [s_type] is this file system) or logs
    "confusion"; whether the file system is live plays no part.  When
    every superblock on the list is of this file system, the callback is
    called exactly once on each and nothing is logged. *)
Theorem reinitialize_supers_rereads_each pfs cb fs s :
  pfs_mem s !! pfs = Some fs →
  Forall (λ p, is_Some (sb_mem s !! p)) (fs_supers fs) →
  ∃ evs,
    proclikefs_reinitialize_supers pfs cb s = Some (set_trace (λ t, t ++ evs) s)
    ∧ Forall2 (λ p e, ∃ sbr, sb_mem s !! p = Some sbr
                 ∧ e = if decide (s_type sbr = pfs) then Ev_reread_super cb p
                       else Ev_printk "<1>proclikefs: confusion")
        (fs_supers fs) evs
    ∧ (Forall (λ p, s_type <$> sb_mem s !! p = Some pfs) (fs_supers fs) →
       evs = Ev_reread_super cb <$> fs_supers fs).
Proof.
  intros Hfs Hall. unfold proclikefs_reinitialize_supers. rewrite Hfs. simpl.
  destruct (reinitialize_loop_spec pfs cb (fs_supers fs) s Hall) as (evs & Hrun & Hevs).
  exists evs. split_and!; [done..|].
  clear Hrun Hall. induction Hevs as [|p e l evs (sbr & Hp & He) _ IH]; [done|].
  intros [Hty Hrest]%Forall_cons. rewrite fmap_cons, <- (IH Hrest). f_equal.
  rewrite Hp in Hty. injection Hty as Hty. by rewrite He, decide_True.
Qed.

Lemma reinitialize_supers_rereads_each_witness :
  ∃ evs, proclikefs_reinitialize_supers 1 7 retired
         = Some (set_trace (λ t, t ++ evs) retired)
    ∧ evs = [Ev_reread_super 7 4%positive].
Proof.
  destruct (reinitialize_supers_rereads_each 1 7 (set_live 0 busy_fs) retired)
    as (evs & Hrun & _ & Hall).
  - exact (proj1 retired_fs).
  - repeat constructor. vm_compute. by eexists.
  - exists evs. split; [exact Hrun|].
    apply Hall. repeat constructor.
Defined.

(** ** Tables allocated after unregister *)

(** A table allocated for a file system that has already been
    unregistered is linked at the head of its chain like any other, but
    nothing poisons it: every slot is null, so a call through it has
    nothing to call, whatever the slot's type; the older tables of the
    chain keep what unregister left in them ([return_EIO] in the slots
    its loops name, null in [follow_link], the old contents elsewhere)
    and the block stays retired.  The same holds for inode-operations
    tables.  When [kmalloc] fails the functions return null and leave
    the state as it is. *)
Theorem table_allocated_after_unregister_is_null fuel s pfs fs :
  unregister_ready fuel s pfs fs →
  brk s ∉ pfs_pfo fs → brk s ∉ pfs_pio fs →
  ∃ s1, proclikefs_unregister_filesystem fuel (Some pfs) s = Some s1
    ∧ proclikefs_new_file_operations false pfs s1 = Some (None, s1)
    ∧ proclikefs_new_inode_operations false pfs s1 = Some (None, s1)
    ∧ (∃ s2 fo,
         proclikefs_new_file_operations true pfs s1 = Some (Some (brk s), s2)
         ∧ pfs_mem s2 !! pfs
           = Some (set_pfs_pfo (brk s :: pfs_pfo fs) (set_live 0 fs))
         ∧ pfo_mem s2 !! brk s = Some fo
         ∧ (∀ k impl rt,
              fo_get k fo = fn_NULL ∧ call_slot impl rt (fo_get k fo) = None)
         ∧ (∀ t, t ∈ pfs_pfo fs →
              ∃ fo0 fo', pfo_mem s !! t = Some fo0 ∧ pfo_mem s2 !! t = Some fo'
                ∧ ∀ k, fo_get k fo' = match k with
                                      | FO_other _ => fo_get k fo0
                                      | _ => fn_return_EIO
                                      end))
    ∧ (∃ s2 io,
         proclikefs_new_inode_operations true pfs s1 = Some (Some (brk s), s2)
         ∧ pfs_mem s2 !! pfs
           = Some (set_pfs_pio (brk s :: pfs_pio fs) (set_live 0 fs))
         ∧ pio_mem s2 !! brk s = Some io
         ∧ (∀ k impl rt,
              io_get k io = fn_NULL ∧ call_slot impl rt (io_get k io) = None)
         ∧ (∀ t, t ∈ pfs_pio fs →
              ∃ io0 io', pio_mem s !! t = Some io0 ∧ pio_mem s2 !! t = Some io'
                ∧ ∀ k, io_get k io' = match k with
                                      | IO_follow_link => fn_NULL
                                      | IO_other _ => io_get k io0
                                      | _ => fn_return_EIO
                                      end)).
Proof.
  intros Hready Hfo Hfi.
  pose proof Hready as (_ & Hvo & Hvi & _).
  destruct (unregister_ready_patched _ _ _ _ Hready)
    as (c & mo & mi & s1 & evs & Hrun & _ & _ & Hmo & Hmi & Hpv).
  apply patched_vfs_frame in Hpv as (_ & Hm & Hpfo & Hpio & _ & Hb & _).
  simpl in Hm, Hpfo, Hpio, Hb.
  exists s1. split; [done|]. split; [done|]. split; [done|]. split.
  - unfold proclikefs_new_file_operations, kmalloc. simpl.
    rewrite Hm, lookup_insert_eq, Hb. simpl.
    eexists _, zero_file_operations. split; [done|]. simpl. split_and!.
    + rewrite lookup_insert_eq. done.
    + apply lookup_insert_eq.
    + intros k impl rt. destruct k; simpl; rewrite ?lookup_empty; done.
    + intros t Ht.
      destruct (proj1 (Forall_forall _ _) Hvo t Ht) as [fo' Hfo'].
      exists fo', (clear_file_operations fo'). split; [done|]. split.
      * rewrite lookup_insert_ne by (by intros <-).
        rewrite Hpfo, (patched_in_lookup _ _ _ _ _ Hmo Ht), Hfo'. done.
      * intros k. apply clear_file_operations_slots.
  - unfold proclikefs_new_inode_operations, kmalloc. simpl.
    rewrite Hm, lookup_insert_eq, Hb. simpl.
    eexists _, zero_inode_operations. split; [done|]. simpl. split_and!.
    + rewrite lookup_insert_eq. done.
    + apply lookup_insert_eq.
    + intros k impl rt. destruct k; simpl; rewrite ?lookup_empty; done.
    + intros t Ht.
      destruct (proj1 (Forall_forall _ _) Hvi t Ht) as [io' Hio'].
      exists io', (clear_inode_operations io'). split; [done|]. split.
      * rewrite lookup_insert_ne by (by intros <-).
        rewrite Hpio, (patched_in_lookup _ _ _ _ _ Hmi Ht), Hio'. done.
      * intros k. apply clear_inode_operations_slots.
Qed.

Lemma table_allocated_after_unregister_is_null_witness :
  ∃ s1, proclikefs_unregister_filesystem 4 (Some 1%positive) busy = Some s1
    ∧ proclikefs_new_file_operations false 1 s1 = Some (None, s1).
Proof.
  destruct (table_allocated_after_unregister_is_null 4 busy 1 busy_fs busy_ready)
    as (s1 & H1 & H2 & _).
  - apply (bool_decide_unpack _). vm_compute. exact I.
  - apply (bool_decide_unpack _). vm_compute. exact I.
  - exists s1. exact (conj H1 H2).
Defined.

(** ** cleanup_module *)

Lemma cleanup_loop_spec l s :
  NoDup l → Forall (λ p, is_Some (pfs_mem s !! p)) l →
  ∃ s' evs, cleanup_loop l s = Some s'
    ∧ trace s' = trace s ++ evs
    ∧ set_pfs_mem (λ _, pfs_mem s) (set_trace (λ _, trace s) s') = s
    ∧ (∀ p, pfs_mem s' !! p = if decide (p ∈ l) then None else pfs_mem s !! p)
    ∧ filter is_kfree evs = Ev_kfree K_pfs <$> l
    ∧ unregister_calls evs = l
    ∧ tables_freed evs = []
    ∧ (filter is_printk evs = []
       ↔ Forall (λ p, ∀ fs, pfs_mem s !! p = Some fs → ¬ active fs) l).
Proof.
  revert s. induction l as [|p l IH]; intros s Hnd Hall.
  - exists s, []. rewrite app_nil_r. split_and!; try done.
    by apply state_eq.
  - apply NoDup_cons in Hnd as [Hp Hnd].
    apply Forall_cons in Hall as [[fs Hfs] Hall].
    cbn [cleanup_loop]. unfold cleanup_block at 1. rewrite Hfs. cbn [mbind option_bind].
    set (w := if decide (live fs ≠ 0 ∨ nsuper fs ≠ 0)
              then [Ev_printk "<1>proclikefs: unregistering active FS %s, prepare to die"]
              else []).
    match goal with
    | |- context [cleanup_loop l ?s1] => set (s1' := s1)
    end.
    assert (trace s1' = trace s ++ w ++ [Ev_unregister_filesystem p; Ev_kfree K_pfs p])
      as Htr1.
    { unfold s1', w. case_decide; simpl; by rewrite <- ?app_assoc. }
    assert (pfs_mem s1' = delete p (pfs_mem s)) as Hm1
      by (unfold s1'; by case_decide).
    destruct (IH s1') as (s' & evs & Hrun & Htr & Hrest & Hm & Hk & Hu & Hf & Hw).
    { done. }
    { apply Forall_forall. intros q Hq.
      rewrite Hm1, lookup_delete_ne by (by intros ->).
      exact (proj1 (Forall_forall _ _) Hall q Hq). }
    exists s', (w ++ [Ev_unregister_filesystem p; Ev_kfree K_pfs p] ++ evs).
    split; [done|]. split_and!.
    + rewrite Htr, Htr1. by rewrite <- !app_assoc.
    + pose proof (f_equal fs_list Hrest) as E1.
      pose proof (f_equal pfo_mem Hrest) as E2.
      pose proof (f_equal pio_mem Hrest) as E3.
      pose proof (f_equal sb_mem Hrest) as E4.
      pose proof (f_equal dentry_mem Hrest) as E5.
      pose proof (f_equal inode_mem Hrest) as E6.
      pose proof (f_equal file_mem Hrest) as E7.
      pose proof (f_equal proclikefs_null_super_operations Hrest) as E8.
      pose proof (f_equal proclikefs_null_root_inode_operations Hrest) as E9.
      pose proof (f_equal module_use_count Hrest) as E10.
      pose proof (f_equal brk Hrest) as E11.
      simpl in E1, E2, E3, E4, E5, E6, E7, E8, E9, E10, E11.
      apply state_eq; simpl; try done;
        (etrans; [eassumption|]); unfold s1'; by case_decide.
    + intros q. rewrite Hm, Hm1.
      destruct (decide (q = p)) as [->|Hne].
      * rewrite (decide_True (P := p ∈ p :: l)) by left.
        case_decide; [done|apply lookup_delete_eq].
      * rewrite lookup_delete_ne by done.
        destruct (decide (q ∈ l)).
        -- rewrite decide_True; [done|by right].
        -- rewrite decide_False; [done|]. by intros [->|]%elem_of_cons.
    + rewrite !filter_app, Hk. unfold w. by case_decide.
    + unfold unregister_calls in *. rewrite !omap_app, Hu. unfold w. by case_decide.
    + unfold tables_freed in *. rewrite !omap_app, Hf. unfold w. by case_decide.
    + rewrite !filter_app. rewrite Forall_cons. unfold w, active. split.
      * intros Hnil. case_decide as Hact; [done|]. simpl in Hnil. split.
        -- intros fs' Hfs'. rewrite Hfs in Hfs'. by injection Hfs' as <-.
        -- apply Hw in Hnil. apply Forall_forall. intros q Hq fs' Hfs'.
           apply (proj1 (Forall_forall _ _) Hnil q Hq fs').
           by rewrite Hm1, lookup_delete_ne by (by intros ->).
      * intros [Hhere Hrestl]. rewrite decide_False by exact (Hhere fs Hfs).
        simpl. apply Hw. apply Forall_forall. intros q Hq fs' Hfs'.
        apply (proj1 (Forall_forall _ _) Hrestl q Hq fs').
        by rewrite Hm1, lookup_delete_ne in Hfs' by (by intros ->).
Qed.

(** [cleanup_module] frees every block of [fs_list] exactly once, after
    calling [unregister_filesystem] on it, and frees nothing else: no
    table of any chain is freed and both table heaps are as before.  It
    warns exactly when some block is live or still mounted.  It unlinks
    nothing, so afterwards [fs_list] names only freed blocks. *)
Theorem cleanup_module_frees_blocks_only s :
  NoDup (fs_list s) → Forall (λ p, is_Some (pfs_mem s !! p)) (fs_list s) →
  ∃ s' evs, cleanup_module s = Some s'
    ∧ trace s' = trace s ++ evs
    ∧ filter is_kfree evs = Ev_kfree K_pfs <$> fs_list s
    ∧ unregister_calls evs = fs_list s
    ∧ tables_freed evs = []
    ∧ pfo_mem s' = pfo_mem s ∧ pio_mem s' = pio_mem s
    ∧ fs_list s' = fs_list s
    ∧ Forall (λ p, pfs_mem s' !! p = None) (fs_list s')
    ∧ (filter is_printk evs = []
       ↔ Forall (λ p, ∀ fs, pfs_mem s !! p = Some fs → ¬ active fs) (fs_list s)).
Proof.
  intros Hnd Hall.
  destruct (cleanup_loop_spec (fs_list s) s Hnd Hall)
    as (s' & evs & Hrun & Htr & Hrest & Hm & Hk & Hu & Hf & Hw).
  exists s', evs.
  pose proof (f_equal fs_list Hrest) as Hl. simpl in Hl.
  split_and!; try done.
  - exact (f_equal pfo_mem Hrest).
  - exact (f_equal pio_mem Hrest).
  - rewrite Hl. apply Forall_forall. intros p Hp. rewrite Hm. by rewrite decide_True.
Qed.

Lemma cleanup_module_frees_blocks_only_witness :
  ∃ s' evs, cleanup_module busy = Some s'
    ∧ trace s' = trace busy ++ evs
    ∧ filter is_kfree evs = Ev_kfree K_pfs <$> fs_list busy.
Proof.
  destruct (cleanup_module_frees_blocks_only busy)
    as (s' & evs & H1 & H2 & H3 & _).
  - vm_compute. repeat constructor. apply not_elem_of_nil.
  - vm_compute. repeat constructor. by eexists.
  - exists s', evs. exact (conj H1 (conj H2 H3)).
Defined.

(** ** Only a release frees *)

Lemma emits_refl P s : emits P s s.
Proof. exists []. by rewrite app_nil_r. Qed.

Lemma emits_trans P s1 s2 s3 : emits P s1 s2 → emits P s2 s3 → emits P s1 s3.
Proof.
  intros (e1 & H1 & F1) (e2 & H2 & F2). exists (e1 ++ e2). split.
  - by rewrite H2, H1, app_assoc.
  - by apply Forall_app.
Qed.

Lemma emits_emit (P : event → Prop) e s : P e → emits P s (emit e s).
Proof. intros He. exists [e]. split; [done|by constructor]. Qed.

Lemma emits_same P s s' : trace s' = trace s → emits P s s'.
Proof. intros Ht. exists []. by rewrite app_nil_r. Qed.

Lemma kill_files_harmless l dummy s s' :
  kill_files l dummy s = Some s' → emits harmless s s'.
Proof.
  revert s. induction l as [|f l IH]; intros s Hrun; simpl in Hrun.
  - injection Hrun as <-. apply emits_refl.
  - destruct (file_mem s !! f); simpl in Hrun; [|done].
    eapply emits_trans; [|by apply IH]. by apply emits_same.
Qed.

Lemma prepend_children_harmless kids dt s dt' s' :
  prepend_children kids dt s = Some (dt', s') → emits harmless s s'.
Proof.
  revert dt s. induction kids as [|k kids IH]; intros dt s Hrun; simpl in Hrun.
  - injection Hrun as <- <-. apply emits_refl.
  - unfold d_drop in Hrun.
    destruct (dentry_mem s !! k) as [c|]; simpl in Hrun; [|done].
    rewrite lookup_insert_eq in Hrun. simpl in Hrun.
    eapply emits_trans; [|by eapply IH].
    eapply emits_trans; [apply (emits_emit harmless (Ev_d_drop k)); done|].
    by apply emits_same.
Qed.

Lemma kill_dentries_harmless fuel dt s s' :
  kill_dentries fuel dt s = Some s' → emits harmless s s'.
Proof.
  revert dt s. induction fuel as [|fuel IH]; intros [a|] s Hrun; simpl in Hrun;
    try done; try (injection Hrun as <-; apply emits_refl).
  destruct (dentry_mem s !! a) as [da|]; simpl in Hrun; [|done].
  destruct (prepend_children _ _ _) as [[dt' s1]|] eqn:Hpre; simpl in Hrun; [|done].
  eapply emits_trans; [|by eapply IH].
  eapply emits_trans; [|by eapply prepend_children_harmless].
  eapply emits_trans; [apply (emits_emit harmless (Ev_visit a)); done|].
  by apply emits_same.
Qed.

Lemma kill_super_harmless fuel sb dummy s s' :
  proclikefs_kill_super fuel sb dummy s = Some s' → emits harmless s s'.
Proof.
  unfold proclikefs_kill_super. intros Hrun.
  destruct (sb_mem s !! sb) as [sbr|]; simpl in Hrun; [|done].
  destruct (kill_files _ _ _) as [s1|] eqn:H1; simpl in Hrun; [|done].
  apply kill_files_harmless in H1.
  destruct (s_root sbr) as [root|]; simpl in Hrun.
  2:{ by destruct fuel. }
  destruct (dentry_mem s1 !! root) as [r0|]; simpl in Hrun; [|done].
  destruct (kill_dentries _ _ _) as [s4|] eqn:H4; simpl in Hrun; [|done].
  apply kill_dentries_harmless in H4.
  destruct (dentry_mem s4 !! root) as [r|]; simpl in Hrun; [|done].
  destruct (d_inode r) as [ino|]; simpl in Hrun; [|done].
  destruct (inode_mem s4 !! ino); simpl in Hrun; [|done].
  injection Hrun as <-.
  eapply emits_trans; [exact H1|].
  eapply emits_trans; [|eapply emits_trans; [exact H4|by apply emits_same]].
  by apply emits_same.
Qed.

Lemma kill_supers_harmless fuel l dummy s s' :
  kill_supers fuel l dummy s = Some s' → emits harmless s s'.
Proof.
  revert s. induction l as [|sb l IH]; intros s Hrun; simpl in Hrun.
  - injection Hrun as <-. apply emits_refl.
  - destruct (proclikefs_kill_super _ _ _ _) as [s1|] eqn:H1; simpl in Hrun; [|done].
    eapply emits_trans; [by eapply kill_super_harmless|by apply IH].
Qed.

Lemma clear_pfo_harmless l s s' : clear_pfo l s = Some s' → emits harmless s s'.
Proof.
  revert s. induction l as [|t l IH]; intros s Hrun; simpl in Hrun.
  - injection Hrun as <-. apply emits_refl.
  - destruct (pfo_mem s !! t); simpl in Hrun; [|done].
    eapply emits_trans; [|by apply IH]. by apply emits_same.
Qed.

Lemma clear_pio_harmless l s s' : clear_pio l s = Some s' → emits harmless s s'.
Proof.
  revert s. induction l as [|t l IH]; intros s Hrun; simpl in Hrun.
  - injection Hrun as <-. apply emits_refl.
  - destruct (pio_mem s !! t); simpl in Hrun; [|done].
    eapply emits_trans; [|by apply IH]. by apply emits_same.
Qed.

Lemma unregister_harmless fuel pfs s s' :
  proclikefs_unregister_filesystem fuel pfs s = Some s' → emits harmless s s'.
Proof.
  destruct pfs as [pfs|]; simpl; [|intros [= <-]; apply emits_refl].
  intros Hrun.
  destruct (pfs_mem s !! pfs) as [fs|]; simpl in Hrun; [|done].
  destruct (clear_pfo _ _) as [s1|] eqn:H1; simpl in Hrun; [|done].
  destruct (clear_pio _ _) as [s2|] eqn:H2; simpl in Hrun; [|done].
  destruct (kill_supers _ _ _ _) as [s3|] eqn:H3; simpl in Hrun; [|done].
  destruct (pfs_mem s3 !! pfs) as [fs3|] eqn:Hfs3; simpl in Hrun; [|done].
  injection Hrun as <-.
  eapply emits_trans; [by eapply clear_pfo_harmless|].
  eapply emits_trans; [by eapply clear_pio_harmless|].
  eapply emits_trans; [by eapply kill_supers_harmless|].
  by apply emits_same.
Qed.

Lemma reinitialize_loop_harmless pfs cb l s s' :
  reinitialize_loop pfs cb l s = Some s' → emits harmless s s'.
Proof.
  revert s. induction l as [|p l IH]; intros s Hrun; simpl in Hrun.
  - injection Hrun as <-. apply emits_refl.
  - destruct (sb_mem s !! p) as [sb|]; simpl in Hrun; [|done].
    eapply emits_trans; [|by apply IH].
    case_decide; by apply emits_emit.
Qed.

Lemma register_harmless o nm flags get_sb s r s' :
  proclikefs_register_filesystem o nm flags get_sb s = Some (r, s') →
  emits harmless s s'.
Proof.
  unfold proclikefs_register_filesystem.
  destruct nm as [nm|]; [|intros [= _ <-]; apply emits_refl].
  destruct (try_module_get_ok o); [|intros [= _ <-]; by apply emits_emit].
  simpl. destruct (register_scan _ _ _ _) as [[|[newfs|]]|]; simpl; [| | |done].
  - intros [= _ <-]. by apply emits_same.
  - unfold register_finish. destruct (pfs_mem _ !! newfs); simpl; [|done].
    intros [= _ <-]. by apply emits_same.
  - unfold kmalloc. destruct (kmalloc_ok o); simpl.
    + unfold register_finish. simpl. rewrite lookup_insert_eq. simpl.
      intros [= _ <-].
      exists ([Ev_kmalloc K_pfs (brk s); Ev_register_filesystem (brk s)]
              ++ if decide (register_filesystem_err o = 0) then []
                 else [Ev_printk "<1>proclikefs: error %d while initializing pfs[%p] (%s)"]).
      case_decide; simpl; rewrite <- ?app_assoc; split; try done;
        by repeat constructor.
    + intros [= _ <-]. by apply emits_same.
Qed.

Lemma step_harmless c s s' :
  is_put_super c = false → step c s = Some s' → emits harmless s s'.
Proof.
  intros Hc. destruct c; simpl; try done.
  - destruct (proclikefs_register_filesystem _ _ _ _ _) as [[r s1]|] eqn:Hrun;
      simpl; [|done]. intros [= <-]. by eapply register_harmless.
  - apply unregister_harmless.
  - unfold proclikefs_reinitialize_supers.
    destruct (pfs_mem s !! pfs); simpl; [|done].
    apply reinitialize_loop_harmless.
  - unfold proclikefs_new_file_operations, kmalloc.
    destruct ok; simpl; [|intros [= <-]; apply emits_refl].
    destruct (pfs_mem s !! pfs); simpl; [|done].
    intros [= <-]. exists [Ev_kmalloc K_pfo (brk s)].
    split; [done|by repeat constructor].
  - unfold proclikefs_new_inode_operations, kmalloc.
    destruct ok; simpl; [|intros [= <-]; apply emits_refl].
    destruct (pfs_mem s !! pfs); simpl; [|done].
    intros [= <-]. exists [Ev_kmalloc K_pio (brk s)].
    split; [done|by repeat constructor].
  - unfold proclikefs_read_super.
    destruct (sb_mem s !! sb) as [sbr|]; simpl; [|done].
    destruct (pfs_mem s !! s_type sbr); simpl; [|done].
    intros [= <-]. destruct try_ok; [by apply emits_same|].
    exists [Ev_printk "<1>proclikefs: error using module"].
    split; [done|by repeat constructor].
  - unfold drv_fo_store. destruct (pfo_mem s !! pfo); simpl; [|done].
    intros [= <-]. by apply emits_same.
  - unfold drv_io_store. destruct (pio_mem s !! pio); simpl; [|done].
    intros [= <-]. by apply emits_same.
  - unfold env_mount. destruct (pfs_mem s !! pfs); simpl; [|done].
    intros [= <-]. by apply emits_same.
  - unfold env_d_alloc. destruct (dentry_mem s !! parent); simpl; [|done].
    intros [= <-]. by apply emits_same.
Qed.

Lemma harmless_events evs :
  Forall harmless evs → filter is_kfree evs = [] ∧ unregister_calls evs = [].
Proof.
  induction 1 as [|e evs He _ [IH1 IH2]]; [done|].
  split.
  - rewrite filter_cons, IH1. by destruct e.
  - destruct e; simpl in He; try done; exact IH2.
Qed.

(** In a run without a call of [proclikefs_put_super] nothing is freed
    and the kernel's [unregister_filesystem] is never called, whatever
    else is called and however often: register, unregister,
    reinitialize, allocation of tables, acquire, and the steps of the
    kernel and the driver only add to the trace events that are neither
    of the two. *)
Theorem only_release_frees cs s s' :
  Forall (λ c, is_put_super c = false) cs → run cs s = Some s' →
  ∃ evs, trace s' = trace s ++ evs
    ∧ filter is_kfree evs = [] ∧ unregister_calls evs = [].
Proof.
  intros Hcs Hrun.
  assert (emits harmless s s') as (evs & Htr & Hev).
  { revert s Hrun. induction Hcs as [|c cs Hc _ IH]; intros s Hrun; simpl in Hrun.
    - injection Hrun as <-. apply emits_refl.
    - destruct (step c s) as [s1|] eqn:Hstep; simpl in Hrun; [|done].
      eapply emits_trans; [by eapply step_harmless|by apply IH]. }
  exists evs. split; [done|]. by apply harmless_events.
Qed.

Lemma only_release_frees_witness :
  ∃ evs, trace busy = trace (init_module boot) ++ evs
    ∧ filter is_kfree evs = [] ∧ unregister_calls evs = [].
Proof.
  apply (only_release_frees busy_calls (init_module boot) busy).
  - repeat constructor.
  - vm_compute. reflexivity.
Defined.
